(** * CrystFEL: scaling/post-refinement driver and figures of merit

    A shallow embedding of the parts of [partialator.c] (reflection
    selection, the refinement stage, the cycle of [main]) and of [fom.c]
    (names of the figures of merit, selection of the reflections to compare,
    resolution shells, binning, Wilson scaling, accumulation and evaluation
    of the figures of merit), with the properties the specification states
    about them and further properties of the code.

    Numbers.  A C [double] is modelled by [double] below: an exact real
    number, or one of the special values the code itself tests for and
    produces ([isnan], [isinf], division by zero).  Finite arithmetic is
    exact (no rounding, no overflow, one zero).  A C [int] is a [Z] kept in
    the 32-bit two's-complement range by [int_wrap]. *)

From Stdlib Require Import Ascii String.
From Stdlib Require Import Reals Lra Lia ZArith List Bool.
Import ListNotations.
Open Scope R_scope.

(* ================================================================== *)
(** * Numbers *)

Inductive double : Type :=
  | Fin (r : R)
  | Inf (neg : bool)
  | NaN.

Definition Rltb (a b : R) : bool := if Rlt_dec a b then true else false.
Definition Reqb (a b : R) : bool := if Req_dec_T a b then true else false.

(** Three-way comparison; [None] when a NaN is involved (every C
    comparison is then false). *)
Definition dcmp (x y : double) : option comparison :=
  match x, y with
  | NaN, _ | _, NaN => None
  | Fin a, Fin b => Some (if Rltb a b then Lt else if Rltb b a then Gt else Eq)
  | Inf s, Inf s' => Some (if eqb s s' then Eq else if s then Lt else Gt)
  | Inf s, Fin _ => Some (if s then Lt else Gt)
  | Fin _, Inf s => Some (if s then Gt else Lt)
  end.

Definition dlt (x y : double) : bool :=
  match dcmp x y with Some Lt => true | _ => false end.
Definition dle (x y : double) : bool :=
  match dcmp x y with Some Lt | Some Eq => true | _ => false end.
Definition dgt (x y : double) : bool := dlt y x.
Definition dge (x y : double) : bool := dle y x.

Definition isnan (x : double) : bool :=
  match x with NaN => true | _ => false end.
Definition isinf (x : double) : bool :=
  match x with Inf _ => true | _ => false end.

Definition dneg (x : double) : double :=
  match x with Fin a => Fin (- a) | Inf s => Inf (negb s) | NaN => NaN end.

Definition dadd (x y : double) : double :=
  match x, y with
  | NaN, _ | _, NaN => NaN
  | Fin a, Fin b => Fin (a + b)
  | Inf s, Inf s' => if eqb s s' then Inf s else NaN
  | Inf s, Fin _ | Fin _, Inf s => Inf s
  end.

Definition dsub (x y : double) : double := dadd x (dneg y).

Definition dmul (x y : double) : double :=
  match x, y with
  | NaN, _ | _, NaN => NaN
  | Fin a, Fin b => Fin (a * b)
  | Inf s, Inf s' => Inf (xorb s s')
  | Inf s, Fin a | Fin a, Inf s =>
      if Reqb a 0 then NaN else Inf (xorb s (Rltb a 0))
  end.

Definition ddiv (x y : double) : double :=
  match x, y with
  | NaN, _ | _, NaN => NaN
  | Fin a, Fin b =>
      if Reqb b 0
      then (if Reqb a 0 then NaN else Inf (Rltb a 0))
      else Fin (a / b)
  | Fin _, Inf _ => Fin 0
  | Inf s, Fin b => Inf (xorb s (Rltb b 0))
  | Inf _, Inf _ => NaN
  end.

Definition dfabs (x : double) : double :=
  match x with Fin a => Fin (Rabs a) | Inf _ => Inf false | NaN => NaN end.

Definition dsqrt (x : double) : double :=
  match x with
  | Fin a => if Rltb a 0 then NaN else Fin (sqrt a)
  | Inf false => Inf false
  | Inf true => NaN
  | NaN => NaN
  end.

Definition dlog (x : double) : double :=
  match x with
  | Fin a => if Rltb a 0 then NaN else if Reqb a 0 then Inf true else Fin (ln a)
  | Inf false => Inf false
  | Inf true => NaN
  | NaN => NaN
  end.

Definition dexp (x : double) : double :=
  match x with
  | Fin a => Fin (exp a)
  | Inf false => Inf false
  | Inf true => Fin 0
  | NaN => NaN
  end.

(** [pow(x, y)] of the C library for a finite exponent [y]: a positive
    base gives [exp (y * ln x)]; a zero base gives 0, 1 or infinity by the
    sign of [y]; a negative base has a result only for an integral [y]. *)
Definition dpow (x : double) (y : R) : double :=
  if Reqb y 0 then Fin 1 else
  match x with
  | NaN => NaN
  | Fin a =>
      if Rltb 0 a then Fin (Rpower a y)
      else if Reqb a 0 then (if Rltb 0 y then Fin 0 else Inf false)
      else if Reqb (IZR (Int_part y)) y then Fin (powerRZ a (Int_part y))
      else NaN
  | Inf false => if Rltb 0 y then Inf false else Fin 0
  | Inf true =>
      if Rltb 0 y
      then (if Reqb (IZR (Int_part y)) y
            then Inf (Z.odd (Int_part y)) else Inf false)
      else Fin 0
  end.

(** Conversion [(double) n] of an [int]. *)
Definition d_of_int (n : Z) : double := Fin (IZR n).

(** Sum of a list of numbers, in list order from [0.0]. *)
Definition dsum (l : list double) : double := fold_left dadd l (Fin 0).

(** 32-bit [int]. *)
Definition int_wrap (z : Z) : Z := ((z + 2147483648) mod 4294967296 - 2147483648)%Z.
Definition int_incr (n : Z) : Z := int_wrap (n + 1).
Definition INT_MAX : Z := 2147483647%Z.

(** Array cells: read and write by index. *)
Fixpoint aset {A} (l : list A) (i : nat) (v : A) : list A :=
  match l, i with
  | [], _ => []
  | _ :: t, O => v :: t
  | x :: t, S j => x :: aset t j v
  end.

(* ================================================================== *)
(** * Reflections, reflection lists, cells, crystals *)

(** Modelled from the spec: the stored reflection of [reflist.c], which is
    not among the sources.  It is keyed by its Miller indices and carries the
    mutable fields the accessors [get_...]/[set_...] read and write. *)
Record Reflection : Type := mkReflection {
  get_h : Z;
  get_k : Z;
  get_l : Z;
  get_intensity : double;
  get_esd_intensity : double;
  get_partiality : double;
  get_redundancy : Z;
  get_scalable : bool;
  get_refinable : bool;
  get_flag : bool
}.

Definition get_indices (r : Reflection) : Z * Z * Z := (get_h r, get_k r, get_l r).

Definition set_intensity (r : Reflection) (v : double) : Reflection :=
  mkReflection (get_h r) (get_k r) (get_l r) v (get_esd_intensity r)
    (get_partiality r) (get_redundancy r) (get_scalable r) (get_refinable r)
    (get_flag r).
Definition set_esd_intensity (r : Reflection) (v : double) : Reflection :=
  mkReflection (get_h r) (get_k r) (get_l r) (get_intensity r) v
    (get_partiality r) (get_redundancy r) (get_scalable r) (get_refinable r)
    (get_flag r).
Definition set_scalable (r : Reflection) (v : bool) : Reflection :=
  mkReflection (get_h r) (get_k r) (get_l r) (get_intensity r)
    (get_esd_intensity r) (get_partiality r) (get_redundancy r) v
    (get_refinable r) (get_flag r).
Definition set_refinable (r : Reflection) (v : bool) : Reflection :=
  mkReflection (get_h r) (get_k r) (get_l r) (get_intensity r)
    (get_esd_intensity r) (get_partiality r) (get_redundancy r)
    (get_scalable r) v (get_flag r).
Definition set_flag (r : Reflection) (v : bool) : Reflection :=
  mkReflection (get_h r) (get_k r) (get_l r) (get_intensity r)
    (get_esd_intensity r) (get_partiality r) (get_redundancy r)
    (get_scalable r) (get_refinable r) v.

(** Modelled from the spec: the reflection list of [reflist.c] (not among
    the sources): the reflections in iteration order ([first_refl],
    [next_refl]); [find_refl] is exact on (h,k,l), without symmetry folding,
    and gives the first entry with that key. *)
Definition RefList : Type := list Reflection.

Definition same_indices (h k l : Z) (r : Reflection) : bool :=
  ((get_h r =? h) && (get_k r =? k) && (get_l r =? l))%Z.

Definition find_refl (list : RefList) (h k l : Z) : option Reflection :=
  find (same_indices h k l) list.

(** The position of the entry [find_refl] gives: the model of the pointer
    [Reflection *] into a list that is updated in place. *)
Fixpoint find_refl_idx (list : RefList) (h k l : Z) : option nat :=
  match list with
  | [] => None
  | r :: rest =>
      if same_indices h k l r then Some O
      else option_map S (find_refl_idx rest h k l)
  end.

Definition num_reflections (list : RefList) : Z := Z.of_nat (length list).

(** Modelled from the spec: the unit cell of [cell.c] (not among the
    sources), as three Cartesian axis vectors. *)
Record UnitCell : Type := mkUnitCell {
  cell_a : double * double * double;
  cell_b : double * double * double;
  cell_c : double * double * double
}.

(** Modelled from the spec: a point group's operator list of [symmetry.c]
    (not among the sources), 3x3 integer matrices by rows. *)
Definition SymOpList : Type := list ((Z * Z * Z) * (Z * Z * Z) * (Z * Z * Z)).

Inductive PartialityModel : Type := PMODEL_SPHERE | PMODEL_UNITY.

Definition PartialityModel_eqb (a b : PartialityModel) : bool :=
  match a, b with
  | PMODEL_SPHERE, PMODEL_SPHERE | PMODEL_UNITY, PMODEL_UNITY => true
  | _, _ => false
  end.

(** Modelled from the spec: the crystal of [crystal.c] (not among the
    sources): its reflection list, overall scale factor, cell and
    orientation, profile radius, mosaicity and user flag. *)
Record Crystal : Type := mkCrystal {
  crystal_get_reflections : RefList;
  crystal_get_osf : double;
  crystal_get_cell : UnitCell;
  crystal_get_profile_radius : double;
  crystal_get_mosaicity : double;
  crystal_get_user_flag : Z
}.

Definition crystal_set_reflections (cr : Crystal) (rl : RefList) : Crystal :=
  mkCrystal rl (crystal_get_osf cr) (crystal_get_cell cr)
    (crystal_get_profile_radius cr) (crystal_get_mosaicity cr)
    (crystal_get_user_flag cr).

(* ================================================================== *)
(** * partialator.c *)

(** [struct prdata] of post-refinement.h and the field of [struct srdata]
    that the refinement stage updates. *)
Record prdata : Type := mkPrdata { n_filtered : Z }.
Record srdata : Type := mkSrdata { sr_n_filtered : Z }.

Record refine_args : Type := mkRefineArgs {
  ra_full : RefList;
  ra_crystal : option nat;        (* which entry of [crystals]; NULL at first *)
  ra_pmodel : PartialityModel;
  ra_prdata : prdata
}.

Record queue_args : Type := mkQueueArgs {
  qa_n_started : Z;
  qa_n_done : Z;
  qa_crystals : list Crystal;
  qa_n_crystals : Z;
  qa_srdata : srdata;
  qa_task_defaults : refine_args
}.

Section Refinement.

(** [pr_refine] of post-refinement.c (not among the sources): it updates the
    crystal it is given and returns its [struct prdata]. *)
Variable pr_refine : Crystal -> RefList -> PartialityModel -> Crystal * prdata.

(** [get_image]: the next task is a copy of the defaults, for the crystal
    [crystals[n_started]]. *)
Definition get_image (qargs : queue_args) : refine_args * queue_args :=
  let task := qa_task_defaults qargs in
  let task := mkRefineArgs (ra_full task) (Some (Z.to_nat (qa_n_started qargs)))
                (ra_pmodel task) (ra_prdata task) in
  (task,
   mkQueueArgs (int_incr (qa_n_started qargs)) (qa_n_done qargs)
     (qa_crystals qargs) (qa_n_crystals qargs) (qa_srdata qargs)
     (qa_task_defaults qargs)).

(** [refine_image]: the task's crystal is refined in place. *)
Definition refine_image (task : refine_args) (crystals : list Crystal)
  : refine_args * list Crystal :=
  match ra_crystal task with
  | None => (task, crystals)
  | Some i =>
      match nth_error crystals i with
      | None => (task, crystals)
      | Some cr =>
          let '(cr', pd) := pr_refine cr (ra_full task) (ra_pmodel task) in
          (mkRefineArgs (ra_full task) (ra_crystal task) (ra_pmodel task) pd,
           aset crystals i cr')
      end
  end.

(** [done_image]. *)
Definition done_image (qargs : queue_args) (task : refine_args) : queue_args :=
  mkQueueArgs (qa_n_started qargs) (int_incr (qa_n_done qargs))
    (qa_crystals qargs) (qa_n_crystals qargs)
    (mkSrdata (int_wrap (sr_n_filtered (qa_srdata qargs)
                         + n_filtered (ra_prdata task))))
    (qa_task_defaults qargs).

(** [run_threads] of thread-pool.c (not among the sources) hands out [max]
    tasks with [get_image], runs [refine_image] on each in one of its
    [nthreads] workers and reports it with [done_image].  Each task touches
    its own crystal only, so the workers are modelled by running the tasks one
    after the other, whatever their number. *)
Fixpoint run_threads (nthreads : Z) (max : nat) (qargs : queue_args)
  : queue_args :=
  match max with
  | O => qargs
  | S m =>
      let '(task, q1) := get_image qargs in
      let '(task', crystals') := refine_image task (qa_crystals q1) in
      let q2 := mkQueueArgs (qa_n_started q1) (qa_n_done q1) crystals'
                  (qa_n_crystals q1) (qa_srdata q1) (qa_task_defaults q1) in
      run_threads nthreads m (done_image q2 task')
  end.

(** [refine_all]: the crystals and the report data after the stage. *)
Definition refine_all (crystals : list Crystal) (n_crystals : Z)
    (full : RefList) (nthreads : Z) (pmodel : PartialityModel)
    (sr : srdata) : list Crystal * srdata :=
  (* If the partiality model is "p=1", this refinement is really, really
     easy... *)
  if PartialityModel_eqb pmodel PMODEL_UNITY then (crystals, sr)
  else
    let task_defaults := mkRefineArgs full None pmodel (mkPrdata 0) in
    let qargs := mkQueueArgs 0 0 crystals n_crystals sr task_defaults in
    (* Don't have threads which are doing nothing *)
    let nthreads := if (n_crystals <? nthreads)%Z then n_crystals else nthreads in
    let q := run_threads nthreads (Z.to_nat n_crystals) qargs in
    (qa_crystals q, qa_srdata q).

End Refinement.

(** [select_scalable_reflections]: the flag one reflection gets. *)
Definition scalable_decision (reference : option RefList) (refl : Reflection)
  : bool :=
  let sc := true in
  (* This means the reflection was not found on the last check *)
  let sc := if (get_redundancy refl =? 0)%Z then false else sc in
  (* Don't try to scale up reflections which are hardly there *)
  let sc := if dlt (get_partiality refl) (Fin 0.05) then false else sc in
  (* With a reference set, the reflection must be in the reference list. *)
  match reference with
  | Some ref =>
      let '(h, k, l) := get_indices refl in
      match find_refl ref h k l with
      | None => false
      | Some _ => sc
      end
  | None => sc
  end.

Fixpoint select_scalable_loop (list : RefList) (reference : option RefList)
    (n_acc : Z) : RefList * Z :=
  match list with
  | [] => ([], n_acc)
  | refl :: rest =>
      let sc := scalable_decision reference refl in
      let n_acc' := if sc then int_incr n_acc else n_acc in
      let '(rest', n) := select_scalable_loop rest reference n_acc' in
      (set_scalable refl sc :: rest', n)
  end.

(** The list after the flags are set, and the returned [n_acc]. *)
Definition select_scalable_reflections (list : RefList)
    (reference : option RefList) : RefList * Z :=
  select_scalable_loop list reference 0.

(** [select_reflections_for_refinement], one reflection: [None] is the
    [abort()] of a scalable reflection that [full] does not hold. *)
Definition refinement_decision (full : RefList) (have_reference : bool)
    (refl : Reflection) : option Reflection :=
  let intensity := get_intensity refl in
  let sigma := get_esd_intensity refl in
  if dlt intensity (dmul (Fin 3) sigma) then Some (set_refinable refl false)
  else
    let '(h, k, l) := get_indices refl in
    let sc := get_scalable refl in
    if negb sc then Some (set_refinable refl false)
    else
      match find_refl full h k l with
      | Some f =>
          let r := get_redundancy f in
          if (2 <=? r)%Z || have_reference
          then Some (set_refinable refl true)
          else Some refl                      (* n_fewmatch++ *)
      | None => None                          (* ERROR(...); abort(); *)
      end.

Fixpoint select_refinement_loop (reflist : RefList) (full : RefList)
    (have_reference : bool) : option RefList :=
  match reflist with
  | [] => Some []
  | refl :: rest =>
      match refinement_decision full have_reference refl with
      | None => None
      | Some refl' =>
          match select_refinement_loop rest full have_reference with
          | None => None
          | Some rest' => Some (refl' :: rest')
          end
      end
  end.

Fixpoint select_reflections_for_refinement (crystals : list Crystal)
    (full : RefList) (have_reference : bool) : option (list Crystal) :=
  match crystals with
  | [] => Some []
  | cr :: rest =>
      match select_refinement_loop (crystal_get_reflections cr) full
              have_reference with
      | None => None
      | Some reflist' =>
          match select_reflections_for_refinement rest full have_reference with
          | None => None
          | Some rest' => Some (crystal_set_reflections cr reflist' :: rest')
          end
      end
  end.

(* ================================================================== *)
(** * fom.c *)

(** What a call does: it returns, or the program stops in it (a failed
    [assert], [abort()], a NULL pointer handed to an accessor). *)
Inductive outcome (A : Type) : Type :=
  | Returns (a : A)
  | Aborts.
Arguments Returns {A} a.
Arguments Aborts {A}.

Definition bind {A B} (m : outcome A) (f : A -> outcome B) : outcome B :=
  match m with Returns a => f a | Aborts => Aborts end.

Notation "x <- m ;; k" := (bind m (fun x => k))
  (at level 61, m at next level, right associativity).
Notation "' p <- m ;; k" := (bind m (fun p => k))
  (at level 61, p pattern, m at next level, right associativity).

Definition assert (b : bool) : outcome unit :=
  if b then Returns tt else Aborts.

(** The reflection lists live in a store and are named by pointers: two
    arguments of a call may name the same list. *)
Definition store : Type := nat -> RefList.

Definition st_set (st : store) (p : nat) (l : RefList) : store :=
  fun q => if Nat.eqb q p then l else st q.

(** Update in place of the reflection at position [i] of list [p]. *)
Definition st_upd (st : store) (p : nat) (i : nat)
    (f : Reflection -> Reflection) : store :=
  match nth_error (st p) i with
  | Some r => st_set st p (aset (st p) i (f r))
  | None => st
  end.

Definition dget (l : list double) (i : nat) : double := nth i l NaN.
Definition iget (l : list Z) (i : nat) : Z := nth i l 0%Z.
Definition vget (l : list (list double)) (i : nat) : list double := nth i l [].

Inductive fom_type : Type :=
  | FOM_R1I | FOM_R1F | FOM_R2 | FOM_RSPLIT
  | FOM_CC | FOM_CCSTAR | FOM_CCANO | FOM_CRDANO
  | FOM_RANO | FOM_RANORSPLIT | FOM_D1SIG | FOM_D2SIG.

(** [struct fom_context].  An array that [init_fom] does not allocate for
    the kind is the empty list. *)
Record fom_context : Type := mkFomContext {
  fc_fom : fom_type;
  fc_nshells : Z;
  fc_cts : list Z;
  fc_num : list double;
  fc_den : list double;
  fc_num2 : list double;
  fc_den2 : list double;
  fc_n_within : list Z;
  fc_vec1 : list (list double);
  fc_vec2 : list (list double);
  fc_n : list Z;
  fc_nmax : Z
}.

(** [struct fom_shells]. *)
Record fom_shells : Type := mkFomShells {
  nshells : Z;
  rmins : list double;
  rmaxs : list double
}.

Definition zeros (n : Z) : list double := repeat (Fin 0) (Z.to_nat n).
Definition izeros (n : Z) : list Z := repeat 0%Z (Z.to_nat n).

Definition init_fom (fom : fom_type) (nmax : Z) (nsh : Z) : fom_context :=
  let base := mkFomContext fom nsh (izeros nsh) [] [] [] [] [] [] [] [] 0 in
  let with_num (c : fom_context) :=
    mkFomContext (fc_fom c) (fc_nshells c) (fc_cts c) (zeros nsh) (zeros nsh)
      (fc_num2 c) (fc_den2 c) (fc_n_within c) (fc_vec1 c) (fc_vec2 c)
      (fc_n c) (fc_nmax c) in
  match fom with
  | FOM_RANORSPLIT =>
      with_num (mkFomContext fom nsh (izeros nsh) [] [] (zeros nsh) (zeros nsh)
                  [] [] [] [] 0)
      (* Intentional fall-through (no break) *)
  | FOM_R1I | FOM_R1F | FOM_R2 | FOM_RSPLIT | FOM_RANO => with_num base
  | FOM_CC | FOM_CCSTAR | FOM_CCANO | FOM_CRDANO =>
      mkFomContext fom nsh (izeros nsh) [] [] [] [] []
        (repeat (zeros nmax) (Z.to_nat nsh)) (repeat (zeros nmax) (Z.to_nat nsh))
        (izeros nsh) nmax
  | FOM_D1SIG | FOM_D2SIG =>
      mkFomContext fom nsh (izeros nsh) [] [] [] [] (izeros nsh) [] [] [] 0
  end.

(** [arr[bin] += v] and [arr[bin]++]. *)
Definition dbump (arr : list double) (bin : nat) (v : double) : list double :=
  aset arr bin (dadd (dget arr bin) v).
Definition ibump (arr : list Z) (bin : nat) : list Z :=
  aset arr bin (int_incr (iget arr bin)).

Definition set_cts (c : fom_context) (v : list Z) : fom_context :=
  mkFomContext (fc_fom c) (fc_nshells c) v (fc_num c) (fc_den c) (fc_num2 c)
    (fc_den2 c) (fc_n_within c) (fc_vec1 c) (fc_vec2 c) (fc_n c) (fc_nmax c).
Definition set_num_den (c : fom_context) (nu de : list double) : fom_context :=
  mkFomContext (fc_fom c) (fc_nshells c) (fc_cts c) nu de (fc_num2 c)
    (fc_den2 c) (fc_n_within c) (fc_vec1 c) (fc_vec2 c) (fc_n c) (fc_nmax c).
Definition set_num2_den2 (c : fom_context) (nu de : list double) : fom_context :=
  mkFomContext (fc_fom c) (fc_nshells c) (fc_cts c) (fc_num c) (fc_den c) nu
    de (fc_n_within c) (fc_vec1 c) (fc_vec2 c) (fc_n c) (fc_nmax c).
Definition set_n_within (c : fom_context) (v : list Z) : fom_context :=
  mkFomContext (fc_fom c) (fc_nshells c) (fc_cts c) (fc_num c) (fc_den c)
    (fc_num2 c) (fc_den2 c) v (fc_vec1 c) (fc_vec2 c) (fc_n c) (fc_nmax c).
Definition set_vecs (c : fom_context) (v1 v2 : list (list double))
    (n : list Z) : fom_context :=
  mkFomContext (fc_fom c) (fc_nshells c) (fc_cts c) (fc_num c) (fc_den c)
    (fc_num2 c) (fc_den2 c) (fc_n_within c) v1 v2 n (fc_nmax c).

(** [vec1[bin][n[bin]] = a; vec2[bin][n[bin]] = b; n[bin]++], after the
    [assert] on the room left. *)
Definition push_pair (c : fom_context) (bin : nat) (a b : double)
  : outcome fom_context :=
  _ <- assert (iget (fc_n c) bin <? fc_nmax c)%Z ;;
  let k := Z.to_nat (iget (fc_n c) bin) in
  Returns (set_vecs c
             (aset (fc_vec1 c) bin (aset (vget (fc_vec1 c) bin) k a))
             (aset (fc_vec2 c) bin (aset (vget (fc_vec2 c) bin) k b))
             (ibump (fc_n c) bin)).

Definition add_to_fom (fctx : fom_context) (i1 i2 i1bij i2bij sig1 sig2 : double)
    (bin : Z) : outcome fom_context :=
  let b := Z.to_nat bin in
  let fctx := set_cts fctx (ibump (fc_cts fctx) b) in
  (* Negative intensities have already been weeded out. *)
  let f1 := dsqrt i1 in
  let f2 := dsqrt i2 in
  let rano (c : fom_context) :=
    let im := ddiv (dadd i1 i2) (Fin 2) in
    let imbij := ddiv (dadd i1bij i2bij) (Fin 2) in
    set_num_den c (dbump (fc_num c) b (dfabs (dsub im imbij)))
                  (dbump (fc_den c) b (dadd im imbij)) in
  let sig := dsqrt (dadd (dmul sig1 sig1) (dmul sig2 sig2)) in
  match fc_fom fctx with
  | FOM_R1I =>
      Returns (set_num_den fctx (dbump (fc_num fctx) b (dfabs (dsub i1 i2)))
                                (dbump (fc_den fctx) b i1))
  | FOM_R1F =>
      Returns (set_num_den fctx (dbump (fc_num fctx) b (dfabs (dsub f1 f2)))
                                (dbump (fc_den fctx) b f1))
  | FOM_R2 =>
      Returns (set_num_den fctx (dbump (fc_num fctx) b (dpow (dsub i1 i2) 2))
                                (dbump (fc_den fctx) b (dpow i1 2)))
  | FOM_RSPLIT =>
      Returns (set_num_den fctx (dbump (fc_num fctx) b (dfabs (dsub i1 i2)))
                                (dbump (fc_den fctx) b (dadd i1 i2)))
  | FOM_CC | FOM_CCSTAR => push_pair fctx b i1 i2
  | FOM_CCANO | FOM_CRDANO => push_pair fctx b (dsub i1 i1bij) (dsub i2 i2bij)
  | FOM_RANORSPLIT =>
      (* Intentional fall-through (no break) *)
      Returns (rano (set_num2_den2 fctx
                       (dbump (fc_num2 fctx) b (dfabs (dsub i1 i2)))
                       (dbump (fc_den2 fctx) b (dadd i1 i2))))
  | FOM_RANO => Returns (rano fctx)
  | FOM_D1SIG =>
      Returns (if dlt (dfabs (dsub i1 i2)) sig
               then set_n_within fctx (ibump (fc_n_within fctx) b) else fctx)
  | FOM_D2SIG =>
      Returns (if dlt (dfabs (dsub i1 i2)) (dmul (Fin 2) sig)
               then set_n_within fctx (ibump (fc_n_within fctx) b) else fctx)
  end.

Section FomValues.

(** The GSL statistics the evaluation calls, on the first [n] cells of its
    arrays (stride 1): [gsl_stats_correlation data1 data2] and
    [gsl_stats_variance_m data mean]. *)
Variable gsl_stats_correlation : list double -> list double -> double.
Variable gsl_stats_variance_m : list double -> double -> double.

Definition shell_indices (fctx : fom_context) : list nat :=
  seq 0 (Z.to_nat (fc_nshells fctx)).

(** [for (i...) { overall_num += num[i]; overall_den += den[i]; }] *)
Definition accumulate_num_den (nu de : list double) (idx : list nat)
  : double * double :=
  fold_left (fun acc i => (dadd (fst acc) (dget nu i), dadd (snd acc) (dget de i)))
    idx (Fin 0, Fin 0).

(** [for (i...) for (j<n[i]) { overall_vec[overall_n++] = f(i,j); }] *)
Definition pool_shells (n : list Z) (f : nat -> nat -> double) (idx : list nat)
  : list double :=
  fold_left
    (fun acc i =>
       fold_left (fun acc' j => acc' ++ [f i j]) (seq 0 (Z.to_nat (iget n i))) acc)
    idx [].

Definition fom_overall (fctx : fom_context) : double :=
  let idx := shell_indices fctx in
  let nd := accumulate_num_den (fc_num fctx) (fc_den fctx) idx in
  let nd2 := accumulate_num_den (fc_num2 fctx) (fc_den2 fctx) idx in
  let v1 := fun i j => dget (vget (fc_vec1 fctx) i) j in
  let v2 := fun i j => dget (vget (fc_vec2 fctx) i) j in
  match fc_fom fctx with
  | FOM_R1I | FOM_R1F => ddiv (fst nd) (snd nd)
  | FOM_R2 => dsqrt (ddiv (fst nd) (snd nd))
  | FOM_RSPLIT => ddiv (dmul (Fin 2) (ddiv (fst nd) (snd nd))) (dsqrt (Fin 2))
  | FOM_CC | FOM_CCANO =>
      gsl_stats_correlation (pool_shells (fc_n fctx) v1 idx)
                            (pool_shells (fc_n fctx) v2 idx)
  | FOM_CRDANO =>
      let along := pool_shells (fc_n fctx)
                     (fun i j => ddiv (dadd (v1 i j) (v2 i j)) (dsqrt (Fin 2))) idx in
      let perpend := pool_shells (fc_n fctx)
                     (fun i j => ddiv (dsub (v1 i j) (v2 i j)) (dsqrt (Fin 2))) idx in
      dsqrt (ddiv (gsl_stats_variance_m along (Fin 0))
                  (gsl_stats_variance_m perpend (Fin 0)))
  | FOM_CCSTAR =>
      let cc := gsl_stats_correlation (pool_shells (fc_n fctx) v1 idx)
                                      (pool_shells (fc_n fctx) v2 idx) in
      dsqrt (ddiv (dmul (Fin 2) cc) (dadd (Fin 1) cc))
  | FOM_RANO => dmul (Fin 2) (ddiv (fst nd) (snd nd))
  | FOM_RANORSPLIT =>
      ddiv (dmul (Fin 2) (ddiv (fst nd) (snd nd)))
           (ddiv (dmul (Fin 2) (ddiv (fst nd2) (snd nd2))) (dsqrt (Fin 2)))
  | FOM_D1SIG | FOM_D2SIG =>
      let cnt := accumulate_num_den (map d_of_int (fc_n_within fctx))
                   (map d_of_int (fc_cts fctx)) idx in
      ddiv (fst cnt) (snd cnt)
  end.

Definition fom_shell (fctx : fom_context) (i : Z) : double :=
  let i := Z.to_nat i in
  let nu := dget (fc_num fctx) i in
  let de := dget (fc_den fctx) i in
  let n := Z.to_nat (iget (fc_n fctx) i) in
  let v1 := firstn n (vget (fc_vec1 fctx) i) in
  let v2 := firstn n (vget (fc_vec2 fctx) i) in
  match fc_fom fctx with
  | FOM_R1I | FOM_R1F => ddiv nu de
  | FOM_R2 => dsqrt (ddiv nu de)
  | FOM_RSPLIT => ddiv (dmul (Fin 2) (ddiv nu de)) (dsqrt (Fin 2))
  | FOM_CC | FOM_CCANO => gsl_stats_correlation v1 v2
  | FOM_CCSTAR =>
      let cc := gsl_stats_correlation v1 v2 in
      dsqrt (ddiv (dmul (Fin 2) cc) (dadd (Fin 1) cc))
  | FOM_RANO => ddiv (dmul (Fin 2) nu) de
  | FOM_RANORSPLIT =>
      ddiv (ddiv (dmul (Fin 2) nu) de)
           (ddiv (dmul (Fin 2) (ddiv (dget (fc_num2 fctx) i) (dget (fc_den2 fctx) i)))
                 (dsqrt (Fin 2)))
  | FOM_CRDANO =>
      let along := map (fun p => ddiv (dadd (fst p) (snd p)) (dsqrt (Fin 2)))
                     (combine v1 v2) in
      let perpend := map (fun p => ddiv (dsub (fst p) (snd p)) (dsqrt (Fin 2)))
                     (combine v1 v2) in
      dsqrt (ddiv (gsl_stats_variance_m along (Fin 0))
                  (gsl_stats_variance_m perpend (Fin 0)))
  | FOM_D1SIG | FOM_D2SIG =>
      ddiv (d_of_int (iget (fc_n_within fctx) i)) (d_of_int (iget (fc_cts fctx) i))
  end.

End FomValues.

(** The loop of [fom_make_resolution_shells], from shell [i] on. *)
Fixpoint shells_loop (steps : nat) (i : nat) (vol_per_shell : double)
    (mins maxs : list double) : list double * list double :=
  match steps with
  | O => (mins, maxs)
  | S steps' =>
      let r := dadd vol_per_shell (dpow (dget mins (i - 1)) 3) in
      let r := dpow r (1 / 3) in
      (* Shells of constant volume *)
      shells_loop steps' (S i) vol_per_shell (aset mins i r) (aset maxs (i - 1) r)
  end.

Definition fom_make_resolution_shells (rmin rmax : double) (nsh : Z)
  : fom_shells :=
  let n := Z.to_nat nsh in
  let mins := repeat NaN n in         (* malloc: cells not written yet *)
  let maxs := repeat NaN n in
  let total_vol := dsub (dpow rmax 3) (dpow rmin 3) in
  let vol_per_shell := ddiv total_vol (d_of_int nsh) in
  let mins := aset mins 0 rmin in
  let '(mins, maxs) := shells_loop (n - 1) 1 vol_per_shell mins maxs in
  let maxs := aset maxs (Z.to_nat (nsh - 1)) rmax in
  mkFomShells nsh mins maxs.

Definition fom_shell_label (s : fom_shells) (i : Z) : double :=
  let i := Z.to_nat i in
  dadd (dget (rmins s) i)
       (ddiv (dsub (dget (rmaxs s) i) (dget (rmins s) i)) (Fin 2)).

(** The search loop of [get_bin], from shell [j] on; -1 when no shell
    holds [d]. *)
Fixpoint bin_search (s : fom_shells) (d : double) (j : nat) (steps : nat) : Z :=
  match steps with
  | O => (-1)%Z
  | S steps' =>
      if dgt d (dget (rmins s) j) && dle d (dget (rmaxs s) j)
      then Z.of_nat j
      else bin_search s d (S j) steps'
  end.

Section FomCalculate.

(** [resolution] of cell-utils.c and [find_equiv_in_list] of symmetry.c (not
    among the sources), and GSL's [gsl_fit_linear x y], which gives its
    status and the coefficients c0 and c1. *)
Variable resolution : UnitCell -> Z -> Z -> Z -> double.
Variable find_equiv_in_list :
  RefList -> Z -> Z -> Z -> SymOpList -> option (Z * Z * Z).
Variable gsl_fit_linear : list double -> list double -> Z * double * double.

(** The doubled resolution that [get_bin] compares with the shells. *)
Definition doubled_resolution (refl : Reflection) (cell : UnitCell) : double :=
  let '(h, k, l) := get_indices refl in
  dmul (Fin 2) (resolution cell h k l).

Definition get_bin (s : fom_shells) (refl : Reflection) (cell : UnitCell)
  : outcome Z :=
  let d := doubled_resolution refl cell in
  let bin := bin_search s d 0 (Z.to_nat (nshells s)) in
  (* Allow for slight rounding errors *)
  let bin := if (bin =? -1)%Z && dle d (dget (rmins s) 0) then 0%Z else bin in
  let bin := if (bin =? -1)%Z && dge d (dget (rmaxs s) (Z.to_nat (nshells s - 1)))
             then 0%Z else bin in
  _ <- assert (negb (bin =? -1)%Z) ;;
  Returns bin.

(** First loop of [wilson_scale]: the points (x, y) of the fit. *)
Fixpoint wilson_points (l1 list2 : RefList) (cell : UnitCell)
    (x y : list double) : outcome (list double * list double) :=
  match l1 with
  | [] => Returns (x, y)
  | refl1 :: rest =>
      let '(h, k, l) := get_indices refl1 in
      let res := resolution cell h k l in
      match find_refl list2 h k l with
      | None => Aborts                        (* assert(refl2 != NULL) *)
      | Some refl2 =>
          let Ih1 := get_intensity refl1 in
          let Ih2 := get_intensity refl2 in
          if dle Ih1 (Fin 0) || dle Ih2 (Fin 0) then wilson_points rest list2 cell x y
          else if isnan Ih1 || isinf Ih1 then wilson_points rest list2 cell x y
          else if isnan Ih2 || isinf Ih2 then wilson_points rest list2 cell x y
          else wilson_points rest list2 cell
                 (x ++ [dmul res res]) (y ++ [dlog (ddiv Ih1 Ih2)])
      end
  end.

(** Second loop of [wilson_scale]: the scaling of one reflection. *)
Definition wilson_apply (G B : double) (cell : UnitCell) (refl2 : Reflection)
  : Reflection :=
  let '(h, k, l) := get_indices refl2 in
  let res := resolution cell h k l in
  let corr := dmul G (dexp (dmul (dmul (dmul (Fin 2) B) res) res)) in
  let refl2 := set_intensity refl2 (dmul (get_intensity refl2) corr) in
  set_esd_intensity refl2 (dmul (get_esd_intensity refl2) corr).

(** [wilson_scale]: the returned status and the store it leaves. *)
Definition wilson_scale (st : store) (list1 list2 : nat) (cell : UnitCell)
  : outcome (Z * store) :=
  ' (x, y) <- wilson_points (st list1) (st list2) cell [] [] ;;
  let n := length x in
  if (n <? 2)%nat then Returns (1%Z, st)    (* Not enough reflections *)
  else
    let '(r, c0, c1) := gsl_fit_linear x y in
    if negb (r =? 0)%Z then Returns (1%Z, st)    (* Scaling failed. *)
    else
      let G := dexp c0 in
      let B := ddiv c1 (Fin 2) in
      (* Apply the scaling factor *)
      Returns (0%Z, st_set st list2 (map (wilson_apply G B cell) (st list2))).

Definition is_anomalous (fom : fom_type) : bool :=
  match fom with
  | FOM_CCANO | FOM_CRDANO | FOM_RANO | FOM_RANORSPLIT => true
  | _ => false
  end.

(** [fom_calculate], the loop that clears the flags, at reflection [i] of
    list 1. *)
Definition clear_flags_step (list1 list2 : nat) (st : store) (i : nat)
  : outcome store :=
  match nth_error (st list1) i with
  | None => Returns st
  | Some refl1 =>
      let st := st_upd st list1 i (fun r => set_flag r false) in
      let '(h, k, l) := get_indices refl1 in
      match find_refl_idx (st list2) h k l with
      | None => Aborts                        (* assert(refl2 != NULL) *)
      | Some i2 => Returns (st_upd st list2 i2 (fun r => set_flag r false))
      end
  end.

Fixpoint run_loop {S} (step : S -> nat -> outcome S) (idx : list nat) (s : S)
  : outcome S :=
  match idx with
  | [] => Returns s
  | i :: rest => s' <- step s i ;; run_loop step rest s'
  end.

(** The Bijvoet partner of (h,k,l) in the list [p], as a position in it. *)
Definition bijvoet_partner (st : store) (p : nat) (h k l : Z) (sym : SymOpList)
  : option nat :=
  match find_equiv_in_list (st p) (int_wrap (- h)) (int_wrap (- k))
          (int_wrap (- l)) sym with
  | Some (hb, kb, lb) => find_refl_idx (st p) hb kb lb
  | None => None
  end.

(** State of the accumulation loop: the store, the context, [n_out]. *)
Definition acc_state : Type := store * fom_context * Z.

Definition accumulate_step (list1 list2 : nat) (cell : UnitCell)
    (shells : fom_shells) (fom : fom_type) (sym : SymOpList)
    (s : acc_state) (i : nat) : outcome acc_state :=
  let '(st, fctx, n_out) := s in
  match nth_error (st list1) i with
  | None => Returns s
  | Some refl1 =>
      let '(h, k, l) := get_indices refl1 in
      match find_refl_idx (st list2) h k l with
      | None => Returns s                     (* continue *)
      | Some i2 =>
          match nth_error (st list2) i2 with
          | None => Returns s
          | Some refl2 =>
              bin <- get_bin shells refl1 cell ;;
              if (bin =? -1)%Z then Returns (st, fctx, int_incr n_out)
              else
                let i1 := get_intensity refl1 in
                let i2v := get_intensity refl2 in
                let sig1 := get_esd_intensity refl1 in
                let sig2 := get_esd_intensity refl2 in
                if is_anomalous fom then
                  let refl1_bij := bijvoet_partner st list1 h k l sym in
                  let refl2_bij := bijvoet_partner st list2 h k l sym in
                  (* Each reflection must only be counted once *)
                  if get_flag refl1 then Returns s
                  else
                    _ <- assert (negb (get_flag refl2)) ;;
                    let st := st_upd st list1 i (fun r => set_flag r true) in
                    match refl1_bij, refl2_bij with
                    | Some b1, Some b2 =>
                        let st := st_upd st list1 b1 (fun r => set_flag r true) in
                        let st := st_upd st list2 i2 (fun r => set_flag r true) in
                        let st := st_upd st list2 b2 (fun r => set_flag r true) in
                        match nth_error (st list1) b1, nth_error (st list2) b2 with
                        | Some r1b, Some r2b =>
                            fctx' <- add_to_fom fctx i1 i2v (get_intensity r1b)
                                       (get_intensity r2b) sig1 sig2 bin ;;
                            Returns (st, fctx', n_out)
                        | _, _ => Aborts
                        end
                    | _, _ => Aborts            (* set_flag(NULL, 1) *)
                    end
                else
                  (* Make it obvious if these get used by mistake *)
                  fctx' <- add_to_fom fctx i1 i2v (Inf false) (Inf false)
                             sig1 sig2 bin ;;
                  Returns (st, fctx', n_out)
          end
      end
  end.

(** [fom_calculate]: the store it leaves, the context it returns (NULL is
    [None]) and the count [n_out] of its warning. *)
Definition fom_calculate (st : store) (list1 list2 : nat) (cell : UnitCell)
    (shells : fom_shells) (fom : fom_type) (noscale : bool) (sym : SymOpList)
  : outcome (store * option fom_context * Z) :=
  let fctx := init_fom fom (num_reflections (st list1)) (nshells shells) in
  ' (failed, st) <-
      (if noscale then Returns (false, st)
       else ' (r, st') <- wilson_scale st list1 list2 cell ;;
            Returns (negb (r =? 0)%Z, st')) ;;
  if (failed : bool) then Returns (st, None, 0%Z)     (* Error with scaling. *)
  else
    let idx := seq 0 (length (st list1)) in
    st <- run_loop (clear_flags_step list1 list2) idx st ;;
    ' (st, fctx, n_out) <-
        run_loop (accumulate_step list1 list2 cell shells fom sym) idx
          (st, fctx, 0%Z) ;;
    Returns (st, Some fctx, n_out).

End FomCalculate.

(* ================================================================== *)
(** * The specification's wording, to compare the code with *)

Section OverallBySpec.

Variable gsl_stats_correlation : list double -> list double -> double.
Variable gsl_stats_variance_m : list double -> double -> double.

(** "Accumulate numerators/denominators across all shells": the sum of an
    array's cells over the shells. *)
Definition shell_total (arr : list double) (nsh : Z) : double :=
  dsum (map (dget arr) (seq 0 (Z.to_nat nsh))).

(** The values one shell has collected, and those of all shells together. *)
Definition shell_values (n : list Z) (f : nat -> nat -> double) (i : nat)
  : list double :=
  map (f i) (seq 0 (Z.to_nat (iget n i))).

Definition all_shell_values (n : list Z) (f : nat -> nat -> double) (nsh : Z)
  : list double :=
  flat_map (shell_values n f) (seq 0 (Z.to_nat nsh)).

(** "... before taking the ratio/root": the overall value from the totals
    (for the correlation kinds, from the values of all shells together). *)
Definition overall_from_totals (fctx : fom_context) : double :=
  let nsh := fc_nshells fctx in
  let N := shell_total (fc_num fctx) nsh in
  let D := shell_total (fc_den fctx) nsh in
  let N2 := shell_total (fc_num2 fctx) nsh in
  let D2 := shell_total (fc_den2 fctx) nsh in
  let v1 := fun i j => dget (vget (fc_vec1 fctx) i) j in
  let v2 := fun i j => dget (vget (fc_vec2 fctx) i) j in
  let cc := gsl_stats_correlation (all_shell_values (fc_n fctx) v1 nsh)
                                  (all_shell_values (fc_n fctx) v2 nsh) in
  match fc_fom fctx with
  | FOM_R1I | FOM_R1F => ddiv N D
  | FOM_R2 => dsqrt (ddiv N D)
  | FOM_RSPLIT => ddiv (dmul (Fin 2) (ddiv N D)) (dsqrt (Fin 2))
  | FOM_RANO => dmul (Fin 2) (ddiv N D)
  | FOM_RANORSPLIT =>
      ddiv (dmul (Fin 2) (ddiv N D))
           (ddiv (dmul (Fin 2) (ddiv N2 D2)) (dsqrt (Fin 2)))
  | FOM_D1SIG | FOM_D2SIG =>
      ddiv (shell_total (map d_of_int (fc_n_within fctx)) nsh)
           (shell_total (map d_of_int (fc_cts fctx)) nsh)
  | FOM_CC | FOM_CCANO => cc
  | FOM_CCSTAR => dsqrt (ddiv (dmul (Fin 2) cc) (dadd (Fin 1) cc))
  | FOM_CRDANO =>
      dsqrt (ddiv
        (gsl_stats_variance_m
           (all_shell_values (fc_n fctx)
              (fun i j => ddiv (dadd (v1 i j) (v2 i j)) (dsqrt (Fin 2))) nsh) (Fin 0))
        (gsl_stats_variance_m
           (all_shell_values (fc_n fctx)
              (fun i j => ddiv (dsub (v1 i j) (v2 i j)) (dsqrt (Fin 2))) nsh) (Fin 0)))
  end.

(** What the overall value is not: the mean of the per-shell values. *)
Definition mean_of_shells (fctx : fom_context) : double :=
  ddiv (dsum (map (fun i => fom_shell gsl_stats_correlation gsl_stats_variance_m
                              fctx (Z.of_nat i))
                  (seq 0 (Z.to_nat (fc_nshells fctx)))))
       (d_of_int (fc_nshells fctx)).

End OverallBySpec.

(** The real cube root of a number that is not negative. *)
Definition cube_root (t : R) : R := if Rltb 0 t then Rpower t (1 / 3) else 0.

(** "If v = (d*_max^3 - d*_min^3)/N, then shell i occupies
    [ (d*_min^3 + i v)^(1/3), (d*_min^3 + (i+1) v)^(1/3) ]": bound number
    [i] of the shells, which shell [i] has below it and shell [i-1] above. *)
Definition shell_volume (rmin rmax : R) (nsh : Z) : R :=
  (rmax ^ 3 - rmin ^ 3) / IZR nsh.

Definition shell_bound (rmin rmax : R) (nsh : Z) (i : nat) : R :=
  cube_root (rmin ^ 3 + INR i * shell_volume rmin rmax nsh).

(** Shells that adjoin: with bounds b_0, b_1, ..., b_n (all numbers), shell
    [j] has [b_j] below it and [b_(j+1)] above it, and there is a shell. *)
Definition shells_adjoin (s : fom_shells) (b : nat -> R) : Prop :=
  (1 <= nshells s)%Z /\
  forall j, (j < Z.to_nat (nshells s))%nat ->
    dget (rmins s) j = Fin (b j) /\ dget (rmaxs s) j = Fin (b (S j)).

(** The bounds grow: every shell has a width. *)
Definition bounds_increase (b : nat -> R) (n : nat) : Prop :=
  forall j, (j < n)%nat -> b j < b (S j).

Section WilsonBySpec.

Variable resolution : UnitCell -> Z -> Z -> Z -> double.

(** "Common reflections with positive intensities": the pairs of a
    reflection of list 1 with the reflection of the same (h,k,l) in list 2,
    and those of them whose two intensities are positive finite numbers. *)
Definition positive_finite (I : double) : bool :=
  match I with Fin a => Rltb 0 a | _ => false end.

Definition common_pairs (list1 list2 : RefList) : list (Reflection * Reflection) :=
  flat_map
    (fun refl1 =>
       match find_refl list2 (get_h refl1) (get_k refl1) (get_l refl1) with
       | Some refl2 => [(refl1, refl2)]
       | None => []
       end)
    list1.

Definition usable_pairs (list1 list2 : RefList) : list (Reflection * Reflection) :=
  filter (fun p => positive_finite (get_intensity (fst p))
                   && positive_finite (get_intensity (snd p)))
         (common_pairs list1 list2).

(** "Fit log(I1/I2) against (d* )^2": the abscissae and ordinates. *)
Definition fit_x (cell : UnitCell) (pairs : list (Reflection * Reflection))
  : list double :=
  map (fun p =>
         let res := resolution cell (get_h (fst p)) (get_k (fst p)) (get_l (fst p)) in
         dmul res res)
      pairs.

Definition fit_y (pairs : list (Reflection * Reflection)) : list double :=
  map (fun p => dlog (ddiv (get_intensity (fst p)) (get_intensity (snd p)))) pairs.

(** "Apply scale G exp(2B d*^2)": the factor for a reflection. *)
Definition wilson_factor (G B : double) (cell : UnitCell) (refl : Reflection)
  : double :=
  let res := resolution cell (get_h refl) (get_k refl) (get_l refl) in
  dmul G (dexp (dmul (dmul (dmul (Fin 2) B) res) res)).

End WilsonBySpec.

Section RsplitBySpec.

Variable resolution : UnitCell -> Z -> Z -> Z -> double.

(** The pairs that the code accumulates for shell [i]: the intensities
    (I1, I2) of the common pairs that [get_bin] puts in shell [i].  (The
    reflections that lie in the shell by its bounds are [within_shell]
    below.) *)
Definition in_shell (shells : fom_shells) (cell : UnitCell) (i : Z)
    (refl1 : Reflection) : bool :=
  match get_bin resolution shells refl1 cell with
  | Returns bin => (bin =? i)%Z
  | Aborts => false
  end.

Definition shell_pairs (list1 list2 : RefList) (shells : fom_shells)
    (cell : UnitCell) (i : Z) : list (double * double) :=
  map (fun p => (get_intensity (fst p), get_intensity (snd p)))
      (filter (fun p => in_shell shells cell i (fst p)) (common_pairs list1 list2)).

Definition pair_absdiff (p : double * double) : double := dfabs (dsub (fst p) (snd p)).
Definition pair_sum (p : double * double) : double := dadd (fst p) (snd p).

(** "(2/sqrt 2) Sum|I1-I2| / Sum(I1+I2)". *)
Definition rsplit_formula (pairs : list (double * double)) : double :=
  ddiv (dmul (ddiv (Fin 2) (dsqrt (Fin 2))) (dsum (map pair_absdiff pairs)))
       (dsum (map pair_sum pairs)).

(** The same with the sums taken shell by shell and added up. *)
Definition rsplit_overall_formula (list1 list2 : RefList) (shells : fom_shells)
    (cell : UnitCell) : double :=
  let per_shell (f : double * double -> double) :=
    dsum (map (fun i => dsum (map f (shell_pairs list1 list2 shells cell (Z.of_nat i))))
              (seq 0 (Z.to_nat (nshells shells)))) in
  ddiv (dmul (ddiv (Fin 2) (dsqrt (Fin 2))) (per_shell pair_absdiff))
       (per_shell pair_sum).

End RsplitBySpec.

Section RsplitByBounds.

Variable resolution : UnitCell -> Z -> Z -> Z -> double.

(** "Sums are over reflections in the shell present in both lists": a
    reflection is in shell [i] when its doubled resolution lies above the
    lower bound of the shell and not above its upper bound. *)
Definition within_shell (shells : fom_shells) (cell : UnitCell) (i : Z)
    (refl1 : Reflection) : bool :=
  let d := doubled_resolution resolution refl1 cell in
  dgt d (dget (rmins shells) (Z.to_nat i))
  && dle d (dget (rmaxs shells) (Z.to_nat i)).

(** A reflection outside the range of the shells: not above the lowest
    bound, or above the highest. *)
Definition outside_shells (shells : fom_shells) (cell : UnitCell)
    (refl1 : Reflection) : bool :=
  let d := doubled_resolution resolution refl1 cell in
  dle d (dget (rmins shells) 0)
  || dgt d (dget (rmaxs shells) (Z.to_nat (nshells shells - 1))).

(** The reflections summed for shell [i]: those in the shell, and for
    shell 0 also those outside the range of the shells. *)
Definition counted_in_shell (shells : fom_shells) (cell : UnitCell) (i : Z)
    (refl1 : Reflection) : bool :=
  within_shell shells cell i refl1
  || ((i =? 0)%Z && outside_shells shells cell refl1).

Definition bounded_shell_pairs (list1 list2 : RefList) (shells : fom_shells)
    (cell : UnitCell) (i : Z) : list (double * double) :=
  map (fun p => (get_intensity (fst p), get_intensity (snd p)))
      (filter (fun p => counted_in_shell shells cell i (fst p))
         (common_pairs list1 list2)).

(** "(2/sqrt 2) Sum|I1-I2| / Sum(I1+I2)" with the sums taken shell by shell
    and added up. *)
Definition rsplit_overall_by_bounds (list1 list2 : RefList)
    (shells : fom_shells) (cell : UnitCell) : double :=
  let per_shell (f : double * double -> double) :=
    dsum (map (fun i =>
                 dsum (map f (bounded_shell_pairs list1 list2 shells cell
                                (Z.of_nat i))))
              (seq 0 (Z.to_nat (nshells shells)))) in
  ddiv (dmul (ddiv (Fin 2) (dsqrt (Fin 2))) (per_shell pair_absdiff))
       (per_shell pair_sum).

End RsplitByBounds.

(** The reflections a loop over the positions [idx] of a list visits. *)
Definition visited (rl : RefList) (idx : list nat) : RefList :=
  flat_map (fun i => match nth_error rl i with Some r => [r] | None => [] end) idx.

(** What two copies of a list share: keys and intensities, in order. *)
Definition payload (r : Reflection) : Z * Z * Z * double :=
  (get_indices r, get_intensity r).

(* ================================================================== *)
(** * Sample data *)

(** A reflection (h,0,0) with intensity [i], sigma [s], partiality [p],
    redundancy [red] and the flags [sc] (scalable) and [rf] (refinable). *)
Definition sample_refl (h : Z) (i s p : R) (red : Z) (sc rf : bool) : Reflection :=
  mkReflection h 0 0 (Fin i) (Fin s) (Fin p) red sc rf false.

Definition sample_cell : UnitCell :=
  mkUnitCell (Fin 1, Fin 0, Fin 0) (Fin 0, Fin 1, Fin 0) (Fin 0, Fin 0, Fin 1).

Definition sample_crystal (rl : RefList) : Crystal :=
  mkCrystal rl (Fin 1) sample_cell (Fin 0) (Fin 0) 0.

Definition sample_list : RefList :=
  [sample_refl 1 100 1 0.5 2 false false;
   sample_refl 2 50 1 0.01 1 false false;
   sample_refl 3 70 1 1 0 true false;
   sample_refl 4 70 1 0.05 1 false false].

Definition sample_reference : RefList :=
  [sample_refl 1 90 1 1 5 false false; sample_refl 4 90 1 1 5 false false].

(** A strong, scalable reflection that an earlier cycle flagged refinable,
    and a merged list that now holds its (h,k,l) from one part only. *)
Definition stale_refl : Reflection := sample_refl 1 100 1 1 1 true true.
Definition stale_full : RefList := [sample_refl 1 100 1 1 1 false false].

(** Two shells of an R1I context: numerators 1 and 1, denominators 1 and 3. *)
Definition sample_r1i_context : fom_context :=
  mkFomContext FOM_R1I 2 [1%Z; 1%Z] [Fin 1; Fin 1] [Fin 1; Fin 3] [] [] [] [] [] [] 0.

(** Two shells, (0,2] and (2,4], and a resolution function that gives
    (h,k,l) the resolution h, so that [get_bin] compares 2h with the shells. *)
Definition sample_shells : fom_shells :=
  mkFomShells 2 [Fin 0; Fin 2] [Fin 2; Fin 4].

Definition sample_bounds (j : nat) : R :=
  match j with O => 0 | S O => 2 | _ => 4 end.

Definition sample_resolution (cell : UnitCell) (h k l : Z) : double :=
  Fin (IZR h).

(** Two lists with the same two reflections, (1,0,0) and (2,0,0), held at
    the pointers 0 and 1 of a store; a fit that always succeeds with
    c0 = c1 = 0, and one that always fails. *)
Definition sample_pair_list : RefList :=
  [sample_refl 1 100 1 1 1 false false; sample_refl 2 50 1 1 1 false false].

Definition sample_store : store :=
  fun p => match p with
           | O => sample_pair_list
           | S O => sample_pair_list
           | _ => []
           end.

Definition sample_fit (x y : list double) : Z * double * double :=
  (0%Z, Fin 0, Fin 0).

Definition sample_failing_fit (x y : list double) : Z * double * double :=
  (1%Z, Fin 0, Fin 0).

Definition sample_find_equiv (list : RefList) (h k l : Z) (sym : SymOpList)
  : option (Z * Z * Z) := None.

(** Two copies of a list with the single reflection (1,0,0), at the
    pointers 0 and 1; stand-ins for the GSL statistics, which Rsplit does not
    call. *)
Definition single_store : store :=
  fun p => match p with
           | O => [sample_refl 1 100 1 1 1 false false]
           | S O => [sample_refl 1 100 1 1 1 false false]
           | _ => []
           end.

Definition sample_correlation (data1 data2 : list double) : double := NaN.
Definition sample_variance (data : list double) (mean : double) : double := NaN.

(** A stand-in for [pr_refine] that doubles the scale factor and filters
    one reflection. *)
Definition sample_pr_refine (cr : Crystal) (full : RefList)
    (pmodel : PartialityModel) : Crystal * prdata :=
  (mkCrystal (crystal_get_reflections cr) (dmul (Fin 2) (crystal_get_osf cr))
     (crystal_get_cell cr) (crystal_get_profile_radius cr)
     (crystal_get_mosaicity cr) (crystal_get_user_flag cr),
   mkPrdata 1).

(** A resolution function for a degenerate cell: not a number. *)
Definition nan_resolution (cell : UnitCell) (h k l : Z) : double := NaN.

(* ================================================================== *)
(** * partialator.c: the iteration of [main] *)

(** [str_flags]: the mark of a crystal in the parameter dump. *)
Definition str_flags (cr : Crystal) : string :=
  if (crystal_get_user_flag cr =? 0)%Z then "-"%string else "N"%string.

(** The counters of one cycle of [main]. *)
Record cycle_counts : Type := mkCycleCounts {
  cc_n_noref : Z;
  cc_n_solve : Z;
  cc_n_lost : Z;
  cc_n_dud : Z;
  cc_nobs : Z
}.

(** The loop over the crystals that follows [refine_all] in [main]: the user
    flags are counted and the scalable reflections selected again. *)
Fixpoint count_crystals (crystals : list Crystal) (reference : option RefList)
    (c : cycle_counts) : list Crystal * cycle_counts :=
  match crystals with
  | [] => ([], c)
  | cr :: rest =>
      let rf := crystal_get_reflections cr in
      let flag := crystal_get_user_flag cr in
      let n_dud := if (flag =? 0)%Z then cc_n_dud c else int_incr (cc_n_dud c) in
      let n_noref := if (flag =? 1)%Z then int_incr (cc_n_noref c)
                     else cc_n_noref c in
      let n_solve := if (flag =? 1)%Z then cc_n_solve c
                     else if (flag =? 2)%Z then int_incr (cc_n_solve c)
                     else cc_n_solve c in
      let n_lost := if (flag =? 1)%Z then cc_n_lost c
                    else if (flag =? 2)%Z then cc_n_lost c
                    else if (flag =? 3)%Z then int_incr (cc_n_lost c)
                    else cc_n_lost c in
      let '(rf', n) := select_scalable_reflections rf reference in
      let c' := mkCycleCounts n_noref n_solve n_lost n_dud
                  (int_wrap (cc_nobs c + n)) in
      let '(rest', c'') := count_crystals rest reference c' in
      (crystal_set_reflections cr rf' :: rest', c'')
  end.

Section Cycle.

Variable pr_refine : Crystal -> RefList -> PartialityModel -> Crystal * prdata.

(** One pass of the loop "Iterate" of [main], up to the re-estimation of the
    full intensities: [None] is the [abort()] of the selection. *)
Definition post_refinement_cycle (crystals : list Crystal) (n_crystals : Z)
    (full : RefList) (reference : option RefList) (have_reference : bool)
    (nthreads : Z) (pmodel : PartialityModel)
  : option (list Crystal * srdata * cycle_counts) :=
  let sr := mkSrdata 0 in
  (* Refine the geometry of all patterns to get the best fit *)
  let comp := match reference with None => full | Some r => r end in
  match select_reflections_for_refinement crystals comp have_reference with
  | None => None
  | Some crystals1 =>
      let '(crystals2, sr') :=
        refine_all pr_refine crystals1 n_crystals comp nthreads pmodel sr in
      let '(crystals3, c) :=
        count_crystals crystals2 reference (mkCycleCounts 0 0 0 0 0) in
      Some (crystals3, sr', c)
  end.

End Cycle.

(** The state in which [main] hands the crystals from one cycle to the next
    when a reference list is given: every scalable flag is the one
    [select_scalable_reflections] sets against the reference. *)
Definition prepared (reference : RefList) (crystals : list Crystal) : Prop :=
  Forall (fun cr =>
            Forall (fun r => get_scalable r
                             = scalable_decision (Some reference) r)
              (crystal_get_reflections cr))
    crystals.

(** What [refine_all] does to the crystals with a model other than unity,
    in the words of its loop: each crystal is refined against [full], and
    the numbers of filtered reflections are added up. *)
Definition refined_crystals
    (pr_refine : Crystal -> RefList -> PartialityModel -> Crystal * prdata)
    (full : RefList) (pmodel : PartialityModel) (crystals : list Crystal)
  : list Crystal :=
  map (fun cr => fst (pr_refine cr full pmodel)) crystals.

Definition filtered_total
    (pr_refine : Crystal -> RefList -> PartialityModel -> Crystal * prdata)
    (full : RefList) (pmodel : PartialityModel) (crystals : list Crystal)
    (n0 : Z) : Z :=
  fold_left (fun acc cr =>
               int_wrap (acc + n_filtered (snd (pr_refine cr full pmodel))))
    crystals n0.

(** Crystals with the user flags 0 to 3 and 7. *)
Definition flagged_crystal (flag : Z) : Crystal :=
  mkCrystal sample_list (Fin 1) sample_cell (Fin 0) (Fin 0) flag.

Definition flagged_crystals : list Crystal :=
  map flagged_crystal [0; 1; 2; 3; 7; 1]%Z.

(** Two crystals whose lists went through [select_scalable_reflections]
    against [sample_reference]. *)
Definition prepared_crystals : list Crystal :=
  [sample_crystal (fst (select_scalable_reflections sample_list
                          (Some sample_reference)));
   sample_crystal (fst (select_scalable_reflections sample_reference
                          (Some sample_reference)))].

(* ================================================================== *)
(** * fom.c: the selection of the reflections to compare *)

(** Modelled from the spec: [add_refl] of reflist.c (not among the
    sources) always inserts a new entry for (h,k,l) and gives its handle,
    here the position of the entry.  [fom_select_reflections] adds the
    entries in the order in which it reads them from a list, which is the
    order of the tree key, so the new entry goes to the end.  [copy_data]
    gives a reflection every data field of another one; the indices, which
    are the key, stay. *)
Definition new_refl (h k l : Z) : Reflection :=
  mkReflection h k l (Fin 0) (Fin 0) (Fin 0) 0 false false false.

Definition add_refl (st : store) (list : nat) (h k l : Z) : nat * store :=
  (length (st list), st_set st list (st list ++ [new_refl h k l])).

Definition copy_data (to from : Reflection) : Reflection :=
  mkReflection (get_h to) (get_k to) (get_l to) (get_intensity from)
    (get_esd_intensity from) (get_partiality from) (get_redundancy from)
    (get_scalable from) (get_refinable from) (get_flag from).

(** The lists that exist, and the next pointer [reflist_new] gives out. *)
Record heap : Type := mkHeap {
  h_lists : store;
  h_next : nat
}.

Definition reflist_new (hp : heap) : nat * heap :=
  (h_next hp, mkHeap (st_set (h_lists hp) (h_next hp) []) (S (h_next hp))).

(** The counters of [fom_select_reflections]; it returns [ncom]. *)
Record select_counts : Type := mkSelectCounts {
  ncom : Z;
  nrej : Z;
  nmul : Z;
  nneg : Z;
  nres : Z;
  nbij : Z;
  ncen : Z
}.

Definition incr_ncom (c : select_counts) : select_counts :=
  mkSelectCounts (int_incr (ncom c)) (nrej c) (nmul c) (nneg c) (nres c)
    (nbij c) (ncen c).
Definition incr_nrej (c : select_counts) : select_counts :=
  mkSelectCounts (ncom c) (int_incr (nrej c)) (nmul c) (nneg c) (nres c)
    (nbij c) (ncen c).
Definition incr_nmul (c : select_counts) : select_counts :=
  mkSelectCounts (ncom c) (nrej c) (int_incr (nmul c)) (nneg c) (nres c)
    (nbij c) (ncen c).
Definition incr_nneg (c : select_counts) : select_counts :=
  mkSelectCounts (ncom c) (nrej c) (nmul c) (int_incr (nneg c)) (nres c)
    (nbij c) (ncen c).
Definition incr_nres (c : select_counts) : select_counts :=
  mkSelectCounts (ncom c) (nrej c) (nmul c) (nneg c) (int_incr (nres c))
    (nbij c) (ncen c).
Definition incr_nbij (c : select_counts) : select_counts :=
  mkSelectCounts (ncom c) (nrej c) (nmul c) (nneg c) (nres c)
    (int_incr (nbij c)) (ncen c).
Definition incr_ncen (c : select_counts) : select_counts :=
  mkSelectCounts (ncom c) (nrej c) (nmul c) (nneg c) (nres c)
    (nbij c) (int_incr (ncen c)).
Definition reset_ncom (c : select_counts) : select_counts :=
  mkSelectCounts 0 (nrej c) (nmul c) (nneg c) (nres c) (nbij c) (ncen c).

(** The three statements that put a pair into the accepted lists:
    [add_refl], [copy_data], [set_intensity], for each list. *)
Definition accept_refl (st : store) (list_acc : nat) (h k l : Z)
    (refl : Reflection) (val : double) : store :=
  let '(refl_acc, st) := add_refl st list_acc h k l in
  let st := st_upd st list_acc refl_acc (fun r => copy_data r refl) in
  st_upd st list_acc refl_acc (fun r => set_intensity r val).

Definition accept_pair (st : store) (list1_acc list2_acc : nat) (h k l : Z)
    (refl1 refl2 : Reflection) (val1 val2 : double) : store :=
  let st := accept_refl st list1_acc h k l refl1 val1 in
  accept_refl st list2_acc h k l refl2 val2.

Section FomSelect.

(** [resolution] of cell-utils.c, [is_centric] and [find_equiv_in_list] of
    symmetry.c (not among the sources). *)
Variable resolution : UnitCell -> Z -> Z -> Z -> double.
Variable is_centric : Z -> Z -> Z -> SymOpList -> bool.
Variable find_equiv_in_list :
  RefList -> Z -> Z -> Z -> SymOpList -> option (Z * Z * Z).

(** First loop of [fom_select_reflections], at reflection [i] of list 1. *)
Definition select_step (list1 list2 list1_acc list2_acc : nat)
    (cell : UnitCell) (rmin_fix rmax_fix sigma_cutoff : double)
    (ignore_negs zero_negs : bool) (mul_cutoff : Z)
    (s : store * select_counts) (i : nat) : outcome (store * select_counts) :=
  let '(st, c) := s in
  match nth_error (st list1) i with
  | None => Returns s
  | Some refl1 =>
      let '(h, k, l) := get_indices refl1 in
      match find_refl (st list2) h k l with
      | None => Returns s                     (* continue *)
      | Some refl2 =>
          let val1 := get_intensity refl1 in
          let val2 := get_intensity refl2 in
          let esd1 := get_esd_intensity refl1 in
          let esd2 := get_esd_intensity refl2 in
          let mul1 := get_redundancy refl1 in
          let mul2 := get_redundancy refl2 in
          if dlt val1 (dmul sigma_cutoff esd1)
             || dlt val2 (dmul sigma_cutoff esd2)
          then Returns (st, incr_nrej c)
          else if ignore_negs && (dlt val1 (Fin 0) || dlt val2 (Fin 0))
          then Returns (st, incr_nneg c)
          else if (mul1 <? mul_cutoff)%Z || (mul2 <? mul_cutoff)%Z
          then Returns (st, incr_nmul c)
          else
            let d := zero_negs && (dlt val1 (Fin 0) || dlt val2 (Fin 0)) in
            let val1 := if zero_negs && dlt val1 (Fin 0) then Fin 0 else val1 in
            let val2 := if zero_negs && dlt val2 (Fin 0) then Fin 0 else val2 in
            let c := if d then incr_nneg c else c in
            let res := dmul (Fin 2) (resolution cell h k l) in
            if dgt rmin_fix (Fin 0) && dlt res rmin_fix
            then Returns (st, incr_nres c)
            else if dgt rmax_fix (Fin 0) && dgt res rmax_fix
            then Returns (st, incr_nres c)
            else
              Returns (accept_pair st list1_acc list2_acc h k l refl1 refl2
                         val1 val2,
                       incr_ncom c)
      end
  end.

(** The partner that the second loop looks up for (h,k,l) in a list. *)
Definition bijvoet_refl (list : RefList) (h k l : Z) (sym : SymOpList)
  : option Reflection :=
  match find_equiv_in_list list (int_wrap (- h)) (int_wrap (- k))
          (int_wrap (- l)) sym with
  | Some (hb, kb, lb) => find_refl list hb kb lb
  | None => None
  end.

(** Second loop, for the anomalous figures of merit: [list1] and [list2]
    are the lists accepted so far, [list1_acc] and [list2_acc] new ones. *)
Definition bijvoet_step (list1 list2 list1_acc list2_acc : nat)
    (sym : SymOpList) (s : store * select_counts) (i : nat)
  : outcome (store * select_counts) :=
  let '(st, c) := s in
  match nth_error (st list1) i with
  | None => Returns s
  | Some refl1 =>
      let '(h, k, l) := get_indices refl1 in
      match find_refl (st list2) h k l with
      | None => Aborts                        (* assert(refl2 != NULL) *)
      | Some refl2 =>
          let val1 := get_intensity refl1 in
          let val2 := get_intensity refl2 in
          if is_centric h k l sym then Returns (st, incr_ncen c)
          else
            let refl1_bij := bijvoet_refl (st list1) h k l sym in
            let refl2_bij := bijvoet_refl (st list2) h k l sym in
            match refl1_bij, refl2_bij with
            | Some _, Some _ =>
                Returns (accept_pair st list1_acc list2_acc h k l refl1 refl2
                           val1 val2,
                         incr_ncom c)
            | _, _ => Returns (st, incr_nbij c)
            end
      end
  end.

(** [fom_select_reflections]: the heap and the counters when it returns.
    The four lists are arguments by value: the new lists of the second loop
    are held by the function's own variables only. *)
Definition fom_select_reflections (hp : heap)
    (list1 list2 list1_acc list2_acc : nat) (cell : UnitCell)
    (sym : SymOpList) (anom : bool) (rmin_fix rmax_fix sigma_cutoff : double)
    (ignore_negs zero_negs : bool) (mul_cutoff : Z)
  : outcome (heap * select_counts) :=
  (* Select reflections to be used *)
  let c := mkSelectCounts 0 0 0 0 0 0 0 in
  let st := h_lists hp in
  ' (st, c) <-
      run_loop (select_step list1 list2 list1_acc list2_acc cell rmin_fix
                  rmax_fix sigma_cutoff ignore_negs zero_negs mul_cutoff)
        (seq 0 (length (st list1))) (st, c) ;;
  let hp := mkHeap st (h_next hp) in
  (* For anomalous figures of merit, we additionally require that we have
     all the Bijvoet pairs after the above rejection tests *)
  if anom then
    let list1 := list1_acc in
    let list2 := list2_acc in
    let '(list1_acc, hp) := reflist_new hp in
    let '(list2_acc, hp) := reflist_new hp in
    let c := reset_ncom c in
    ' (st, c) <-
        run_loop (bijvoet_step list1 list2 list1_acc list2_acc sym)
          (seq 0 (length (h_lists hp list1))) (h_lists hp, c) ;;
    Returns (mkHeap st (h_next hp), c)
  else Returns (hp, c).

End FomSelect.

(** The tests a pair passed when [fom_select_reflections] accepted it,
    stated on the two accepted copies [a1] and [a2] of the reflections
    [refl1] and [refl2]. *)
Definition passed_tests (resolution : UnitCell -> Z -> Z -> Z -> double)
    (cell : UnitCell) (rmin_fix rmax_fix sigma_cutoff : double)
    (ignore_negs zero_negs : bool) (mul_cutoff : Z)
    (refl1 refl2 a1 a2 : Reflection) : Prop :=
  get_indices refl2 = get_indices refl1 /\
  a1 = set_intensity refl1 (get_intensity a1) /\
  a2 = set_intensity refl2 (get_intensity a2) /\
  get_intensity a1
  = (if zero_negs && dlt (get_intensity refl1) (Fin 0) then Fin 0
     else get_intensity refl1) /\
  get_intensity a2
  = (if zero_negs && dlt (get_intensity refl2) (Fin 0) then Fin 0
     else get_intensity refl2) /\
  dlt (get_intensity refl1) (dmul sigma_cutoff (get_esd_intensity refl1))
  = false /\
  dlt (get_intensity refl2) (dmul sigma_cutoff (get_esd_intensity refl2))
  = false /\
  (ignore_negs = true ->
   dlt (get_intensity refl1) (Fin 0) = false /\
   dlt (get_intensity refl2) (Fin 0) = false) /\
  (mul_cutoff <= get_redundancy refl1)%Z /\
  (mul_cutoff <= get_redundancy refl2)%Z /\
  (dgt rmin_fix (Fin 0) = true ->
   dlt (dmul (Fin 2) (resolution cell (get_h refl1) (get_k refl1)
                        (get_l refl1))) rmin_fix = false) /\
  (dgt rmax_fix (Fin 0) = true ->
   dgt (dmul (Fin 2) (resolution cell (get_h refl1) (get_k refl1)
                        (get_l refl1))) rmax_fix = false).

(** The pairs of the counters' sum: those that the first loop either
    accepted or rejected for good. *)
Definition settled (ignore_negs : bool) (c : select_counts) : Z :=
  (ncom c + nrej c + nmul c + nres c
   + (if ignore_negs then nneg c else 0))%Z.

(** The five counters of the first loop lie between [lo] and [hi]. *)
Definition counts_within (c : select_counts) (lo hi : Z) : Prop :=
  (lo <= ncom c <= hi)%Z /\ (lo <= nrej c <= hi)%Z /\
  (lo <= nmul c <= hi)%Z /\ (lo <= nneg c <= hi)%Z /\
  (lo <= nres c <= hi)%Z.

(** The reflections of a list with a partner in another. *)
Definition with_partner (list1 list2 : RefList) : RefList :=
  filter (fun r => match find_refl list2 (get_h r) (get_k r) (get_l r) with
                   | Some _ => true
                   | None => false
                   end) list1.

(** Two lists to compare at the pointers 0 and 1, two empty lists for the
    accepted pairs at 2 and 3: (1,0,0) is in both, (2,0,0) is too weak in
    the first, (3,0,0) is negative in the second, (4,0,0) is in the first
    only, (5,0,0) has been measured once in the second. *)
Definition select_list1 : RefList :=
  [sample_refl 1 100 1 1 4 false false;
   sample_refl 2 1 1 1 4 false false;
   sample_refl 3 50 1 1 4 false false;
   sample_refl 4 50 1 1 4 false false;
   sample_refl 5 50 1 1 4 false false].

Definition select_list2 : RefList :=
  [sample_refl 1 90 1 1 4 false false;
   sample_refl 2 80 1 1 4 false false;
   sample_refl 3 (-10) 1 1 4 false false;
   sample_refl 5 50 1 1 1 false false].

Definition select_heap : heap :=
  mkHeap (fun p => match p with
                   | O => select_list1
                   | S O => select_list2
                   | _ => []
                   end) 4.

Definition sample_is_centric (h k l : Z) (sym : SymOpList) : bool := false.

(** A stand-in for [gsl_stats_correlation] that finds the correlation 1/2,
    and a CC* context with two pairs in its only shell. *)
Definition half_correlation (data1 data2 : list double) : double := Fin (1 / 2).

Definition sample_ccstar_context : fom_context :=
  mkFomContext FOM_CCSTAR 1 [2%Z] [] [] [] [] [] [[Fin 1; Fin 2]]
    [[Fin 2; Fin 1]] [2%Z] 2.

(* ================================================================== *)
(** * fom.c: the names of the figures of merit *)

(** [tolower] in the C locale, and the test [strcasecmp(s, t) == 0]. *)
Definition tolower (c : ascii) : ascii :=
  let n := nat_of_ascii c in
  if (65 <=? n)%nat && (n <=? 90)%nat then ascii_of_nat (n + 32) else c.

Fixpoint strcasecmp_eq (s t : string) : bool :=
  match s, t with
  | EmptyString, EmptyString => true
  | String a s', String b t' =>
      Ascii.eqb (tolower a) (tolower b) && strcasecmp_eq s' t'
  | _, _ => false
  end.

(** [fom_type_from_string]: [None] is the [exit(1)] after the message
    "Unknown figure of merit". *)
Definition fom_type_from_string (s : string) : option fom_type :=
  if strcasecmp_eq s "r1i" then Some FOM_R1I
  else if strcasecmp_eq s "r1f" then Some FOM_R1F
  else if strcasecmp_eq s "r2" then Some FOM_R2
  else if strcasecmp_eq s "rsplit" then Some FOM_RSPLIT
  else if strcasecmp_eq s "cc" then Some FOM_CC
  else if strcasecmp_eq s "ccstar" then Some FOM_CCSTAR
  else if strcasecmp_eq s "ccano" then Some FOM_CCANO
  else if strcasecmp_eq s "crdano" then Some FOM_CRDANO
  else if strcasecmp_eq s "rano" then Some FOM_RANO
  else if strcasecmp_eq s "rano/rsplit" then Some FOM_RANORSPLIT
  else if strcasecmp_eq s "d1sig" then Some FOM_D1SIG
  else if strcasecmp_eq s "d2sig" then Some FOM_D2SIG
  else None.

(** The name of each figure of merit in that table. *)
Definition fom_type_name (fom : fom_type) : string :=
  match fom with
  | FOM_R1I => "r1i"
  | FOM_R1F => "r1f"
  | FOM_R2 => "r2"
  | FOM_RSPLIT => "rsplit"
  | FOM_CC => "cc"
  | FOM_CCSTAR => "ccstar"
  | FOM_CCANO => "ccano"
  | FOM_CRDANO => "crdano"
  | FOM_RANO => "rano"
  | FOM_RANORSPLIT => "rano/rsplit"
  | FOM_D1SIG => "d1sig"
  | FOM_D2SIG => "d2sig"
  end.

(** Two copies of a list in which (1,0,0) is held twice, with different
    intensities, at the pointers 0 and 1; one shell, (0,4]. *)
Definition repeated_key_list : RefList :=
  [sample_refl 1 100 1 1 1 false false; sample_refl 1 50 1 1 1 false false].

Definition repeated_key_store : store :=
  fun p => match p with
           | O => repeated_key_list
           | S O => repeated_key_list
           | _ => []
           end.

Definition one_shell : fom_shells := mkFomShells 1 [Fin 0] [Fin 4].

(** A fit that succeeds with c0 = 1 and c1 = 2. *)
Definition sample_steep_fit (x y : list double) : Z * double * double :=
  (0%Z, Fin 1, Fin 2).

(** The reflection (1,0,0) of the sample list after scaling with these
    coefficients: intensity and sigma times exp 1 * exp (2 * (2 / 2) * 1 * 1). *)
Definition steep_scaled_refl : Reflection :=
  set_esd_intensity
    (set_intensity (sample_refl 1 100 1 1 1 false false)
       (Fin (100 * (exp 1 * exp (2 * (2 / 2) * 1 * 1)))))
    (Fin (1 * (exp 1 * exp (2 * (2 / 2) * 1 * 1)))).

(* ================================================================== *)
(** * Properties of the number model *)

Arguments Rltb : simpl never.
Arguments Reqb : simpl never.

Lemma Rltb_true (a b : R) : a < b -> Rltb a b = true.
Proof. unfold Rltb; destruct (Rlt_dec a b); intros; [reflexivity | contradiction]. Qed.

Lemma Rltb_false (a b : R) : ~ a < b -> Rltb a b = false.
Proof. unfold Rltb; destruct (Rlt_dec a b); intros; [contradiction | reflexivity]. Qed.

Lemma Reqb_true (a b : R) : a = b -> Reqb a b = true.
Proof. unfold Reqb; destruct (Req_dec_T a b); intros; [reflexivity | contradiction]. Qed.

Lemma Reqb_false (a b : R) : a <> b -> Reqb a b = false.
Proof. unfold Reqb; destruct (Req_dec_T a b); intros; [contradiction | reflexivity]. Qed.

(** Decide the comparisons of real numbers that sit in the goal. *)
Ltac Rdecide :=
  repeat match goal with
    | |- context [Rltb ?a ?b] =>
        first [ rewrite (Rltb_true a b) by lra | rewrite (Rltb_false a b) by lra ]
    | |- context [Reqb ?a ?b] =>
        first [ rewrite (Reqb_true a b) by lra | rewrite (Reqb_false a b) by lra ]
    end.

(** Case analysis on the comparisons of real numbers in the goal. *)
Ltac Rcases :=
  repeat match goal with
    | |- context [Rltb ?a ?b] =>
        let H := fresh "H" in
        destruct (Rlt_dec a b) as [H | H];
        [ rewrite (Rltb_true a b H) | rewrite (Rltb_false a b H) ]
    | |- context [Reqb ?a ?b] =>
        let H := fresh "H" in
        destruct (Req_dec_T a b) as [H | H];
        [ rewrite (Reqb_true a b H) | rewrite (Reqb_false a b H) ]
    end.

Lemma dlt_Fin (a b : R) : dlt (Fin a) (Fin b) = true <-> a < b.
Proof.
  unfold dlt, dcmp. Rcases; split; intros; try lra; try discriminate; reflexivity.
Qed.

Lemma dle_Fin (a b : R) : dle (Fin a) (Fin b) = true <-> a <= b.
Proof.
  unfold dle, dcmp. Rcases; split; intros; try lra; try discriminate; reflexivity.
Qed.

(** Away from NaN the order is total: [x < y] fails exactly when [y <= x]. *)
Lemma dlt_false_dle (x y : double) :
  isnan x = false -> isnan y = false -> dlt x y = negb (dle y x).
Proof.
  destruct x as [a | s |], y as [b | s' |]; simpl; try discriminate; intros _ _.
  - unfold dlt, dle, dcmp. Rcases; try reflexivity; lra.
  - unfold dlt, dle, dcmp. destruct s'; reflexivity.
  - unfold dlt, dle, dcmp. destruct s; reflexivity.
  - unfold dlt, dle, dcmp. destruct s, s'; reflexivity.
Qed.

Lemma dle_NaN_l (y : double) : dle NaN y = false.
Proof. reflexivity. Qed.

Lemma dle_NaN_r (x : double) : dle x NaN = false.
Proof. destruct x; reflexivity. Qed.

Lemma dlt_NaN_r (x : double) : dlt x NaN = false.
Proof. destruct x; reflexivity. Qed.

Lemma fold_dadd_special (l : list double) (x : double) (b : R) :
  (forall r, x <> Fin r) -> fold_left dadd l x <> Fin b.
Proof.
  revert x; induction l as [| y l IH]; intros x Hx; simpl.
  - apply Hx.
  - apply IH. intros r.
    destruct x as [a | s |], y as [c | s' |]; simpl; try discriminate.
    + exfalso; apply (Hx a); reflexivity.
    + destruct (eqb s s'); discriminate.
Qed.

(** A sum is a finite number only if every term is. *)
Lemma fold_dadd_Fin (l : list double) (a b : R) :
  fold_left dadd l (Fin a) = Fin b ->
  exists rs, l = map Fin rs.
Proof.
  revert a; induction l as [| x l IH]; intros a H.
  - exists []; reflexivity.
  - simpl in H. destruct x as [r | s |].
    + apply IH in H. destruct H as [rs ->]. exists (r :: rs). reflexivity.
    + exfalso. revert H. apply fold_dadd_special. discriminate.
    + exfalso. revert H. apply fold_dadd_special. discriminate.
Qed.

Lemma int_wrap_small (z : Z) :
  (- 2147483648 <= z <= INT_MAX)%Z -> int_wrap z = z.
Proof.
  unfold int_wrap, INT_MAX. intros H.
  rewrite Z.mod_small by lia. lia.
Qed.

Lemma aset_length {A} (l : list A) (i : nat) (v : A) :
  length (aset l i v) = length l.
Proof.
  revert i; induction l as [| x l IH]; intros [| i]; simpl; auto.
Qed.

Lemma nth_aset_same {A} (l : list A) (i : nat) (v d : A) :
  (i < length l)%nat -> nth i (aset l i v) d = v.
Proof.
  revert i; induction l as [| x l IH]; intros [| i]; simpl; intros H;
    try lia; auto. apply IH; lia.
Qed.

Lemma nth_aset_other {A} (l : list A) (i j : nat) (v d : A) :
  i <> j -> nth j (aset l i v) d = nth j l d.
Proof.
  revert i j; induction l as [| x l IH]; intros [| i] [| j]; simpl; intros H;
    try congruence; auto.
Qed.

(* ================================================================== *)
(** * partialator.c: selection of reflections, the refinement stage *)

Lemma select_scalable_loop_spec (reference : option RefList) :
  forall (list : RefList) (n0 : Z) (list' : RefList) (n : Z),
    select_scalable_loop list reference n0 = (list', n) ->
    list' = map (fun r => set_scalable r (scalable_decision reference r)) list /\
    ((0 <= n0)%Z -> (n0 + Z.of_nat (length list) <= INT_MAX)%Z ->
     n = (n0 + Z.of_nat (length (filter get_scalable list')))%Z).
Proof.
  induction list as [| refl rest IH]; intros n0 list' n H.
  - simpl in H. injection H as <- <-. split; [reflexivity |]. simpl; lia.
  - simpl in H.
    destruct (select_scalable_loop rest reference _) as [rest' m] eqn:E.
    injection H as <- <-.
    apply IH in E. destruct E as [-> Hn]. split; [reflexivity |].
    intros H0 Hmax. simpl length in Hmax.
    destruct (scalable_decision reference refl) eqn:D.
    + unfold int_incr in Hn. rewrite int_wrap_small in Hn by (unfold INT_MAX in *; lia).
      rewrite Hn by lia. simpl. lia.
    + rewrite Hn by lia. simpl. lia.
Qed.

Lemma scalable_decision_spec (reference : option RefList) (refl : Reflection) :
  isnan (get_partiality refl) = false ->
  (scalable_decision reference refl = true <->
   dge (get_partiality refl) (Fin 0.05) = true /\
   get_redundancy refl <> 0%Z /\
   (forall ref, reference = Some ref ->
      find_refl ref (get_h refl) (get_k refl) (get_l refl) <> None)).
Proof.
  intros Hp. unfold scalable_decision, dge.
  rewrite (dlt_false_dle (get_partiality refl) (Fin 0.05) Hp eq_refl).
  destruct (Z.eqb_spec (get_redundancy refl) 0) as [Hr | Hr];
    destruct (dle (Fin 0.05) (get_partiality refl)); simpl;
    destruct reference as [ref |]; simpl;
    try destruct (find_refl ref (get_h refl) (get_k refl) (get_l refl)) eqn:F;
    split; try discriminate; try tauto;
    try (intros (? & ? & G); exfalso; try tauto; try discriminate;
         apply (G ref eq_refl); assumption);
    intros _; repeat split; try assumption; intros ref' E;
    try discriminate; injection E as <-; congruence.
Qed.

(** C2.  After [select_scalable_reflections] a reflection is flagged
    scalable exactly when its partiality is at least 0.05, its redundancy is
    not zero and, with a reference list, its (h,k,l) is in the reference;
    nothing else of the reflection changes; and the returned count is the
    number of reflections flagged scalable.  The partialities are numbers
    (the data model keeps them in [0,1]) and the count fits an [int]. *)
Theorem select_scalable_reflections_correct :
  forall (list : RefList) (reference : option RefList)
         (list' : RefList) (n_acc : Z),
    Forall (fun r => isnan (get_partiality r) = false) list ->
    (Z.of_nat (length list) <= INT_MAX)%Z ->
    select_scalable_reflections list reference = (list', n_acc) ->
    length list' = length list /\
    (forall i refl refl',
       nth_error list i = Some refl -> nth_error list' i = Some refl' ->
       refl' = set_scalable refl (get_scalable refl') /\
       (get_scalable refl' = true <->
        dge (get_partiality refl) (Fin 0.05) = true /\
        get_redundancy refl <> 0%Z /\
        (forall ref, reference = Some ref ->
           find_refl ref (get_h refl) (get_k refl) (get_l refl) <> None))) /\
    n_acc = Z.of_nat (length (filter get_scalable list')).
Proof.
  intros list reference list' n_acc Hnan Hlen H.
  unfold select_scalable_reflections in H.
  apply select_scalable_loop_spec in H. destruct H as [-> Hn].
  split; [apply length_map |]. split.
  - intros i refl refl' Hi Hi'.
    rewrite nth_error_map, Hi in Hi'. simpl in Hi'. injection Hi' as <-.
    split; [reflexivity |]. simpl.
    apply scalable_decision_spec.
    rewrite Forall_forall in Hnan. apply Hnan. eapply nth_error_In; eassumption.
  - rewrite Hn by lia. lia.
Qed.

(** Evaluate the model on given numbers. *)
Ltac natval :=
  repeat match goal with
    | |- context [Pos.to_nat ?p] =>
        let v := eval vm_compute in (Pos.to_nat p) in
        progress change (Pos.to_nat p) with v
    | |- context [Z.to_nat ?z] =>
        let v := eval vm_compute in (Z.to_nat z) in
        progress change (Z.to_nat z) with v
    end.

Ltac deval_with unfolding :=
  cbn; natval; cbn;
  repeat (progress (try unfold dgt; try unfold dge; try unfold dlt;
                    try unfold dle; try unfold dcmp;
                    try unfold add_to_fom; unfolding;
                    Rdecide; natval; cbn)).

Ltac deval :=
  deval_with ltac:(try unfold get_bin; try unfold doubled_resolution).

Lemma select_scalable_reflections_witness :
  Forall (fun r => isnan (get_partiality r) = false) sample_list /\
  (Z.of_nat (length sample_list) <= INT_MAX)%Z /\
  select_scalable_reflections sample_list (Some sample_reference)
  = (map (fun p => set_scalable (fst p) (snd p))
         (combine sample_list [true; false; false; true]), 2%Z) /\
  2%Z = Z.of_nat (length (filter get_scalable
          (map (fun p => set_scalable (fst p) (snd p))
               (combine sample_list [true; false; false; true])))).
Proof.
  assert (Hn : Forall (fun r => isnan (get_partiality r) = false) sample_list)
    by (repeat constructor).
  assert (Hl : (Z.of_nat (length sample_list) <= INT_MAX)%Z)
    by (unfold INT_MAX; simpl; lia).
  assert (E : select_scalable_reflections sample_list (Some sample_reference)
              = (map (fun p => set_scalable (fst p) (snd p))
                   (combine sample_list [true; false; false; true]), 2%Z)).
  { unfold select_scalable_reflections, sample_list, sample_reference,
      sample_refl. cbn. unfold scalable_decision. deval. reflexivity. }
  split; [exact Hn |]. split; [exact Hl |]. split; [exact E |].
  exact (proj2 (proj2 (select_scalable_reflections_correct
                         sample_list (Some sample_reference) _ _ Hn Hl E))).
Defined.

(** Apart from the case it leaves alone, [refinement_decision] sets the
    flag by the three conditions: a reflection that was not flagged before
    is flagged afterwards exactly when it is scalable, not weaker than three
    sigma, and held by [full] with redundancy 2 or more (any redundancy with
    a reference). *)
Lemma refinement_decision_fresh (full : RefList) (have_reference : bool)
    (refl refl' : Reflection) :
  get_refinable refl = false ->
  isnan (get_intensity refl) = false ->
  isnan (dmul (Fin 3) (get_esd_intensity refl)) = false ->
  refinement_decision full have_reference refl = Some refl' ->
  (get_refinable refl' = true <->
   get_scalable refl = true /\
   dge (get_intensity refl) (dmul (Fin 3) (get_esd_intensity refl)) = true /\
   exists f, find_refl full (get_h refl) (get_k refl) (get_l refl) = Some f /\
             ((2 <= get_redundancy f)%Z \/ have_reference = true)).
Proof.
  intros Hf Hi Hs. unfold refinement_decision, dge.
  rewrite (dlt_false_dle _ _ Hi Hs).
  destruct (dle _ (get_intensity refl)); simpl.
  - destruct (get_scalable refl); simpl.
    + destruct (find_refl full _ _ _) as [f |]; [| discriminate].
      destruct (Z.leb_spec 2 (get_redundancy f)); simpl.
      * intros [= <-]; simpl. split; [| reflexivity]. intros _.
        repeat split. exists f. split; [reflexivity | left; assumption].
      * destruct have_reference; simpl; intros [= <-]; simpl.
        -- split; [| reflexivity]. intros _.
           repeat split. exists f. split; [reflexivity | right; reflexivity].
        -- rewrite Hf. split; [discriminate |].
           intros (_ & _ & f' & [= <-] & [G | G]); [lia | discriminate].
    + intros [= <-]; simpl. split; [discriminate |]. intros (G & _); discriminate.
  - intros [= <-]; simpl. split; [discriminate |]. intros (_ & G & _); discriminate.
Qed.

(** C1.  The selection keeps a stale flag: a scalable reflection with
    I >= 3 sigma that is already flagged refinable, whose (h,k,l) the merged
    list holds with redundancy 1, and no reference, is still flagged
    refinable afterwards, although the redundancy is below 2. *)
Theorem select_reflections_for_refinement_stale_flag :
  select_reflections_for_refinement [sample_crystal [stale_refl]] stale_full false
  = Some [sample_crystal [stale_refl]] /\
  get_refinable stale_refl = true /\
  get_scalable stale_refl = true /\
  dge (get_intensity stale_refl) (dmul (Fin 3) (get_esd_intensity stale_refl)) = true /\
  option_map get_redundancy (find_refl stale_full 1 0 0) = Some 1%Z.
Proof.
  unfold stale_refl, stale_full, sample_crystal, sample_refl.
  repeat split; try (deval; reflexivity).
  cbn. unfold refinement_decision. deval. reflexivity.
Qed.

(** C3.  With the unity model the refinement stage returns at once: the
    crystals (scale factors, cells and orientations, reflection lists) and
    the report data are what they were, whatever [pr_refine] would do. *)
Theorem refine_all_unity_noop :
  forall (pr_refine : Crystal -> RefList -> PartialityModel -> Crystal * prdata)
         (crystals : list Crystal) (n_crystals : Z) (full : RefList)
         (nthreads : Z) (sr : srdata),
    refine_all pr_refine crystals n_crystals full nthreads PMODEL_UNITY sr
    = (crystals, sr) /\
    forall i cr cr',
      nth_error crystals i = Some cr ->
      nth_error (fst (refine_all pr_refine crystals n_crystals full nthreads
                        PMODEL_UNITY sr)) i = Some cr' ->
      crystal_get_osf cr' = crystal_get_osf cr /\
      crystal_get_cell cr' = crystal_get_cell cr /\
      crystal_get_reflections cr' = crystal_get_reflections cr.
Proof.
  intros. split; [reflexivity |].
  intros i cr cr' Hi Hi'. simpl in Hi'. rewrite Hi in Hi'.
  injection Hi' as <-. repeat split.
Qed.

(** With the other model the stage does refine every crystal. *)
Example refine_all_sphere_refines :
  refine_all sample_pr_refine [sample_crystal []; sample_crystal sample_list]
    2 [] 4 PMODEL_SPHERE (mkSrdata 0)
  = ([fst (sample_pr_refine (sample_crystal []) [] PMODEL_SPHERE);
      fst (sample_pr_refine (sample_crystal sample_list) [] PMODEL_SPHERE)],
     mkSrdata 2).
Proof. reflexivity. Qed.

(* ================================================================== *)
(** * fom.c: the overall value *)

Lemma accumulate_num_den_from (nu de : list double) (idx : list nat)
    (a b : double) :
  fold_left (fun acc i => (dadd (fst acc) (dget nu i), dadd (snd acc) (dget de i)))
    idx (a, b)
  = (fold_left dadd (map (dget nu) idx) a, fold_left dadd (map (dget de) idx) b).
Proof.
  revert a b; induction idx as [| i idx IH]; intros a b; simpl.
  - reflexivity.
  - apply IH.
Qed.

Lemma accumulate_num_den_totals (nu de : list double) (nsh : Z) :
  accumulate_num_den nu de (seq 0 (Z.to_nat nsh))
  = (shell_total nu nsh, shell_total de nsh).
Proof. apply accumulate_num_den_from. Qed.

Lemma pool_inner_from (f : nat -> double) (js : list nat) (acc : list double) :
  fold_left (fun acc' j => acc' ++ [f j]) js acc = acc ++ map f js.
Proof.
  revert acc; induction js as [| j js IH]; intros acc; simpl.
  - symmetry; apply app_nil_r.
  - rewrite IH, <- app_assoc. reflexivity.
Qed.

Lemma pool_shells_from (n : list Z) (f : nat -> nat -> double) (idx : list nat)
    (acc : list double) :
  fold_left
    (fun acc i =>
       fold_left (fun acc' j => acc' ++ [f i j]) (seq 0 (Z.to_nat (iget n i))) acc)
    idx acc
  = acc ++ flat_map (shell_values n f) idx.
Proof.
  revert acc; induction idx as [| i idx IH]; intros acc; simpl.
  - symmetry; apply app_nil_r.
  - rewrite IH, pool_inner_from, <- app_assoc. reflexivity.
Qed.

Lemma pool_shells_all (n : list Z) (f : nat -> nat -> double) (nsh : Z) :
  pool_shells n f (seq 0 (Z.to_nat nsh)) = all_shell_values n f nsh.
Proof. unfold pool_shells. rewrite pool_shells_from. reflexivity. Qed.

(** C7.  In every kind of figure of merit the overall value comes from the
    shells' numerators and denominators summed over all shells (for a
    correlation kind: from the values of all shells put together), with the
    ratio or root taken once at the end; it is not the mean of the per-shell
    values, as the sample context shows (overall 1/2, mean of shells 2/3). *)
Theorem fom_overall_from_totals :
  forall (gsl_stats_correlation : list double -> list double -> double)
         (gsl_stats_variance_m : list double -> double -> double),
    (forall fctx : fom_context,
       accumulate_num_den (fc_num fctx) (fc_den fctx) (shell_indices fctx)
       = (shell_total (fc_num fctx) (fc_nshells fctx),
          shell_total (fc_den fctx) (fc_nshells fctx)) /\
       fom_overall gsl_stats_correlation gsl_stats_variance_m fctx
       = overall_from_totals gsl_stats_correlation gsl_stats_variance_m fctx) /\
    fom_overall gsl_stats_correlation gsl_stats_variance_m sample_r1i_context
    = Fin (1 / 2) /\
    mean_of_shells gsl_stats_correlation gsl_stats_variance_m sample_r1i_context
    = Fin (2 / 3).
Proof.
  intros corr var. split; [| split].
  - intros fctx. split; [apply accumulate_num_den_totals |].
    unfold fom_overall, overall_from_totals, shell_indices.
    rewrite !accumulate_num_den_totals, !pool_shells_all.
    destruct (fc_fom fctx); reflexivity.
  - unfold fom_overall, sample_r1i_context, shell_indices, accumulate_num_den.
    deval. f_equal. lra.
  - unfold mean_of_shells, sample_r1i_context, fom_shell, d_of_int, dsum.
    deval. f_equal. lra.
Qed.

(* ================================================================== *)
(** * fom.c: resolution shells *)

Lemma cube_root_nonneg (t : R) : 0 <= cube_root t.
Proof.
  unfold cube_root. Rcases; [| lra].
  unfold Rpower. left. apply exp_pos.
Qed.

Lemma Rpower_3 (x : R) : 0 < x -> Rpower x 3 = x ^ 3.
Proof.
  intros Hx. replace 3 with (INR 3) by (simpl; lra). apply Rpower_pow; assumption.
Qed.

Lemma cube_root_cubed (t : R) : 0 <= t -> cube_root t ^ 3 = t.
Proof.
  intros Ht. unfold cube_root. Rcases.
  - rewrite <- Rpower_3 by (unfold Rpower; apply exp_pos).
    rewrite Rpower_mult. replace (1 / 3 * 3) with 1 by field.
    apply Rpower_1; assumption.
  - replace t with 0 by lra. simpl; ring.
Qed.

Lemma cube_root_of_cube (x : R) : 0 <= x -> cube_root (x ^ 3) = x.
Proof.
  intros Hx. unfold cube_root. Rcases.
  - assert (0 < x) by (destruct Hx as [Hx | <-]; [assumption | simpl in *; lra]).
    rewrite <- Rpower_3 by assumption.
    rewrite Rpower_mult. replace (3 * (1 / 3)) with 1 by field.
    apply Rpower_1; assumption.
  - destruct Hx as [Hx | <-]; [| reflexivity].
    exfalso. apply H. apply pow_lt; assumption.
Qed.

Lemma dpow_cube (x : R) : 0 <= x -> dpow (Fin x) 3 = Fin (x ^ 3).
Proof.
  intros Hx. unfold dpow. rewrite (Reqb_false 3 0) by lra.
  destruct (Rlt_dec 0 x) as [H | H].
  - rewrite (Rltb_true 0 x H). f_equal. apply Rpower_3; assumption.
  - rewrite (Rltb_false 0 x H), (Reqb_true x 0) by lra.
    rewrite (Rltb_true 0 3) by lra.
    replace x with 0 by lra. f_equal. simpl; ring.
Qed.

Lemma dpow_third (t : R) : 0 <= t -> dpow (Fin t) (1 / 3) = Fin (cube_root t).
Proof.
  intros Ht. unfold dpow, cube_root. rewrite (Reqb_false (1 / 3) 0) by lra.
  destruct (Rlt_dec 0 t) as [H | H].
  - rewrite (Rltb_true 0 t H). reflexivity.
  - rewrite (Rltb_false 0 t H). rewrite (Reqb_true t 0) by lra.
    rewrite (Rltb_true 0 (1 / 3)) by lra. reflexivity.
Qed.

Lemma dget_aset_same (l : list double) (i : nat) (v : double) :
  (i < length l)%nat -> dget (aset l i v) i = v.
Proof. apply nth_aset_same. Qed.

Lemma dget_aset_other (l : list double) (i j : nat) (v : double) :
  i <> j -> dget (aset l i v) j = dget l j.
Proof. apply nth_aset_other. Qed.

Section ShellBounds.

Variables (rmin rmax : R) (nsh : Z).
Hypothesis Hrange : 0 <= rmin < rmax.
Hypothesis Hnsh : (1 <= nsh)%Z.

Local Abbreviation n := (Z.to_nat nsh).
Local Abbreviation v := (shell_volume rmin rmax nsh).
Local Abbreviation c := (shell_bound rmin rmax nsh).

Lemma shell_volume_pos : 0 < v.
Proof.
  unfold shell_volume.
  assert (0 < IZR nsh) by (apply IZR_lt; lia).
  apply Rdiv_lt_0_compat; [| assumption].
  replace (rmax ^ 3 - rmin ^ 3)
    with ((rmax - rmin) * (rmax * rmax + rmax * rmin + rmin * rmin)) by ring.
  apply Rmult_lt_0_compat; nra.
Qed.

Lemma shell_content_nonneg (i : nat) : 0 <= rmin ^ 3 + INR i * v.
Proof.
  pose proof shell_volume_pos. pose proof (pos_INR i).
  assert (0 <= rmin ^ 3) by (apply pow_le; lra). nra.
Qed.

Lemma shell_bound_cubed (i : nat) : c i ^ 3 = rmin ^ 3 + INR i * v.
Proof. apply cube_root_cubed, shell_content_nonneg. Qed.

Lemma shell_bound_first : c 0%nat = rmin.
Proof.
  unfold shell_bound. simpl INR. rewrite Rmult_0_l, Rplus_0_r.
  apply cube_root_of_cube; lra.
Qed.

Lemma shell_bound_last : c n = rmax.
Proof.
  unfold shell_bound, shell_volume.
  rewrite INR_IZR_INZ, Z2Nat.id by lia.
  replace (rmin ^ 3 + IZR nsh * ((rmax ^ 3 - rmin ^ 3) / IZR nsh)) with (rmax ^ 3).
  - apply cube_root_of_cube; lra.
  - field. apply not_0_IZR; lia.
Qed.

Lemma shell_bound_next (i : nat) :
  dpow (dadd (Fin v) (dpow (Fin (c i)) 3)) (1 / 3) = Fin (c (S i)).
Proof.
  rewrite dpow_cube by apply cube_root_nonneg.
  rewrite shell_bound_cubed. simpl dadd.
  rewrite dpow_third.
  - unfold shell_bound. f_equal. f_equal. rewrite S_INR. ring.
  - pose proof (shell_content_nonneg i). pose proof shell_volume_pos. lra.
Qed.

Lemma shells_loop_bounds :
  forall (steps i : nat) (mins maxs : list double),
    (1 <= i)%nat -> (i + steps = n)%nat ->
    length mins = n -> length maxs = n ->
    (forall j, (j < i)%nat -> dget mins j = Fin (c j)) ->
    (forall j, (S j < i)%nat -> dget maxs j = Fin (c (S j))) ->
    forall mins' maxs',
      shells_loop steps i (Fin v) mins maxs = (mins', maxs') ->
      length mins' = n /\ length maxs' = n /\
      (forall j, (j < n)%nat -> dget mins' j = Fin (c j)) /\
      (forall j, (S j < n)%nat -> dget maxs' j = Fin (c (S j))).
Proof.
  induction steps as [| steps IH]; intros i mins maxs Hi Hn Hlm Hlx Hm Hx mins' maxs' E.
  - simpl in E. injection E as <- <-.
    repeat split; try assumption; intros j Hj; [apply Hm | apply Hx]; lia.
  - cbn [shells_loop] in E.
    assert (Ei : dget mins (i - 1) = Fin (c (i - 1))) by (apply Hm; lia).
    rewrite Ei in E.
    replace (dpow (dadd (Fin v) (dpow (Fin (c (i - 1))) 3)) (1 / 3))
      with (Fin (c i)) in E
      by (rewrite shell_bound_next; do 2 f_equal; lia).
    eapply (IH (S i)) in E; try eassumption; try lia.
    + rewrite aset_length; assumption.
    + rewrite aset_length; assumption.
    + intros j Hj. destruct (Nat.eq_dec i j) as [-> | Hne].
      * apply dget_aset_same. lia.
      * rewrite dget_aset_other by assumption. apply Hm; lia.
    + intros j Hj. destruct (Nat.eq_dec (i - 1) j) as [<- | Hne].
      * rewrite dget_aset_same by lia. do 2 f_equal. lia.
      * rewrite dget_aset_other by assumption. apply Hx; lia.
Qed.

Lemma fom_make_resolution_shells_bounds :
  let s := fom_make_resolution_shells (Fin rmin) (Fin rmax) nsh in
  nshells s = nsh /\
  length (rmins s) = n /\ length (rmaxs s) = n /\
  (forall j, (j < n)%nat ->
     dget (rmins s) j = Fin (c j) /\ dget (rmaxs s) j = Fin (c (S j))).
Proof.
  assert (Hn : (1 <= n)%nat) by lia.
  unfold fom_make_resolution_shells.
  rewrite !dpow_cube by lra.
  replace (ddiv (dsub (Fin (rmax ^ 3)) (Fin (rmin ^ 3))) (d_of_int nsh))
    with (Fin v).
  2:{ unfold d_of_int, v, shell_volume. simpl.
      rewrite (Reqb_false (IZR nsh) 0) by (apply not_0_IZR; lia).
      f_equal. }
  destruct (shells_loop (n - 1) 1 (Fin v) (aset (repeat NaN n) 0 (Fin rmin))
              (repeat NaN n)) as [mins' maxs'] eqn:E.
  apply shells_loop_bounds in E; try lia;
    [ | rewrite aset_length, repeat_length; reflexivity
      | apply repeat_length
      | intros j Hj; replace j with 0%nat by lia;
        rewrite dget_aset_same by (rewrite repeat_length; lia);
        rewrite shell_bound_first; reflexivity ].
  destruct E as (Hlm & Hlx & Hm & Hx). simpl.
  repeat split; try assumption.
  - rewrite aset_length; assumption.
  - apply Hm; assumption.
  - replace (Z.to_nat (nsh - 1)) with (n - 1)%nat by lia.
    destruct (Nat.eq_dec (n - 1) j) as [<- | Hne].
    + rewrite dget_aset_same by lia.
      replace (S (n - 1)) with n by lia. rewrite shell_bound_last. reflexivity.
    + rewrite dget_aset_other by assumption. apply Hx; lia.
Qed.

End ShellBounds.

Lemma cube_between (b lo hi t : R) :
  0 <= b -> 0 <= lo -> b ^ 3 = t -> lo ^ 3 < t -> t < hi ^ 3 -> 0 <= hi ->
  lo < b < hi.
Proof.
  intros Hb Hlo E Hl Hh Hhi. simpl in *. split.
  - destruct (Rlt_dec lo b) as [| H]; [assumption | exfalso].
    assert (b * b <= lo * lo) by nra.
    assert (b * (b * b) <= lo * (lo * lo)) by nra. lra.
  - destruct (Rlt_dec b hi) as [| H]; [assumption | exfalso].
    assert (hi * hi <= b * b) by nra.
    assert (hi * (hi * hi) <= b * (b * b)) by nra. lra.
Qed.

Lemma first_boundary_sample :
  exists b,
    dget (rmaxs (fom_make_resolution_shells (Fin 0.1) (Fin 1) 10)) 0 = Fin b /\
    dget (rmins (fom_make_resolution_shells (Fin 0.1) (Fin 1) 10)) 1 = Fin b /\
    b ^ 3 = 0.1009 /\ 0.4655 < b < 0.4656.
Proof.
  assert (Hr : 0 <= 0.1 < 1) by lra.
  assert (Hn : (1 <= 10)%Z) by lia.
  pose proof (fom_make_resolution_shells_bounds 0.1 1 10 Hr Hn) as H.
  cbv zeta in H. destruct H as (_ & _ & _ & H).
  exists (shell_bound 0.1 1 10 1).
  assert (E : shell_bound 0.1 1 10 1 ^ 3 = 0.1009).
  { rewrite (shell_bound_cubed 0.1 1 10 Hr Hn). unfold shell_volume. simpl. lra. }
  split; [apply (H 0%nat); simpl; lia |].
  split; [apply (H 1%nat); simpl; lia |].
  split; [exact E |].
  apply (cube_between _ _ _ 0.1009);
    try lra; try apply cube_root_nonneg; simpl; lra.
Qed.

Lemma dpow_cube_any (x : R) : dpow (Fin x) 3 = Fin (x ^ 3).
Proof.
  destruct (Rle_dec 0 x) as [H | H]; [apply dpow_cube; assumption |].
  unfold dpow. rewrite (Reqb_false 3 0) by lra.
  rewrite (Rltb_false 0 x), (Reqb_false x 0) by lra.
  assert (E : Int_part 3 = 3%Z) by (symmetry; apply Int_part_spec; lra).
  rewrite E, Reqb_true by reflexivity. reflexivity.
Qed.

Lemma dpow_third_negative (t : R) : t < 0 -> dpow (Fin t) (1 / 3) = NaN.
Proof.
  intros H. unfold dpow. rewrite (Reqb_false (1 / 3) 0) by lra.
  rewrite (Rltb_false 0 t), (Reqb_false t 0) by lra.
  rewrite Reqb_false; [reflexivity |].
  intros E. assert (E3 : IZR (3 * Int_part (1 / 3)) = 1)
    by (rewrite mult_IZR, E; field).
  apply eq_IZR in E3. lia.
Qed.

(** C8, as the specification has it.  At d*_min = 0.1, d*_max = 1.0,
    N = 10 the boundary between shells 0 and 1 is the cube root of 0.1009,
    which is more than 0.001 above the stated 0.4642; and for rmin = -2,
    rmax = -1, N = 2 the boundary is not a number. *)
Lemma first_boundary_above_stated_value :
  (exists b,
     dget (rmins (fom_make_resolution_shells (Fin 0.1) (Fin 1) 10)) 1 = Fin b /\
     b ^ 3 = 0.001 + 0.0999 /\
     0.001 < b - 0.4642) /\
  dget (rmins (fom_make_resolution_shells (Fin (-2)) (Fin (-1)) 2)) 1 = NaN.
Proof.
  split.
  - destruct first_boundary_sample as (b & _ & H1 & H3 & Hb & _).
    exists b. repeat split; [assumption | lra | lra].
  - unfold fom_make_resolution_shells. natval. cbn [shells_loop repeat aset Nat.sub].
    unfold dget at 2. cbn [nth].
    rewrite !dpow_cube_any. unfold d_of_int. simpl.
    rewrite (Reqb_false 2 0) by lra. simpl.
    rewrite dpow_third_negative by lra. reflexivity.
Qed.

(** C8, amended.  For 0 <= rmin < rmax and N >= 1 the shells made divide
    [rmin, rmax] into N adjoining bins of equal reciprocal volume
    v = (rmax^3 - rmin^3)/N: shell i runs from the cube root of
    rmin^3 + i v to the cube root of rmin^3 + (i+1) v, the first bound is rmin
    and the last rmax.  For 0.1, 1.0 and N = 10 the boundary between shells 0
    and 1 is the cube root of 0.1009, between 0.4655 and 0.4656. *)
Theorem fom_make_resolution_shells_equal_volume :
  (forall (rmin rmax : R) (nsh : Z),
     0 <= rmin < rmax -> (1 <= nsh)%Z ->
     let s := fom_make_resolution_shells (Fin rmin) (Fin rmax) nsh in
     nshells s = nsh /\
     length (rmins s) = Z.to_nat nsh /\ length (rmaxs s) = Z.to_nat nsh /\
     shell_bound rmin rmax nsh 0 = rmin /\
     shell_bound rmin rmax nsh (Z.to_nat nsh) = rmax /\
     forall i, (i < Z.to_nat nsh)%nat ->
       dget (rmins s) i = Fin (shell_bound rmin rmax nsh i) /\
       dget (rmaxs s) i = Fin (shell_bound rmin rmax nsh (S i)) /\
       0 <= shell_bound rmin rmax nsh i /\
       shell_bound rmin rmax nsh i ^ 3
       = rmin ^ 3 + INR i * shell_volume rmin rmax nsh /\
       shell_bound rmin rmax nsh (S i) ^ 3 - shell_bound rmin rmax nsh i ^ 3
       = shell_volume rmin rmax nsh) /\
  (exists b,
     dget (rmaxs (fom_make_resolution_shells (Fin 0.1) (Fin 1) 10)) 0 = Fin b /\
     dget (rmins (fom_make_resolution_shells (Fin 0.1) (Fin 1) 10)) 1 = Fin b /\
     b ^ 3 = 0.1009 /\ 0.4655 < b < 0.4656).
Proof.
  split; [| exact first_boundary_sample].
  intros rmin rmax nsh Hr Hn.
  pose proof (fom_make_resolution_shells_bounds rmin rmax nsh Hr Hn) as H.
  cbv zeta in *. destruct H as (H1 & H2 & H3 & H4).
  repeat split; try assumption.
  - apply shell_bound_first; assumption.
  - apply shell_bound_last; assumption.
  - apply H4; assumption.
  - apply H4; assumption.
  - apply cube_root_nonneg.
  - apply shell_bound_cubed; assumption.
  - rewrite !shell_bound_cubed by assumption. rewrite S_INR. ring.
Qed.

Lemma fom_make_resolution_shells_witness :
  0 <= 0.1 < 1 /\ (1 <= 10)%Z /\
  nshells (fom_make_resolution_shells (Fin 0.1) (Fin 1) 10) = 10%Z /\
  shell_bound 0.1 1 10 0 = 0.1 /\ shell_bound 0.1 1 10 10 = 1.
Proof.
  assert (Hr : 0 <= 0.1 < 1) by lra.
  assert (Hn : (1 <= 10)%Z) by lia.
  split; [exact Hr |]. split; [exact Hn |].
  pose proof (proj1 fom_make_resolution_shells_equal_volume 0.1 1 10%Z Hr Hn) as H.
  cbv zeta in H. destruct H as (H1 & _ & _ & H4 & H5 & _).
  split; [exact H1 |]. split; [exact H4 | exact H5].
Defined.

(* ================================================================== *)
(** * fom.c: assignment of a reflection to a shell *)

Lemma dlt_dle (x y : double) : dlt x y = true -> dle x y = true.
Proof. unfold dlt, dle. destruct (dcmp x y) as [[] |]; auto. Qed.

Lemma dgt_not_dle (x y : double) :
  isnan x = false -> isnan y = false -> dgt x y = negb (dle x y).
Proof. intros Hx Hy. unfold dgt. apply dlt_false_dle; assumption. Qed.

(** What the search loop of [get_bin] gives: the first shell from [j] on
    that holds [d], or -1 when none of them does. *)
Lemma bin_search_spec (s : fom_shells) (d : double) :
  forall steps j,
    (bin_search s d j steps = (-1)%Z /\
     forall j', (j <= j' < j + steps)%nat ->
       dgt d (dget (rmins s) j') && dle d (dget (rmaxs s) j') = false) \/
    (exists j', (j <= j' < j + steps)%nat /\
       bin_search s d j steps = Z.of_nat j' /\
       dgt d (dget (rmins s) j') && dle d (dget (rmaxs s) j') = true /\
       forall j'', (j <= j'' < j')%nat ->
         dgt d (dget (rmins s) j'') && dle d (dget (rmaxs s) j'') = false).
Proof.
  induction steps as [| steps IH]; intros j; simpl.
  - left. split; [reflexivity | intros; lia].
  - destruct (dgt d (dget (rmins s) j) && dle d (dget (rmaxs s) j)) eqn:T.
    + right. exists j. repeat split; try lia; try assumption.
    + destruct (IH (S j)) as [[E H] | (j' & Hj' & E & Tj' & H)].
      * left. split; [assumption |]. intros j' Hj'.
        destruct (Nat.eq_dec j j') as [<- | Hne]; [assumption | apply H; lia].
      * right. exists j'. repeat split; try lia; try assumption.
        intros j'' Hj''.
        destruct (Nat.eq_dec j j'') as [<- | Hne]; [assumption | apply H; lia].
Qed.

Lemma bounds_monotone (b : nat -> R) (n : nat) :
  bounds_increase b n -> forall j j', (j <= j' <= n)%nat -> b j <= b j'.
Proof.
  intros Hb j j' [Hjj Hn]. induction Hjj as [| m Hjm IH].
  - lra.
  - specialize (Hb m ltac:(lia)). specialize (IH ltac:(lia)). lra.
Qed.

Section GetBin.

Variable resolution : UnitCell -> Z -> Z -> Z -> double.
Variables (s : fom_shells) (b : nat -> R).
Variables (refl : Reflection) (cell : UnitCell).
Hypothesis Hs : shells_adjoin s b.

Local Abbreviation n := (Z.to_nat (nshells s)).
Local Abbreviation d := (doubled_resolution resolution refl cell).

Lemma above_every_bound :
  isnan d = false ->
  (forall j, (j < n)%nat ->
     dgt d (dget (rmins s) j) && dle d (dget (rmaxs s) j) = false) ->
  dle d (Fin (b 0%nat)) = false ->
  forall j, (j <= n)%nat -> dgt d (Fin (b j)) = true.
Proof.
  intros Hd Hnone H0 j. induction j as [| j IH]; intros Hj.
  - rewrite dgt_not_dle, H0 by (assumption || reflexivity). reflexivity.
  - specialize (IH ltac:(lia)). specialize (Hnone j ltac:(lia)).
    destruct Hs as [_ Hb]. destruct (Hb j ltac:(lia)) as [Em Ex].
    rewrite Em, Ex, IH in Hnone. simpl in Hnone.
    rewrite dgt_not_dle, Hnone by (assumption || reflexivity). reflexivity.
Qed.

(** The three ways [get_bin] finds its shell. *)
Lemma get_bin_cases :
  isnan d = false ->
  exists j, (j < n)%nat /\
    get_bin resolution s refl cell = Returns (Z.of_nat j) /\
    ((j = 0%nat /\ dle d (Fin (b 0%nat)) = true /\
      forall j', (j' < n)%nat ->
        dgt d (Fin (b j')) && dle d (Fin (b (S j'))) = false) \/
     (j = 0%nat /\ dgt d (Fin (b n)) = true) \/
     (dgt d (Fin (b j)) = true /\ dle d (Fin (b (S j))) = true /\
      forall j', (j' < j)%nat ->
        dgt d (Fin (b j')) && dle d (Fin (b (S j'))) = false)).
Proof.
  intros Hd. destruct Hs as [Hn Hb].
  assert (Hn' : (1 <= n)%nat) by lia.
  unfold get_bin.
  destruct (bin_search_spec s d n 0) as [[E H] | (j & Hj & E & T & H)]; rewrite E.
  - exists 0%nat. split; [lia |].
    assert (H' : forall j', (j' < n)%nat ->
              dgt d (Fin (b j')) && dle d (Fin (b (S j'))) = false).
    { intros j' Hj'. destruct (Hb j' Hj') as [<- <-]. apply H; lia. }
    destruct (Hb 0%nat ltac:(lia)) as [E0 _]. rewrite E0.
    destruct (dle d (Fin (b 0%nat))) eqn:D0; simpl.
    + split; [reflexivity |]. left. auto.
    + assert (G : dgt d (Fin (b n)) = true).
      { apply above_every_bound; try assumption; try lia.
        intros j' Hj'. apply H; lia. }
      replace (Z.to_nat (nshells s - 1)) with (n - 1)%nat by lia.
      destruct (Hb (n - 1)%nat ltac:(lia)) as [_ Ex]. rewrite Ex.
      replace (S (n - 1)) with n by lia.
      unfold dge. rewrite (dlt_dle _ _ G). simpl.
      split; [reflexivity |]. right; left. auto.
  - exists j. split; [lia |].
    destruct (Hb j ltac:(lia)) as [Em Ex]. rewrite Em, Ex in T.
    apply andb_prop in T. destruct T as [T1 T2].
    assert (E1 : (Z.of_nat j =? -1)%Z = false) by lia.
    cbv zeta. repeat (rewrite !E1; simpl).
    split; [reflexivity |]. right; right. repeat split; try assumption.
    intros j' Hj'. destruct (Hb j' ltac:(lia)) as [<- <-]. apply H; lia.
Qed.

End GetBin.

Lemma run_loop_invariant {S : Type} (P : S -> Prop)
    (step : S -> nat -> outcome S) :
  (forall s i s', P s -> step s i = Returns s' -> P s') ->
  forall idx s s', P s -> run_loop step idx s = Returns s' -> P s'.
Proof.
  intros Hstep. induction idx as [| i idx IH]; intros s s' Hs H; simpl in H.
  - injection H as <-. assumption.
  - destruct (step s i) as [s1 |] eqn:E; simpl in H; [| discriminate].
    eapply IH; [| eassumption]. eapply Hstep; eassumption.
Qed.

Section NoSentinel.

Variable resolution : UnitCell -> Z -> Z -> Z -> double.
Variable find_equiv_in_list :
  RefList -> Z -> Z -> Z -> SymOpList -> option (Z * Z * Z).
Variable gsl_fit_linear : list double -> list double -> Z * double * double.

(** The [assert] at its end keeps [get_bin] from returning -1. *)
Lemma get_bin_never_sentinel (s : fom_shells) (refl : Reflection)
    (cell : UnitCell) (bin : Z) :
  get_bin resolution s refl cell = Returns bin -> (bin =? -1)%Z = false.
Proof.
  unfold get_bin. cbv zeta.
  match goal with |- context [assert (negb ?c)] => destruct c eqn:E end;
    simpl; [discriminate |].
  intros [= <-]. assumption.
Qed.

Lemma accumulate_step_n_out (list1 list2 : nat) (cell : UnitCell)
    (shells : fom_shells) (fom : fom_type) (sym : SymOpList)
    (st st' : store) (fctx fctx' : fom_context) (n_out n_out' : Z) (i : nat) :
  accumulate_step resolution find_equiv_in_list list1 list2 cell shells fom sym
    (st, fctx, n_out) i = Returns (st', fctx', n_out') ->
  n_out' = n_out.
Proof.
  unfold accumulate_step.
  destruct (nth_error (st list1) i) as [refl1 |]; [| intros [= _ _ <-]; reflexivity].
  destruct (get_indices refl1) as [[h k] l].
  destruct (find_refl_idx (st list2) h k l) as [i2 |];
    [| intros [= _ _ <-]; reflexivity].
  destruct (nth_error (st list2) i2) as [refl2 |];
    [| intros [= _ _ <-]; reflexivity].
  destruct (get_bin resolution shells refl1 cell) as [bin |] eqn:B;
    simpl; [| discriminate].
  rewrite (get_bin_never_sentinel _ _ _ _ B).
  destruct (is_anomalous fom).
  - destruct (get_flag refl1); [intros [= _ _ <-]; reflexivity |].
    destruct (get_flag refl2); simpl; [discriminate |].
    destruct (bijvoet_partner _ _ _ _ _ _ _) as [b1 |]; [| discriminate].
    destruct (bijvoet_partner _ _ _ _ _ _ _) as [b2 |]; [| discriminate].
    destruct (nth_error _ b1); [| discriminate].
    destruct (nth_error _ b2); [| discriminate].
    destruct (add_to_fom _ _ _ _ _ _ _ _); simpl; [| discriminate].
    intros [= _ _ <-]; reflexivity.
  - destruct (add_to_fom _ _ _ _ _ _ _ _); simpl; [| discriminate].
    intros [= _ _ <-]; reflexivity.
Qed.

(** The count of "reflection pairs outside range" stays 0. *)
Lemma fom_calculate_n_out (st st' : store) (list1 list2 : nat) (cell : UnitCell)
    (shells : fom_shells) (fom : fom_type) (noscale : bool) (sym : SymOpList)
    (ctx : option fom_context) (n_out : Z) :
  fom_calculate resolution find_equiv_in_list gsl_fit_linear st list1 list2
    cell shells fom noscale sym = Returns (st', ctx, n_out) ->
  n_out = 0%Z.
Proof.
  unfold fom_calculate.
  match goal with |- context [bind ?m _] => destruct m as [[failed st1] |] end;
    simpl; [| discriminate].
  destruct failed; [intros [= _ _ <-]; reflexivity |].
  destruct (run_loop (clear_flags_step list1 list2) _ st1) as [st2 |];
    simpl; [| discriminate].
  match goal with
  | |- context [bind (run_loop ?f ?idx ?s0) _] =>
      destruct (run_loop f idx s0) as [[[st3 fctx3] n3] |] eqn:E
  end; simpl; [| discriminate].
  intros [= _ _ <-].
  apply (run_loop_invariant (fun s : acc_state => snd s = 0%Z)) in E;
    [exact E | | reflexivity].
  intros [[sa fa] na] i [[sb fb] nb] Ha Hstep. simpl in *.
  apply accumulate_step_n_out in Hstep. congruence.
Qed.

End NoSentinel.

Lemma sample_shells_adjoin : shells_adjoin sample_shells sample_bounds.
Proof.
  split; [simpl; lia |].
  intros [| [| j]] Hj; simpl in *; try lia; split; reflexivity.
Qed.

(** The shells that [fom_make_resolution_shells] makes adjoin, and their
    bounds grow. *)
Lemma fom_make_resolution_shells_adjoin (rmin rmax : R) (nsh : Z) :
  0 <= rmin < rmax -> (1 <= nsh)%Z ->
  shells_adjoin (fom_make_resolution_shells (Fin rmin) (Fin rmax) nsh)
    (shell_bound rmin rmax nsh) /\
  bounds_increase (shell_bound rmin rmax nsh) (Z.to_nat nsh).
Proof.
  intros Hr Hn.
  pose proof (fom_make_resolution_shells_bounds rmin rmax nsh Hr Hn) as H.
  cbv zeta in H. destruct H as (H1 & _ & _ & H4).
  split.
  - split; [rewrite H1; assumption |]. rewrite H1. exact H4.
  - intros j Hj.
    pose proof (shell_bound_cubed rmin rmax nsh Hr Hn j) as Cj.
    pose proof (shell_bound_cubed rmin rmax nsh Hr Hn (S j)) as Cs.
    pose proof (shell_volume_pos rmin rmax nsh Hr Hn) as Hv.
    pose proof (cube_root_nonneg (rmin ^ 3 + INR j * shell_volume rmin rmax nsh)) as Pj.
    pose proof (cube_root_nonneg (rmin ^ 3 + INR (S j) * shell_volume rmin rmax nsh)) as Ps.
    fold (shell_bound rmin rmax nsh j) in Pj.
    fold (shell_bound rmin rmax nsh (S j)) in Ps.
    rewrite S_INR in Cs.
    set (x := shell_bound rmin rmax nsh j) in *.
    set (y := shell_bound rmin rmax nsh (S j)) in *.
    destruct (Rlt_dec x y) as [| Hge]; [assumption | exfalso].
    simpl in Cj, Cs.
    assert (y * y <= x * x) by nra.
    assert (y * (y * y) <= x * (x * x)) by nra.
    nra.
Qed.

(** C9.  For shells that adjoin and have a width, a reflection whose
    (doubled) resolution x lies in [b_0, b_n] is given a shell j that the
    resolution lies in; it is the only shell (b_j', b_(j'+1)] holding x, and
    an x on the boundary between shells j' and j'+1 gets the lower one, j'. *)
Theorem get_bin_one_shell :
  forall (resolution : UnitCell -> Z -> Z -> Z -> double)
         (s : fom_shells) (b : nat -> R) (refl : Reflection) (cell : UnitCell)
         (x : R),
    shells_adjoin s b ->
    bounds_increase b (Z.to_nat (nshells s)) ->
    doubled_resolution resolution refl cell = Fin x ->
    b 0%nat <= x <= b (Z.to_nat (nshells s)) ->
    exists j,
      get_bin resolution s refl cell = Returns (Z.of_nat j) /\
      (j < Z.to_nat (nshells s))%nat /\
      b j <= x <= b (S j) /\
      (forall j', (j' < Z.to_nat (nshells s))%nat ->
         b j' < x <= b (S j') -> j' = j) /\
      (forall j', (S j' < Z.to_nat (nshells s))%nat -> x = b (S j') -> j = j').
Proof.
  intros resolution s b refl cell x Hs Hb Hd Hx.
  set (n := Z.to_nat (nshells s)) in *.
  assert (Hmono := bounds_monotone b n Hb).
  assert (Huniq : forall j j', (j < n)%nat -> (j' < n)%nat ->
            b j < x <= b (S j) -> b j' < x <= b (S j') -> j' = j).
  { intros j j' Hj Hj' Hxj Hxj'.
    destruct (Nat.lt_trichotomy j j') as [L | [E | L]]; [exfalso | auto | exfalso].
    - pose proof (Hmono (S j) j' ltac:(lia)). lra.
    - pose proof (Hmono (S j') j ltac:(lia)). lra. }
  destruct (get_bin_cases resolution s b refl cell Hs) as (j & Hj & E & C).
  { rewrite Hd; reflexivity. }
  fold n in Hj. rewrite Hd in C. fold n in C.
  exists j. split; [exact E |]. split; [exact Hj |].
  destruct C as [(-> & D0 & _) | [(-> & Dn) | (D1 & D2 & _)]].
  - apply dle_Fin in D0. assert (Ex : x = b 0%nat) by lra.
    pose proof (Hb 0%nat Hj). split; [lra |]. split.
    + intros j' Hj' Hxj'. pose proof (Hmono 0%nat j' ltac:(lia)). lra.
    + intros j' Hj' Hxj'. pose proof (Hmono 0%nat j' ltac:(lia)).
      pose proof (Hb j' ltac:(lia)). lra.
  - apply dlt_Fin in Dn. exfalso. lra.
  - apply dlt_Fin in D1. apply dle_Fin in D2. split; [lra |]. split.
    + intros j' Hj' Hxj'. apply Huniq; auto.
    + intros j' Hj' Hxj'. symmetry. apply Huniq; auto; try lia.
      pose proof (Hb j' ltac:(lia)). lra.
Qed.

Lemma get_bin_one_shell_witness :
  let s := fom_make_resolution_shells (Fin 0) (Fin 4) 2 in
  let b := shell_bound 0 4 2 in
  let refl := sample_refl 2 100 1 1 1 false false in
  shells_adjoin s b /\
  bounds_increase b (Z.to_nat (nshells s)) /\
  doubled_resolution sample_resolution refl sample_cell = Fin 4 /\
  b 0%nat <= 4 <= b (Z.to_nat (nshells s)) /\
  exists j, get_bin sample_resolution s refl sample_cell = Returns (Z.of_nat j) /\
            (j < Z.to_nat (nshells s))%nat /\ b j <= 4 <= b (S j).
Proof.
  cbv zeta.
  assert (Hr : 0 <= 0 < 4) by lra.
  assert (Hn : (1 <= 2)%Z) by lia.
  destruct (fom_make_resolution_shells_adjoin 0 4 2 Hr Hn) as [Ha Hi].
  assert (Hs : nshells (fom_make_resolution_shells (Fin 0) (Fin 4) 2) = 2%Z)
    by reflexivity.
  rewrite Hs.
  assert (Hd : doubled_resolution sample_resolution
                 (sample_refl 2 100 1 1 1 false false) sample_cell = Fin 4).
  { unfold doubled_resolution, sample_resolution. simpl. f_equal; lra. }
  assert (Hx : shell_bound 0 4 2 0 <= 4 <= shell_bound 0 4 2 (Z.to_nat 2)).
  { rewrite (shell_bound_first 0 4 2 Hr), (shell_bound_last 0 4 2 Hr Hn). lra. }
  split; [exact Ha |]. split; [exact Hi |]. split; [exact Hd |].
  split; [exact Hx |].
  rewrite <- Hs in Hi, Hx.
  destruct (get_bin_one_shell sample_resolution _ _ _ sample_cell 4 Ha Hi Hd Hx)
    as (j & E & Hj & Hin & _).
  rewrite Hs in Hj. exists j. auto.
Defined.

(** The shells made for [0, 4] with N = 2: bounds 0, the cube root of 32
    (between 3 and 3.2) and 4. *)
Lemma made_shells_bounds :
  shells_adjoin (fom_make_resolution_shells (Fin 0) (Fin 4) 2) (shell_bound 0 4 2) /\
  shell_bound 0 4 2 0 = 0 /\
  3 < shell_bound 0 4 2 1 < 3.2 /\
  shell_bound 0 4 2 2 = 4.
Proof.
  assert (Hr : 0 <= 0 < 4) by lra.
  assert (Hn : (1 <= 2)%Z) by lia.
  split; [apply fom_make_resolution_shells_adjoin; assumption |].
  split; [apply shell_bound_first; assumption |].
  split; [| apply (shell_bound_last 0 4 2 Hr Hn)].
  apply (cube_between _ _ _ 32); try lra; try apply cube_root_nonneg;
    try (simpl; lra).
  rewrite (shell_bound_cubed 0 4 2 Hr Hn). unfold shell_volume. simpl. lra.
Qed.

Lemma get_bin_made_low :
  get_bin sample_resolution (fom_make_resolution_shells (Fin 0) (Fin 4) 2)
    (sample_refl 1 100 1 1 1 false false) sample_cell = Returns 0%Z.
Proof.
  destruct made_shells_bounds as (Ha & B0 & B1 & B2).
  assert (Hd : doubled_resolution sample_resolution
                 (sample_refl 1 100 1 1 1 false false) sample_cell = Fin 2).
  { unfold doubled_resolution, sample_resolution. simpl. f_equal; lra. }
  destruct (get_bin_cases sample_resolution _ _
              (sample_refl 1 100 1 1 1 false false) sample_cell Ha)
    as (j & Hj & E & C).
  { rewrite Hd; reflexivity. }
  rewrite E. rewrite Hd in C.
  destruct C as [(-> & _) | [(-> & _) | (D1 & _)]]; try reflexivity.
  apply dlt_Fin in D1.
  destruct j as [| [| j]]; [reflexivity | exfalso; lra |].
  simpl in Hj. lia.
Qed.

Lemma get_bin_made_high :
  get_bin sample_resolution (fom_make_resolution_shells (Fin 0) (Fin 4) 2)
    (sample_refl 2 100 1 1 1 false false) sample_cell = Returns 1%Z.
Proof.
  destruct made_shells_bounds as (Ha & B0 & B1 & B2).
  assert (Hd : doubled_resolution sample_resolution
                 (sample_refl 2 100 1 1 1 false false) sample_cell = Fin 4).
  { unfold doubled_resolution, sample_resolution. simpl. f_equal; lra. }
  destruct (get_bin_cases sample_resolution _ _
              (sample_refl 2 100 1 1 1 false false) sample_cell Ha)
    as (j & Hj & E & C).
  { rewrite Hd; reflexivity. }
  rewrite E. rewrite Hd in C.
  change (Z.to_nat (nshells (fom_make_resolution_shells (Fin 0) (Fin 4) 2)))
    with 2%nat in C, Hj.
  destruct C as [(-> & D0 & _) | [(-> & Dn) | (_ & D2 & _)]].
  - apply dle_Fin in D0. exfalso; lra.
  - apply dlt_Fin in Dn. exfalso; lra.
  - apply dle_Fin in D2.
    destruct j as [| [| j]]; [exfalso; lra | reflexivity | lia].
Qed.

(** A resolution that is not a number stops the program in [get_bin]. *)
Lemma get_bin_nan (resolution : UnitCell -> Z -> Z -> Z -> double)
    (s : fom_shells) (refl : Reflection) (cell : UnitCell) :
  doubled_resolution resolution refl cell = NaN ->
  get_bin resolution s refl cell = Aborts.
Proof.
  intros Hd. unfold get_bin. rewrite Hd. cbv zeta.
  destruct (bin_search_spec s NaN (Z.to_nat (nshells s)) 0)
    as [[E _] | (j & _ & _ & T & _)].
  - rewrite E. unfold dge. rewrite dle_NaN_l, dle_NaN_r. reflexivity.
  - unfold dgt in T. rewrite dlt_NaN_r in T. discriminate.
Qed.

(** C10, as stated.  With the two shells made for [0, 4], a doubled
    resolution of exactly 4, the upper bound of the last shell, gets shell 1,
    not shell 0; and a resolution that is not a number gets no shell. *)
Lemma get_bin_at_highest_boundary :
  (dget (rmaxs (fom_make_resolution_shells (Fin 0) (Fin 4) 2)) 1 = Fin 4 /\
   doubled_resolution sample_resolution (sample_refl 2 100 1 1 1 false false)
     sample_cell = Fin 4 /\
   get_bin sample_resolution (fom_make_resolution_shells (Fin 0) (Fin 4) 2)
     (sample_refl 2 100 1 1 1 false false) sample_cell = Returns 1%Z) /\
  get_bin nan_resolution (fom_make_resolution_shells (Fin 0) (Fin 4) 2)
    (sample_refl 2 100 1 1 1 false false) sample_cell = Aborts.
Proof.
  split; [split; [| split] |].
  - destruct made_shells_bounds as ((_ & Hb) & _ & _ & B2).
    destruct (Hb 1%nat) as [_ ->]; [simpl; lia |]. rewrite B2. reflexivity.
  - unfold doubled_resolution, sample_resolution. simpl. f_equal; lra.
  - exact get_bin_made_high.
  - apply get_bin_nan. reflexivity.
Qed.

(** C10, amended.  For shells that adjoin and a (doubled) resolution that is
    a number, [get_bin] returns a shell index in [0, nshells).  With bounds
    that grow, a resolution at or below the lowest bound, or above the
    highest, gets shell 0, and one exactly at the highest bound gets the
    last shell.  [get_bin] never returns -1 (its [assert] stops the program
    first), so the count of pairs outside the range in [fom_calculate]
    stays 0. *)
Theorem get_bin_total :
  (forall (resolution : UnitCell -> Z -> Z -> Z -> double) (s : fom_shells)
          (b : nat -> R) (refl : Reflection) (cell : UnitCell),
     shells_adjoin s b ->
     isnan (doubled_resolution resolution refl cell) = false ->
     exists bin, get_bin resolution s refl cell = Returns bin /\
                 (0 <= bin < nshells s)%Z) /\
  (forall (resolution : UnitCell -> Z -> Z -> Z -> double) (s : fom_shells)
          (b : nat -> R) (refl : Reflection) (cell : UnitCell) (x : R),
     shells_adjoin s b ->
     bounds_increase b (Z.to_nat (nshells s)) ->
     doubled_resolution resolution refl cell = Fin x ->
     (x <= b 0%nat -> get_bin resolution s refl cell = Returns 0%Z) /\
     (b (Z.to_nat (nshells s)) < x ->
      get_bin resolution s refl cell = Returns 0%Z) /\
     (x = b (Z.to_nat (nshells s)) ->
      get_bin resolution s refl cell = Returns (nshells s - 1)%Z)) /\
  (forall (resolution : UnitCell -> Z -> Z -> Z -> double) (s : fom_shells)
          (refl : Reflection) (cell : UnitCell) (bin : Z),
     get_bin resolution s refl cell = Returns bin -> bin <> (-1)%Z) /\
  (forall (resolution : UnitCell -> Z -> Z -> Z -> double)
          (find_equiv_in_list :
             RefList -> Z -> Z -> Z -> SymOpList -> option (Z * Z * Z))
          (gsl_fit_linear : list double -> list double -> Z * double * double)
          (st st' : store) (list1 list2 : nat) (cell : UnitCell)
          (shells : fom_shells) (fom : fom_type) (noscale : bool)
          (sym : SymOpList) (ctx : option fom_context) (n_out : Z),
     fom_calculate resolution find_equiv_in_list gsl_fit_linear st list1 list2
       cell shells fom noscale sym = Returns (st', ctx, n_out) ->
     n_out = 0%Z).
Proof.
  split; [| split; [| split]].
  - intros resolution s b refl cell Hs Hd.
    destruct (get_bin_cases resolution s b refl cell Hs Hd) as (j & Hj & E & _).
    exists (Z.of_nat j). split; [exact E | lia].
  - intros resolution s b refl cell x Hs Hb Hd.
    set (n := Z.to_nat (nshells s)) in *.
    assert (Hmono := bounds_monotone b n Hb).
    destruct (get_bin_cases resolution s b refl cell Hs) as (j & Hj & E & C).
    { rewrite Hd; reflexivity. }
    fold n in Hj. rewrite Hd in C. fold n in C. rewrite E.
    assert (Hn : Z.of_nat n = nshells s) by (destruct Hs; unfold n; lia).
    destruct C as [(-> & D0 & _) | [(-> & Dn) | (D1 & D2 & _)]].
    + apply dle_Fin in D0.
      split; [reflexivity |]. split; [reflexivity |].
      intros ->. exfalso.
      pose proof (Hb 0%nat ltac:(lia)). pose proof (Hmono 1%nat n ltac:(lia)). lra.
    + apply dlt_Fin in Dn.
      split; [reflexivity |]. split; [reflexivity |].
      intros ->. exfalso. lra.
    + apply dlt_Fin in D1. apply dle_Fin in D2.
      pose proof (Hmono 0%nat j ltac:(lia)).
      pose proof (Hmono (S j) n ltac:(lia)).
      split; [intros Hx; exfalso; lra |]. split; [intros Hx; exfalso; lra |].
      intros ->. f_equal.
      destruct (Nat.eq_dec (S j) n) as [| Hne]; [lia | exfalso].
      pose proof (Hb (S j) ltac:(lia)). pose proof (Hmono (S (S j)) n ltac:(lia)).
      lra.
  - intros resolution s refl cell bin H.
    apply get_bin_never_sentinel in H. lia.
  - intros. eapply fom_calculate_n_out; eassumption.
Qed.

Lemma get_bin_total_witness :
  shells_adjoin sample_shells sample_bounds /\
  isnan (doubled_resolution sample_resolution
           (sample_refl 3 100 1 1 1 false false) sample_cell) = false /\
  exists bin,
    get_bin sample_resolution sample_shells
      (sample_refl 3 100 1 1 1 false false) sample_cell = Returns bin /\
    (0 <= bin < nshells sample_shells)%Z.
Proof.
  split; [exact sample_shells_adjoin |]. split; [reflexivity |].
  exact (proj1 get_bin_total sample_resolution sample_shells sample_bounds
           (sample_refl 3 100 1 1 1 false false) sample_cell
           sample_shells_adjoin eq_refl).
Defined.

(* ================================================================== *)
(** * fom.c: Wilson scaling *)

Lemma usable_test (I1 I2 : double) :
  positive_finite I1 && positive_finite I2
  = negb (dle I1 (Fin 0) || dle I2 (Fin 0))
    && negb (isnan I1 || isinf I1) && negb (isnan I2 || isinf I2).
Proof.
  assert (P : forall I, positive_finite I
                        = negb (dle I (Fin 0)) && negb (isnan I || isinf I)).
  { intros [a | [|] |]; simpl; try reflexivity.
    unfold dle, dcmp. Rcases; try reflexivity; lra. }
  rewrite !P.
  destruct (dle I1 (Fin 0)), (dle I2 (Fin 0)), (isnan I1 || isinf I1),
    (isnan I2 || isinf I2); reflexivity.
Qed.

Section Wilson.

Variable resolution : UnitCell -> Z -> Z -> Z -> double.
Variable find_equiv_in_list :
  RefList -> Z -> Z -> Z -> SymOpList -> option (Z * Z * Z).
Variable gsl_fit_linear : list double -> list double -> Z * double * double.

(** The first loop collects the usable pairs, in the order of list 1. *)
Lemma wilson_points_usable (list2 : RefList) (cell : UnitCell) :
  forall (l1 : RefList) (x y : list double),
    (forall refl1, In refl1 l1 ->
       find_refl list2 (get_h refl1) (get_k refl1) (get_l refl1) <> None) ->
    wilson_points resolution l1 list2 cell x y
    = Returns (x ++ fit_x resolution cell (usable_pairs l1 list2),
               y ++ fit_y (usable_pairs l1 list2)).
Proof.
  induction l1 as [| refl1 rest IH]; intros x y Hin.
  - simpl. rewrite !app_nil_r. reflexivity.
  - cbn [wilson_points]. unfold get_indices.
    destruct (find_refl list2 (get_h refl1) (get_k refl1) (get_l refl1))
      as [refl2 |] eqn:F.
    2:{ exfalso. apply (Hin refl1); [left; reflexivity | assumption]. }
    assert (U : usable_pairs (refl1 :: rest) list2
                = (if positive_finite (get_intensity refl1)
                      && positive_finite (get_intensity refl2)
                   then [(refl1, refl2)] else [])
                  ++ usable_pairs rest list2).
    { unfold usable_pairs, common_pairs. cbn [flat_map]. rewrite F.
      cbn [app filter fst snd].
      destruct (positive_finite (get_intensity refl1)
                && positive_finite (get_intensity refl2)); reflexivity. }
    rewrite U, usable_test.
    destruct (dle (get_intensity refl1) (Fin 0) || dle (get_intensity refl2) (Fin 0));
      [apply IH; intros; apply Hin; right; assumption |].
    destruct (isnan (get_intensity refl1) || isinf (get_intensity refl1));
      [apply IH; intros; apply Hin; right; assumption |].
    destruct (isnan (get_intensity refl2) || isinf (get_intensity refl2));
      [apply IH; intros; apply Hin; right; assumption |].
    rewrite IH by (intros; apply Hin; right; assumption).
    cbn [negb andb app fit_x fit_y map fst snd]. rewrite <- !app_assoc. reflexivity.
Qed.

(** What a successful [wilson_scale] leaves in the store. *)
Lemma wilson_scale_success (st st' : store) (list1 list2 : nat) (cell : UnitCell) :
  wilson_scale resolution gsl_fit_linear st list1 list2 cell = Returns (0%Z, st') ->
  exists x y c0 c1,
    wilson_points resolution (st list1) (st list2) cell [] [] = Returns (x, y) /\
    (2 <= length x)%nat /\
    gsl_fit_linear x y = (0%Z, c0, c1) /\
    st' = st_set st list2
            (map (wilson_apply resolution (dexp c0) (ddiv c1 (Fin 2)) cell)
                 (st list2)).
Proof.
  unfold wilson_scale.
  destruct (wilson_points resolution (st list1) (st list2) cell [] [])
    as [[x y] |]; simpl; [| discriminate].
  destruct (Nat.ltb_spec (length x) 2); [discriminate |].
  destruct (gsl_fit_linear x y) as [[r c0] c1] eqn:F.
  destruct (Z.eqb_spec r 0) as [-> |]; simpl; [| discriminate].
  intros [= <-]. exists x, y, c0, c1. auto.
Qed.

End Wilson.

Lemma wilson_points_found
    (resolution : UnitCell -> Z -> Z -> Z -> double)
    (list2 : RefList) (cell : UnitCell) :
  forall (l1 : RefList) (x y : list double) r,
    wilson_points resolution l1 list2 cell x y = Returns r ->
    forall refl1, In refl1 l1 ->
      find_refl list2 (get_h refl1) (get_k refl1) (get_l refl1) <> None.
Proof.
  induction l1 as [| a rest IH]; intros x y r H refl1 Hin; [destruct Hin |].
  cbn [wilson_points] in H. unfold get_indices in H.
  destruct (find_refl list2 (get_h a) (get_k a) (get_l a)) as [refl2 |] eqn:F;
    [| discriminate].
  destruct Hin as [<- | Hin]; [congruence |].
  destruct (dle (get_intensity a) (Fin 0) || dle (get_intensity refl2) (Fin 0));
    [eapply IH; eassumption |].
  destruct (isnan (get_intensity a) || isinf (get_intensity a));
    [eapply IH; eassumption |].
  destruct (isnan (get_intensity refl2) || isinf (get_intensity refl2));
    eapply IH; eassumption.
Qed.

Lemma st_set_same (st : store) (p : nat) (l : RefList) : st_set st p l p = l.
Proof. unfold st_set. rewrite Nat.eqb_refl. reflexivity. Qed.

Lemma st_set_other (st : store) (p q : nat) (l : RefList) :
  q <> p -> st_set st p l q = st q.
Proof.
  intros H. unfold st_set. destruct (Nat.eqb_spec q p); [contradiction | reflexivity].
Qed.

(** C5.  When [wilson_scale] succeeds, the store differs from the one
    before in list 2 only (so a list 1 that is another list keeps every
    intensity and sigma); every reflection of list 2 has its intensity and
    its sigma multiplied by G exp(2 B res res) for its own resolution, with
    G = exp(c0) and B = c1/2 of the fit over the usable pairs, and keeps its
    other fields. *)
Theorem wilson_scale_frame :
  forall (resolution : UnitCell -> Z -> Z -> Z -> double)
         (gsl_fit_linear : list double -> list double -> Z * double * double)
         (st st' : store) (list1 list2 : nat) (cell : UnitCell),
    wilson_scale resolution gsl_fit_linear st list1 list2 cell
    = Returns (0%Z, st') ->
    exists G B c0 c1,
      gsl_fit_linear
        (fit_x resolution cell (usable_pairs (st list1) (st list2)))
        (fit_y (usable_pairs (st list1) (st list2))) = (0%Z, c0, c1) /\
      G = dexp c0 /\ B = ddiv c1 (Fin 2) /\
      (forall p, p <> list2 -> st' p = st p) /\
      (list1 <> list2 -> st' list1 = st list1) /\
      length (st' list2) = length (st list2) /\
      forall i refl2,
        nth_error (st list2) i = Some refl2 ->
        exists refl2',
          nth_error (st' list2) i = Some refl2' /\
          get_intensity refl2'
          = dmul (get_intensity refl2) (wilson_factor resolution G B cell refl2) /\
          get_esd_intensity refl2'
          = dmul (get_esd_intensity refl2) (wilson_factor resolution G B cell refl2) /\
          get_indices refl2' = get_indices refl2 /\
          get_partiality refl2' = get_partiality refl2 /\
          get_redundancy refl2' = get_redundancy refl2 /\
          get_scalable refl2' = get_scalable refl2 /\
          get_refinable refl2' = get_refinable refl2 /\
          get_flag refl2' = get_flag refl2.
Proof.
  intros resolution gsl_fit_linear st st' list1 list2 cell H.
  apply wilson_scale_success in H.
  destruct H as (x & y & c0 & c1 & Hp & _ & Hfit & ->).
  pose proof (wilson_points_found _ _ _ _ _ _ _ Hp) as Hin.
  rewrite (wilson_points_usable resolution (st list2) cell (st list1) [] [] Hin)
    in Hp.
  simpl in Hp. injection Hp as <- <-.
  exists (dexp c0), (ddiv c1 (Fin 2)), c0, c1.
  split; [exact Hfit |]. split; [reflexivity |]. split; [reflexivity |].
  split; [intros p Hp; apply st_set_other; assumption |].
  split; [intros Hne; apply st_set_other; assumption |].
  rewrite st_set_same. split; [apply length_map |].
  intros i refl2 Hi. eexists. split.
  - rewrite nth_error_map, Hi. reflexivity.
  - unfold wilson_apply, wilson_factor, get_indices. simpl. repeat split.
Qed.

Lemma wilson_scale_frame_witness :
  exists st',
    wilson_scale sample_resolution sample_fit sample_store 0 1 sample_cell
    = Returns (0%Z, st') /\
    (forall p, p <> 1%nat -> st' p = sample_store p) /\
    length (st' 1%nat) = length (sample_store 1%nat).
Proof.
  assert (E : exists st',
            wilson_scale sample_resolution sample_fit sample_store 0 1 sample_cell
            = Returns (0%Z, st')).
  { eexists. unfold wilson_scale, sample_store, sample_pair_list, sample_refl,
      sample_resolution, sample_fit. deval. reflexivity. }
  destruct E as [st' E]. exists st'. split; [exact E |].
  destruct (wilson_scale_frame sample_resolution sample_fit sample_store st'
              0 1 sample_cell E)
    as (G & B & c0 & c1 & _ & _ & _ & H1 & _ & H2 & _).
  split; [exact H1 | exact H2].
Defined.

(** When both arguments name the same list, that list is the one scaled. *)
Lemma wilson_scale_same_list
    (resolution : UnitCell -> Z -> Z -> Z -> double)
    (gsl_fit_linear : list double -> list double -> Z * double * double)
    (st st' : store) (p : nat) (cell : UnitCell) :
  wilson_scale resolution gsl_fit_linear st p p cell = Returns (0%Z, st') ->
  exists c0 c1,
    st' p = map (wilson_apply resolution (dexp c0) (ddiv c1 (Fin 2)) cell) (st p).
Proof.
  intros H. apply wilson_scale_success in H.
  destruct H as (x & y & c0 & c1 & _ & _ & _ & ->).
  exists c0, c1. apply st_set_same.
Qed.

(** C4.  With every reflection of list 1 present in list 2 (the code
    asserts it), [wilson_scale] fails, and then [fom_calculate] returns no
    context, exactly when fewer than two usable pairs (both intensities
    positive and finite) are there or the linear fit reports a failure;
    otherwise the fit is made of log(I1/I2) against res^2 over those pairs,
    the scaling succeeds and [fom_calculate] goes on to return a context. *)
Theorem wilson_scale_failure :
  forall (resolution : UnitCell -> Z -> Z -> Z -> double)
         (find_equiv_in_list :
            RefList -> Z -> Z -> Z -> SymOpList -> option (Z * Z * Z))
         (gsl_fit_linear : list double -> list double -> Z * double * double)
         (st : store) (list1 list2 : nat) (cell : UnitCell),
    (forall refl1, In refl1 (st list1) ->
       find_refl (st list2) (get_h refl1) (get_k refl1) (get_l refl1) <> None) ->
    let pairs := usable_pairs (st list1) (st list2) in
    let fit := gsl_fit_linear (fit_x resolution cell pairs) (fit_y pairs) in
    ((length pairs < 2)%nat \/ fst (fst fit) <> 0%Z ->
     wilson_scale resolution gsl_fit_linear st list1 list2 cell
     = Returns (1%Z, st) /\
     forall shells fom sym,
       fom_calculate resolution find_equiv_in_list gsl_fit_linear st list1 list2
         cell shells fom false sym = Returns (st, None, 0%Z)) /\
    (~ ((length pairs < 2)%nat \/ fst (fst fit) <> 0%Z) ->
     wilson_scale resolution gsl_fit_linear st list1 list2 cell
     = Returns (0%Z, st_set st list2
                       (map (wilson_apply resolution (dexp (snd (fst fit)))
                               (ddiv (snd fit) (Fin 2)) cell) (st list2))) /\
     forall shells fom sym result,
       fom_calculate resolution find_equiv_in_list gsl_fit_linear st list1 list2
         cell shells fom false sym = Returns result ->
       snd (fst result) <> None).
Proof.
  intros resolution find_equiv_in_list gsl_fit_linear st list1 list2 cell Hin
    pairs fit.
  assert (W : wilson_scale resolution gsl_fit_linear st list1 list2 cell
              = if (length pairs <? 2)%nat then Returns (1%Z, st)
                else if negb (fst (fst fit) =? 0)%Z then Returns (1%Z, st)
                else Returns (0%Z, st_set st list2
                       (map (wilson_apply resolution (dexp (snd (fst fit)))
                               (ddiv (snd fit) (Fin 2)) cell) (st list2)))).
  { unfold wilson_scale.
    rewrite (wilson_points_usable resolution (st list2) cell (st list1) [] [] Hin).
    simpl. unfold fit_x at 1. rewrite length_map. fold pairs.
    destruct (length pairs <? 2)%nat; [reflexivity |].
    fold fit. destruct fit as [[r c0] c1]. simpl.
    destruct (r =? 0)%Z; reflexivity. }
  split.
  - intros F.
    assert (W1 : wilson_scale resolution gsl_fit_linear st list1 list2 cell
                 = Returns (1%Z, st)).
    { rewrite W. destruct (Nat.ltb_spec (length pairs) 2); [reflexivity |].
      destruct (Z.eqb_spec (fst (fst fit)) 0); [| reflexivity].
      exfalso. destruct F; [lia | contradiction]. }
    split; [exact W1 |]. intros shells fom sym.
    unfold fom_calculate. rewrite W1. reflexivity.
  - intros F.
    assert (W0 : wilson_scale resolution gsl_fit_linear st list1 list2 cell
                 = Returns (0%Z, st_set st list2
                       (map (wilson_apply resolution (dexp (snd (fst fit)))
                               (ddiv (snd fit) (Fin 2)) cell) (st list2)))).
    { rewrite W. destruct (Nat.ltb_spec (length pairs) 2); [exfalso; tauto |].
      destruct (Z.eqb_spec (fst (fst fit)) 0); [reflexivity | exfalso; tauto]. }
    split; [exact W0 |]. intros shells fom sym result.
    unfold fom_calculate. rewrite W0. simpl.
    match goal with
    | |- context [bind (run_loop ?f ?idx ?s0) _] =>
        destruct (run_loop f idx s0) as [st2 |]
    end; simpl; [| discriminate].
    match goal with
    | |- context [bind (run_loop ?f ?idx ?s0) _] =>
        destruct (run_loop f idx s0) as [[[st3 fctx3] n3] |]
    end; simpl; [| discriminate].
    intros [= <-]. simpl. discriminate.
Qed.

Lemma wilson_scale_failure_witness :
  (forall refl1, In refl1 (sample_store 0%nat) ->
     find_refl (sample_store 1%nat) (get_h refl1) (get_k refl1) (get_l refl1)
     <> None) /\
  wilson_scale sample_resolution sample_failing_fit sample_store 0 1 sample_cell
  = Returns (1%Z, sample_store) /\
  fom_calculate sample_resolution sample_find_equiv sample_failing_fit
    sample_store 0 1 sample_cell sample_shells FOM_RSPLIT false []
  = Returns (sample_store, None, 0%Z).
Proof.
  assert (Hin : forall refl1, In refl1 (sample_store 0%nat) ->
            find_refl (sample_store 1%nat) (get_h refl1) (get_k refl1)
              (get_l refl1) <> None).
  { intros refl1 [<- | [<- | []]]; simpl; discriminate. }
  split; [exact Hin |].
  destruct (proj1 (wilson_scale_failure sample_resolution sample_find_equiv
                     sample_failing_fit sample_store 0 1 sample_cell Hin))
    as [W F].
  { right. simpl. discriminate. }
  split; [exact W | apply F].
Defined.

(* ================================================================== *)
(** * fom.c: accumulation and evaluation of Rsplit *)

Lemma find_refl_idx_spec (list : RefList) (h k l : Z) :
  find_refl list h k l
  = match find_refl_idx list h k l with
    | Some i => nth_error list i
    | None => None
    end.
Proof.
  unfold find_refl. induction list as [| r rest IH]; simpl; [reflexivity |].
  destruct (same_indices h k l r); [reflexivity |].
  rewrite IH. destruct (find_refl_idx rest h k l); reflexivity.
Qed.

Lemma visited_all_from (pre rl : RefList) :
  visited (pre ++ rl) (seq (length pre) (length rl)) = rl.
Proof.
  revert pre; induction rl as [| r rest IH]; intros pre; [reflexivity |].
  simpl. rewrite nth_error_app2, Nat.sub_diag by lia. simpl. f_equal.
  specialize (IH (pre ++ [r])). rewrite <- app_assoc, length_app in IH.
  simpl in IH. rewrite Nat.add_1_r in IH. exact IH.
Qed.

Lemma visited_all (rl : RefList) : visited rl (seq 0 (length rl)) = rl.
Proof. apply (visited_all_from [] rl). Qed.

Lemma common_pairs_app (l l' list2 : RefList) :
  common_pairs (l ++ l') list2 = common_pairs l list2 ++ common_pairs l' list2.
Proof. unfold common_pairs. apply flat_map_app. Qed.

Lemma shell_pairs_app (resolution : UnitCell -> Z -> Z -> Z -> double)
    (l l' list2 : RefList) (shells : fom_shells) (cell : UnitCell) (i : Z) :
  shell_pairs resolution (l ++ l') list2 shells cell i
  = shell_pairs resolution l list2 shells cell i
    ++ shell_pairs resolution l' list2 shells cell i.
Proof.
  unfold shell_pairs. rewrite common_pairs_app, filter_app, map_app. reflexivity.
Qed.

Lemma sqrt2_pos : 0 < sqrt 2.
Proof. apply sqrt_lt_R0. lra. Qed.

(** The value the code computes is the formula of the specification. *)
Lemma rsplit_value (nu de : double) :
  ddiv (dmul (Fin 2) (ddiv nu de)) (dsqrt (Fin 2))
  = ddiv (dmul (ddiv (Fin 2) (dsqrt (Fin 2))) nu) de.
Proof.
  pose proof sqrt2_pos as Hs.
  assert (Hc : 0 < 2 / sqrt 2) by (apply Rdiv_lt_0_compat; lra).
  assert (N1 : Reqb (sqrt 2) 0 = false) by (apply Reqb_false; lra).
  assert (N2 : Rltb (sqrt 2) 0 = false) by (apply Rltb_false; lra).
  assert (N3 : Reqb (2 / sqrt 2) 0 = false) by (apply Reqb_false; lra).
  assert (N4 : Rltb (2 / sqrt 2) 0 = false) by (apply Rltb_false; lra).
  assert (N5 : Reqb 2 0 = false) by (apply Reqb_false; lra).
  assert (N6 : Rltb 2 0 = false) by (apply Rltb_false; lra).
  unfold dsqrt. rewrite N6.
  assert (E2 : ddiv (Fin 2) (Fin (sqrt 2)) = Fin (2 / sqrt 2)).
  { simpl. rewrite N1. reflexivity. }
  rewrite E2.
  destruct nu as [a | s |], de as [b | t |]; simpl;
    repeat (progress (rewrite ?N1, ?N2, ?N3, ?N4, ?N5, ?N6; simpl));
    try reflexivity.
  - destruct (Req_dec_T b 0) as [B | B].
    + rewrite (Reqb_true b 0 B).
      destruct (Req_dec_T a 0) as [A | A].
      * rewrite (Reqb_true a 0 A). rewrite Reqb_true by (subst; ring). reflexivity.
      * rewrite (Reqb_false a 0 A). simpl. rewrite ?N5, ?N6.
        rewrite Reqb_false by (apply Rmult_integral_contrapositive; split; lra).
        simpl. rewrite ?N2.
        destruct (Rlt_dec a 0) as [L | L].
        -- rewrite (Rltb_true a 0 L), Rltb_true by nra. reflexivity.
        -- rewrite (Rltb_false a 0 L), Rltb_false by nra. reflexivity.
    + rewrite (Reqb_false b 0 B). simpl. rewrite ?N1.
      f_equal. field. split; lra.
  - f_equal. field. lra.
  - destruct s, (Rltb b 0); reflexivity.
Qed.

Section RsplitAccumulation.

Variable resolution : UnitCell -> Z -> Z -> Z -> double.
Variable find_equiv_in_list :
  RefList -> Z -> Z -> Z -> SymOpList -> option (Z * Z * Z).
Variables (list1 list2 : nat) (cell : UnitCell) (shells : fom_shells)
  (sym : SymOpList).

Lemma get_bin_nonneg (refl : Reflection) (bin : Z) :
  get_bin resolution shells refl cell = Returns bin -> (0 <= bin)%Z.
Proof.
  unfold get_bin. cbv zeta.
  destruct (bin_search_spec shells (doubled_resolution resolution refl cell)
              (Z.to_nat (nshells shells)) 0)
    as [[E _] | (j & _ & E & _)]; rewrite E.
  - simpl.
    destruct (dle _ (dget (rmins shells) 0)); simpl; [intros [= <-]; lia |].
    destruct (dge _ _); simpl; [intros [= <-]; lia | discriminate].
  - assert (E1 : (Z.of_nat j =? -1)%Z = false) by lia.
    repeat (rewrite !E1; simpl). intros [= <-]. lia.
Qed.

Lemma shell_pairs_single (refl1 : Reflection) (l2 : RefList) (i : Z) :
  shell_pairs resolution [refl1] l2 shells cell i
  = match find_refl l2 (get_h refl1) (get_k refl1) (get_l refl1) with
    | Some refl2 =>
        if in_shell resolution shells cell i refl1
        then [(get_intensity refl1, get_intensity refl2)] else []
    | None => []
    end.
Proof.
  unfold shell_pairs, common_pairs. simpl.
  destruct (find_refl l2 (get_h refl1) (get_k refl1) (get_l refl1)); simpl;
    [| reflexivity].
  destruct (in_shell resolution shells cell i refl1); reflexivity.
Qed.

(** One step of the accumulation for Rsplit: the store stays, and the
    numerator and denominator of each shell grow by the terms of the pair
    visited, if it is in that shell. *)
Lemma accumulate_step_rsplit (st st' : store) (fctx fctx' : fom_context)
    (n_out n_out' : Z) (i : nat) :
  fc_fom fctx = FOM_RSPLIT ->
  accumulate_step resolution find_equiv_in_list list1 list2 cell shells
    FOM_RSPLIT sym (st, fctx, n_out) i = Returns (st', fctx', n_out') ->
  st' = st /\ fc_fom fctx' = FOM_RSPLIT /\
  fc_nshells fctx' = fc_nshells fctx /\
  length (fc_num fctx') = length (fc_num fctx) /\
  length (fc_den fctx') = length (fc_den fctx) /\
  forall b, (b < length (fc_num fctx))%nat -> (b < length (fc_den fctx))%nat ->
    dget (fc_num fctx') b
    = fold_left dadd
        (map pair_absdiff
           (shell_pairs resolution (visited (st list1) [i]) (st list2) shells
              cell (Z.of_nat b)))
        (dget (fc_num fctx) b) /\
    dget (fc_den fctx') b
    = fold_left dadd
        (map pair_sum
           (shell_pairs resolution (visited (st list1) [i]) (st list2) shells
              cell (Z.of_nat b)))
        (dget (fc_den fctx) b).
Proof.
  intros Hf. unfold accumulate_step, visited. simpl flat_map.
  destruct (nth_error (st list1) i) as [refl1 |];
    [| intros [= <- <- <-]; repeat split; auto].
  rewrite app_nil_r. unfold get_indices.
  assert (SP := fun b => shell_pairs_single refl1 (st list2) (Z.of_nat b)).
  rewrite find_refl_idx_spec in SP.
  destruct (find_refl_idx (st list2) (get_h refl1) (get_k refl1) (get_l refl1))
    as [i2 |].
  2:{ intros [= <- <- <-]. repeat split; auto; rewrite SP; reflexivity. }
  destruct (nth_error (st list2) i2) as [refl2 |].
  2:{ intros [= <- <- <-]. repeat split; auto; rewrite SP; reflexivity. }
  destruct (get_bin resolution shells refl1 cell) as [bin |] eqn:B;
    simpl; [| discriminate].
  rewrite (get_bin_never_sentinel _ _ _ _ _ B).
  pose proof (get_bin_nonneg _ _ B) as Hbin.
  unfold add_to_fom. simpl fc_fom. rewrite Hf. simpl.
  intros [= <- <- <-]. simpl.
  split; [reflexivity |]. split; [assumption |]. split; [reflexivity |].
  unfold dbump. rewrite !aset_length.
  split; [reflexivity |]. split; [reflexivity |].
  intros b Hb1 Hb2. rewrite !SP. unfold in_shell. rewrite B.
  destruct (Z.eqb_spec bin (Z.of_nat b)) as [-> | Hne].
  - rewrite Nat2Z.id. rewrite !dget_aset_same by assumption.
    simpl. split; reflexivity.
  - assert (Z.to_nat bin <> b) by lia.
    rewrite !dget_aset_other by assumption.
    simpl. split; reflexivity.
Qed.

Lemma accumulate_loop_rsplit :
  forall (idx : list nat) (st st' : store) (fctx fctx' : fom_context)
         (n_out n_out' : Z),
    fc_fom fctx = FOM_RSPLIT ->
    run_loop (accumulate_step resolution find_equiv_in_list list1 list2 cell
                shells FOM_RSPLIT sym) idx (st, fctx, n_out)
    = Returns (st', fctx', n_out') ->
    st' = st /\ fc_fom fctx' = FOM_RSPLIT /\
    fc_nshells fctx' = fc_nshells fctx /\
    length (fc_num fctx') = length (fc_num fctx) /\
    length (fc_den fctx') = length (fc_den fctx) /\
    forall b, (b < length (fc_num fctx))%nat -> (b < length (fc_den fctx))%nat ->
      dget (fc_num fctx') b
      = fold_left dadd
          (map pair_absdiff
             (shell_pairs resolution (visited (st list1) idx) (st list2) shells
                cell (Z.of_nat b)))
          (dget (fc_num fctx) b) /\
      dget (fc_den fctx') b
      = fold_left dadd
          (map pair_sum
             (shell_pairs resolution (visited (st list1) idx) (st list2) shells
                cell (Z.of_nat b)))
          (dget (fc_den fctx) b).
Proof.
  induction idx as [| i idx IH]; intros st st' fctx fctx' n_out n_out' Hf H.
  - simpl in H. injection H as <- <- <-. repeat split; auto.
  - cbn [run_loop] in H.
    destruct (accumulate_step _ _ _ _ _ _ _ _ (st, fctx, n_out) i)
      as [[[st1 fctx1] n1] |] eqn:E; simpl in H; [| discriminate].
    apply accumulate_step_rsplit in E; [| assumption].
    destruct E as (-> & Hf1 & Hn & Ln & Ld & Hstep).
    apply IH in H; [| assumption].
    destruct H as (-> & Hf' & Hn' & Ln' & Ld' & Hrest).
    split; [reflexivity |]. split; [assumption |]. split; [congruence |].
    split; [congruence |]. split; [congruence |].
    intros b Hb1 Hb2.
    destruct (Hstep b Hb1 Hb2) as [S1 S2].
    destruct (Hrest b ltac:(lia) ltac:(lia)) as [R1 R2].
    change (i :: idx) with ([i] ++ idx).
    unfold visited in *. rewrite flat_map_app.
    rewrite shell_pairs_app, !map_app, !fold_left_app.
    rewrite R1, R2, S1, S2. split; reflexivity.
Qed.

End RsplitAccumulation.

Lemma map_aset_same {A B} (g : A -> B) (l : list A) (i : nat) (r v : A) :
  nth_error l i = Some r -> g v = g r -> map g (aset l i v) = map g l.
Proof.
  revert i; induction l as [| a l IH]; intros [| i] H E; simpl in *;
    try discriminate.
  - injection H as ->. rewrite E. reflexivity.
  - f_equal. apply IH; assumption.
Qed.

Lemma st_upd_payload (st : store) (p i : nat) (v : bool) (q : nat) :
  map payload (st_upd st p i (fun r => set_flag r v) q) = map payload (st q).
Proof.
  unfold st_upd. destruct (nth_error (st p) i) as [r |] eqn:E; [| reflexivity].
  unfold st_set. destruct (Nat.eqb_spec q p) as [-> |]; [| reflexivity].
  apply (map_aset_same payload _ _ r); [assumption | reflexivity].
Qed.

Lemma clear_flags_step_payload (list1 list2 : nat) (st st' : store) (i : nat) :
  clear_flags_step list1 list2 st i = Returns st' ->
  forall q, map payload (st' q) = map payload (st q).
Proof.
  unfold clear_flags_step.
  destruct (nth_error (st list1) i) as [refl1 |]; [| intros [= <-]; reflexivity].
  destruct (get_indices refl1) as [[h k] l].
  destruct (find_refl_idx _ h k l) as [i2 |]; [| discriminate].
  intros [= <-] q. rewrite !st_upd_payload. reflexivity.
Qed.

Lemma clear_flags_loop_payload (list1 list2 : nat) (idx : list nat)
    (st st' : store) :
  run_loop (clear_flags_step list1 list2) idx st = Returns st' ->
  forall q, map payload (st' q) = map payload (st q).
Proof.
  intros H.
  refine (run_loop_invariant
            (fun s : store => forall q, map payload (s q) = map payload (st q))
            _ _ idx st st' _ H).
  - intros s i s' Hs Hstep q.
    rewrite (clear_flags_step_payload _ _ _ _ _ Hstep q). apply Hs.
  - reflexivity.
Qed.

Lemma dget_zeros (n : Z) (b : nat) :
  (b < Z.to_nat n)%nat -> dget (zeros n) b = Fin 0.
Proof.
  intros H. unfold dget, zeros. apply nth_repeat_lt. assumption.
Qed.

Section RsplitCalculate.

Variable resolution : UnitCell -> Z -> Z -> Z -> double.
Variable find_equiv_in_list :
  RefList -> Z -> Z -> Z -> SymOpList -> option (Z * Z * Z).
Variable gsl_fit_linear : list double -> list double -> Z * double * double.

(** What [fom_calculate] leaves for Rsplit: in each shell the sums of
    |I1-I2| and of I1+I2 over the pairs of that shell, read in the store as
    it is left; without scaling, the lists keep their keys and intensities. *)
Lemma fom_calculate_rsplit (st st' : store) (list1 list2 : nat)
    (cell : UnitCell) (shells : fom_shells) (noscale : bool) (sym : SymOpList)
    (fctx : fom_context) (n_out : Z) :
  fom_calculate resolution find_equiv_in_list gsl_fit_linear st list1 list2
    cell shells FOM_RSPLIT noscale sym = Returns (st', Some fctx, n_out) ->
  fc_fom fctx = FOM_RSPLIT /\ fc_nshells fctx = nshells shells /\
  (noscale = true -> forall q, map payload (st' q) = map payload (st q)) /\
  forall b, (b < Z.to_nat (nshells shells))%nat ->
    dget (fc_num fctx) b
    = dsum (map pair_absdiff
              (shell_pairs resolution (st' list1) (st' list2) shells cell
                 (Z.of_nat b))) /\
    dget (fc_den fctx) b
    = dsum (map pair_sum
              (shell_pairs resolution (st' list1) (st' list2) shells cell
                 (Z.of_nat b))).
Proof.
  unfold fom_calculate.
  match goal with |- context [bind ?m _] => destruct m as [[failed st1] |] eqn:W end;
    simpl; [| discriminate].
  destruct failed; [discriminate |].
  destruct (run_loop (clear_flags_step list1 list2) _ st1) as [st2 |] eqn:C;
    simpl; [| discriminate].
  match goal with
  | |- context [bind (run_loop ?f ?idx ?s0) _] =>
      destruct (run_loop f idx s0) as [[[st3 fctx3] n3] |] eqn:E
  end; simpl; [| discriminate].
  intros [= <- <- <-].
  pose proof (clear_flags_loop_payload _ _ _ _ _ C) as P.
  apply accumulate_loop_rsplit in E; [| reflexivity].
  destruct E as (-> & Hf & Hn & Ln & Ld & Hsum). simpl in Hn, Ln, Ld, Hsum.
  split; [assumption |]. split; [assumption |]. split.
  - intros ->. injection W as <-. exact P.
  - intros b Hb.
    assert (L : length (st1 list1) = length (st2 list1)).
    { rewrite <- (length_map payload (st2 list1)), P, length_map. reflexivity. }
    rewrite L, visited_all in Hsum.
    unfold zeros in Hsum. rewrite !repeat_length in Hsum.
    destruct (Hsum b Hb Hb) as [S1 S2].
    fold (zeros (nshells shells)) in S1, S2.
    rewrite dget_zeros in S1, S2 by assumption.
    split; assumption.
Qed.

End RsplitCalculate.

Lemma NoDup_map_injective {A B} (f : A -> B) (l : list A) (x y : A) :
  NoDup (map f l) -> In x l -> In y l -> f x = f y -> x = y.
Proof.
  induction l as [| a l IH]; intros Hnd Hx Hy E; [destruct Hx |].
  simpl in Hnd. inversion Hnd as [| ? ? Hnotin Hnd']; subst.
  destruct Hx as [-> | Hx], Hy as [-> | Hy]; auto.
  - exfalso. apply Hnotin. rewrite E. apply in_map; assumption.
  - exfalso. apply Hnotin. rewrite <- E. apply in_map; assumption.
Qed.

Lemma same_indices_spec (h k l : Z) (r : Reflection) :
  same_indices h k l r = true -> get_indices r = (h, k, l).
Proof.
  unfold same_indices, get_indices. intros H.
  apply andb_prop in H. destruct H as [H Hl].
  apply andb_prop in H. destruct H as [Hh Hk].
  apply Z.eqb_eq in Hh, Hk, Hl. congruence.
Qed.

(** In two copies of a list without repeated keys, the partner found for a
    reflection has its intensity. *)
Lemma copies_equal_intensities (l1 l2 : RefList) :
  map payload l1 = map payload l2 ->
  NoDup (map get_indices l1) ->
  forall p, In p (common_pairs l1 l2) ->
    get_intensity (fst p) = get_intensity (snd p).
Proof.
  intros Hcopy Hnd p Hp. unfold common_pairs in Hp.
  apply in_flat_map in Hp. destruct Hp as (r1 & Hr1 & Hp).
  destruct (find_refl l2 (get_h r1) (get_k r1) (get_l r1)) as [r2 |] eqn:F;
    [| destruct Hp].
  destruct Hp as [<- | []]. simpl.
  unfold find_refl in F. apply find_some in F. destruct F as [Hr2 Hk].
  apply same_indices_spec in Hk.
  apply (in_map payload) in Hr2. rewrite <- Hcopy in Hr2.
  apply in_map_iff in Hr2. destruct Hr2 as (r1' & Ep & Hr1').
  assert (r1' = r1).
  { apply (NoDup_map_injective get_indices l1); try assumption.
    pose proof (f_equal fst Ep) as Ei. unfold payload in Ei. simpl fst in Ei.
    rewrite Ei, Hk. reflexivity. }
  subst r1'. pose proof (f_equal snd Ep) as Ei. exact Ei.
Qed.

(** Equal intensities and a finite sum of I1+I2 make the sum of |I1-I2|
    zero. *)
Lemma zero_numerator :
  forall (pairs : list (double * double)) (a den : R),
    (forall p, In p pairs -> fst p = snd p) ->
    fold_left dadd (map pair_sum pairs) (Fin a) = Fin den ->
    fold_left dadd (map pair_absdiff pairs) (Fin 0) = Fin 0.
Proof.
  induction pairs as [| [I1 I2] pairs IH]; intros a den Heq H; [reflexivity |].
  assert (I1 = I2) by (apply (Heq (I1, I2)); left; reflexivity). subst I2.
  simpl in H. unfold pair_sum in H at 1. simpl fst in H. simpl snd in H.
  simpl. unfold pair_absdiff at 1. simpl fst. simpl snd.
  destruct I1 as [x | s |].
  - simpl in *.
    replace (0 + Rabs (x + - x)) with 0
      by (replace (x + - x) with 0 by ring; rewrite Rabs_R0; ring).
    eapply IH; [| eassumption]. intros p Hp. apply Heq. right; assumption.
  - exfalso. destruct s; simpl in H; revert H;
      apply fold_dadd_special; discriminate.
  - exfalso. simpl in H. revert H. apply fold_dadd_special. discriminate.
Qed.

Lemma dsum_zeros (l : list double) :
  (forall x, In x l -> x = Fin 0) -> dsum l = Fin 0.
Proof.
  unfold dsum. induction l as [| x l IH]; intros H; [reflexivity |].
  simpl. rewrite (H x) by (left; reflexivity). simpl.
  replace (0 + 0) with 0 by ring. apply IH. intros y Hy. apply H. right; assumption.
Qed.

Lemma rsplit_zero (nu de : double) (den : R) :
  nu = Fin 0 -> de = Fin den -> den <> 0 ->
  ddiv (dmul (Fin 2) (ddiv nu de)) (dsqrt (Fin 2)) = Fin 0.
Proof.
  intros -> -> Hden. pose proof sqrt2_pos.
  unfold dsqrt. rewrite (Rltb_false 2 0) by lra. simpl.
  rewrite (Reqb_false den 0) by assumption. simpl.
  rewrite (Reqb_false (sqrt 2) 0) by lra.
  f_equal. field; repeat split; first [assumption | lra].
Qed.

Lemma dlt_Fin_Rltb (a c : R) : dlt (Fin a) (Fin c) = Rltb a c.
Proof. unfold dlt, dcmp. Rcases; reflexivity. Qed.

Lemma dle_Fin_Rltb (a c : R) : dle (Fin a) (Fin c) = negb (Rltb c a).
Proof. unfold dle, dcmp. Rcases; try reflexivity; exfalso; lra. Qed.

(** With shells that adjoin and grow, [get_bin] puts a reflection into the
    shell whose bounds hold its doubled resolution, and into shell 0 when it
    lies outside the range of the shells. *)
Lemma in_shell_counted (resolution : UnitCell -> Z -> Z -> Z -> double)
    (s : fom_shells) (b : nat -> R) (cell : UnitCell) (i : Z)
    (refl : Reflection) :
  shells_adjoin s b -> bounds_increase b (Z.to_nat (nshells s)) ->
  (0 <= i < nshells s)%Z ->
  in_shell resolution s cell i refl = counted_in_shell resolution s cell i refl.
Proof.
  intros Ha Hi Hr. pose proof Ha as [H1 Hb].
  set (n := Z.to_nat (nshells s)) in *.
  set (i' := Z.to_nat i).
  assert (Hi' : (i' < n)%nat) by (unfold i', n; lia).
  assert (Hn : S (Z.to_nat (nshells s - 1)) = n) by (unfold n; lia).
  unfold in_shell, counted_in_shell, within_shell, outside_shells.
  fold i'. destruct (Hb i' Hi') as [-> ->].
  destruct (Hb 0%nat ltac:(unfold n; lia)) as [-> _].
  destruct (Hb (Z.to_nat (nshells s - 1)) ltac:(unfold n; lia)) as [_ ->].
  rewrite Hn.
  destruct (doubled_resolution resolution refl cell) as [x | sg |] eqn:D.
  - destruct (get_bin_cases resolution s b refl cell Ha) as (j & Hj & E & C);
      [rewrite D; reflexivity |].
    rewrite E, D in *. fold n in Hj, C. unfold dgt in *.
    rewrite !dlt_Fin_Rltb, !dle_Fin_Rltb.
    pose proof (bounds_monotone b n Hi 0 i' ltac:(lia)) as M1.
    pose proof (bounds_monotone b n Hi (S i') n ltac:(lia)) as M2.
    pose proof (bounds_monotone b n Hi 0 j ltac:(lia)) as M3.
    pose proof (bounds_monotone b n Hi (S j) n ltac:(lia)) as M4.
    pose proof (Hi i' Hi') as S1. pose proof (Hi j Hj) as S2.
    assert (M5 : (i' < j)%nat -> b (S i') <= b j)
      by (intros L; apply (bounds_monotone b n Hi); lia).
    assert (M6 : (j < i')%nat -> b (S j) <= b i')
      by (intros L; apply (bounds_monotone b n Hi); lia).
    assert (Q : forall P : Prop,
              (P <-> Z.of_nat j = i) ->
              forall t : bool, (t = true <-> P) -> (Z.of_nat j =? i)%Z = t).
    { intros P HP t Ht. destruct t.
      - apply Z.eqb_eq, HP, Ht. reflexivity.
      - apply Z.eqb_neq. intros Ej. apply HP, Ht in Ej. discriminate. }
    destruct C as [(-> & C & _) | [(-> & C) | (C1 & C2 & _)]].
    + rewrite dle_Fin_Rltb in C. apply negb_true_iff in C.
      destruct (Rlt_dec (b 0%nat) x) as [L | L];
        [rewrite (Rltb_true _ _ L) in C; discriminate |].
      rewrite (Rltb_false (b i') x) by lra.
      rewrite (Rltb_false (b 0%nat) x) by lra. cbn [andb orb negb].
      rewrite andb_true_r. apply Z.eqb_sym.
    + rewrite dlt_Fin_Rltb in C.
      destruct (Rlt_dec (b n) x) as [L | L];
        [| rewrite (Rltb_false _ _ L) in C; discriminate].
      rewrite (Rltb_true (b (S i')) x) by lra.
      rewrite (Rltb_true (b n) x) by lra. cbn [andb orb negb].
      rewrite andb_false_r, orb_true_r, andb_true_r. apply Z.eqb_sym.
    + rewrite dlt_Fin_Rltb in C1. rewrite dle_Fin_Rltb in C2.
      apply negb_true_iff in C2.
      destruct (Rlt_dec (b j) x) as [L1 | L1];
        [| rewrite (Rltb_false _ _ L1) in C1; discriminate].
      destruct (Rlt_dec (b (S j)) x) as [L2 | L2];
        [rewrite (Rltb_true _ _ L2) in C2; discriminate |].
      rewrite (Rltb_true (b 0%nat) x) by lra.
      rewrite (Rltb_false (b n) x) by lra. cbn [negb orb].
      rewrite andb_false_r, orb_false_r.
      destruct (Nat.lt_trichotomy i' j) as [T | [T | T]].
      * specialize (M5 T).
        rewrite (Rltb_true (b (S i')) x) by lra. cbn [negb].
        rewrite andb_false_r. apply Z.eqb_neq. unfold i' in T. lia.
      * subst j. rewrite (Rltb_true (b i') x) by lra.
        rewrite (Rltb_false (b (S i')) x) by lra.
        apply Z.eqb_eq. unfold i'. lia.
      * specialize (M6 T).
        rewrite (Rltb_false (b i') x) by lra. cbn [andb].
        apply Z.eqb_neq. unfold i' in T. lia.
  - destruct (get_bin_cases resolution s b refl cell Ha) as (j & Hj & E & C);
      [rewrite D; reflexivity |].
    rewrite E, D in *.
    assert (G : forall y, dgt (Inf sg) (Fin y) = negb sg)
      by (intros y; destruct sg; reflexivity).
    assert (L : forall y, dle (Inf sg) (Fin y) = sg)
      by (intros y; destruct sg; reflexivity).
    rewrite !G, !L in *.
    destruct C as [(-> & _) | [(-> & _) | (C1 & C2 & _)]].
    + destruct sg; cbn [negb andb orb]; rewrite ?andb_true_r;
        apply Z.eqb_sym.
    + destruct sg; cbn [negb andb orb]; rewrite ?andb_true_r;
        apply Z.eqb_sym.
    + destruct sg; discriminate.
  - rewrite (get_bin_nan resolution s refl cell D).
    unfold dgt. rewrite !dlt_NaN_r, !dle_NaN_l. cbn [andb orb].
    rewrite andb_false_r. reflexivity.
Qed.

Lemma shell_pairs_bounded (resolution : UnitCell -> Z -> Z -> Z -> double)
    (s : fom_shells) (b : nat -> R) (cell : UnitCell) (list1 list2 : RefList)
    (i : Z) :
  shells_adjoin s b -> bounds_increase b (Z.to_nat (nshells s)) ->
  (0 <= i < nshells s)%Z ->
  shell_pairs resolution list1 list2 s cell i
  = bounded_shell_pairs resolution list1 list2 s cell i.
Proof.
  intros Ha Hi Hr. unfold shell_pairs, bounded_shell_pairs. f_equal.
  apply filter_ext. intros p. apply (in_shell_counted _ _ b); assumption.
Qed.

Lemma copies_have_partners (l1 l2 : RefList) :
  map payload l1 = map payload l2 ->
  forall refl1, In refl1 l1 ->
    find_refl l2 (get_h refl1) (get_k refl1) (get_l refl1) <> None.
Proof.
  intros Hcopy refl1 Hin F.
  apply (in_map payload) in Hin. rewrite Hcopy in Hin.
  apply in_map_iff in Hin. destruct Hin as (refl2 & Ep & Hin2).
  unfold find_refl in F. pose proof (find_none _ _ F refl2 Hin2) as N.
  pose proof (f_equal fst Ep) as Ei. unfold payload in Ei. cbn [fst] in Ei.
  unfold get_indices in Ei. injection Ei as E1 E2 E3.
  unfold same_indices in N. rewrite E1, E2, E3, !Z.eqb_refl in N.
  discriminate.
Qed.

Lemma dmul_1_r (x : double) : dmul x (Fin 1) = x.
Proof.
  destruct x as [a | sg |]; simpl; [rewrite Rmult_1_r; reflexivity | |
    reflexivity].
  rewrite (Reqb_false 1 0), (Rltb_false 1 0) by lra.
  rewrite xorb_false_r. reflexivity.
Qed.

(** With both coefficients of the fit zero, the scaling leaves key and
    intensity of a reflection of finite resolution as they are. *)
Lemma wilson_apply_unit (resolution : UnitCell -> Z -> Z -> Z -> double)
    (cell : UnitCell) (refl2 : Reflection) (res : R) :
  resolution cell (get_h refl2) (get_k refl2) (get_l refl2) = Fin res ->
  payload (wilson_apply resolution (dexp (Fin 0)) (ddiv (Fin 0) (Fin 2)) cell
             refl2)
  = payload refl2.
Proof.
  intros Hres. unfold wilson_apply, get_indices. rewrite Hres.
  unfold ddiv, dexp. rewrite (Reqb_false 2 0) by lra. cbn [dmul].
  replace (exp 0 * exp (2 * (0 / 2) * res * res)) with 1.
  - unfold payload. cbn. rewrite dmul_1_r. reflexivity.
  - replace (2 * (0 / 2) * res * res) with 0 by field.
    rewrite exp_0. ring.
Qed.

(** The store that [fom_calculate] accumulates from: the one it was given,
    or the one that the scaling left; afterwards the lists still hold their
    keys and intensities. *)
Lemma fom_calculate_rsplit_store
    (resolution : UnitCell -> Z -> Z -> Z -> double)
    (find_equiv_in_list :
       RefList -> Z -> Z -> Z -> SymOpList -> option (Z * Z * Z))
    (gsl_fit_linear : list double -> list double -> Z * double * double)
    (st st' : store) (list1 list2 : nat) (cell : UnitCell)
    (shells : fom_shells) (noscale : bool) (sym : SymOpList)
    (fctx : fom_context) (n_out : Z) :
  fom_calculate resolution find_equiv_in_list gsl_fit_linear st list1 list2
    cell shells FOM_RSPLIT noscale sym = Returns (st', Some fctx, n_out) ->
  exists st1,
    (noscale = true /\ st1 = st \/
     noscale = false /\
     wilson_scale resolution gsl_fit_linear st list1 list2 cell
     = Returns (0%Z, st1)) /\
    forall q, map payload (st' q) = map payload (st1 q).
Proof.
  unfold fom_calculate.
  match goal with |- context [bind ?m _] => destruct m as [[failed st1] |] eqn:W end;
    simpl; [| discriminate].
  destruct failed; [discriminate |].
  destruct (run_loop (clear_flags_step list1 list2) _ st1) as [st2 |] eqn:C;
    simpl; [| discriminate].
  match goal with
  | |- context [bind (run_loop ?f ?idx ?s0) _] =>
      destruct (run_loop f idx s0) as [[[st3 fctx3] n3] |] eqn:E
  end; simpl; [| discriminate].
  intros [= <- <- <-].
  pose proof (clear_flags_loop_payload _ _ _ _ _ C) as P.
  apply accumulate_loop_rsplit in E; [| reflexivity].
  destruct E as (-> & _). exists st1. split; [| exact P].
  destruct noscale.
  - left. injection W as <-. split; reflexivity.
  - right. split; [reflexivity |].
    destruct (wilson_scale resolution gsl_fit_linear st list1 list2 cell)
      as [[r st0] |]; simpl in W; [| discriminate].
    injection W as W1 <-.
    apply negb_false_iff, Z.eqb_eq in W1. subst r. reflexivity.
Qed.

(** C6, amended.  For shells that adjoin and grow, after [fom_calculate]
    for Rsplit the value of every shell is (2/sqrt 2) Sum|I1-I2| /
    Sum(I1+I2) over the reflections of list 1 that have a partner in list 2
    and whose doubled resolution lies in the shell, above its lower bound and
    not above its upper bound; the reflections outside the range of the
    shells are summed into shell 0; the intensities are those of the lists
    when they are accumulated, list 2 as the scaling left it.  The overall
    value is the same with the sums added up over the shells.  For two
    copies of a list without repeated keys, Rsplit is 0 in every shell whose
    denominator, the Sum(I1+I2) that the context holds for it, is a number
    other than zero, and overall when the denominator that [fom_overall]
    adds up is: without scaling, and with scaling when the fit gives both
    coefficients zero and the resolutions are numbers. *)
Theorem rsplit_shell_formula :
  forall (gsl_stats_correlation : list double -> list double -> double)
         (gsl_stats_variance_m : list double -> double -> double)
         (resolution : UnitCell -> Z -> Z -> Z -> double)
         (find_equiv_in_list :
            RefList -> Z -> Z -> Z -> SymOpList -> option (Z * Z * Z))
         (gsl_fit_linear : list double -> list double -> Z * double * double)
         (st st' : store) (list1 list2 : nat) (cell : UnitCell)
         (shells : fom_shells) (b : nat -> R) (noscale : bool)
         (sym : SymOpList) (fctx : fom_context) (n_out : Z),
    shells_adjoin shells b ->
    bounds_increase b (Z.to_nat (nshells shells)) ->
    fom_calculate resolution find_equiv_in_list gsl_fit_linear st list1 list2
      cell shells FOM_RSPLIT noscale sym = Returns (st', Some fctx, n_out) ->
    (forall i, (0 <= i < nshells shells)%Z ->
       fom_shell gsl_stats_correlation gsl_stats_variance_m fctx i
       = rsplit_formula
           (bounded_shell_pairs resolution (st' list1) (st' list2) shells
              cell i)) /\
    fom_overall gsl_stats_correlation gsl_stats_variance_m fctx
    = rsplit_overall_by_bounds resolution (st' list1) (st' list2) shells
        cell /\
    (map payload (st list1) = map payload (st list2) ->
     NoDup (map get_indices (st list1)) ->
     (noscale = false ->
      gsl_fit_linear
        (fit_x resolution cell (usable_pairs (st list1) (st list2)))
        (fit_y (usable_pairs (st list1) (st list2)))
      = (0%Z, Fin 0, Fin 0) /\
      forall refl2, In refl2 (st list2) ->
        exists res,
          resolution cell (get_h refl2) (get_k refl2) (get_l refl2)
          = Fin res) ->
     (forall i den, (0 <= i < nshells shells)%Z ->
        dget (fc_den fctx) (Z.to_nat i) = Fin den ->
        den <> 0 ->
        fom_shell gsl_stats_correlation gsl_stats_variance_m fctx i = Fin 0) /\
     (forall den,
        snd (accumulate_num_den (fc_num fctx) (fc_den fctx)
               (shell_indices fctx))
        = Fin den ->
        den <> 0 ->
        fom_overall gsl_stats_correlation gsl_stats_variance_m fctx = Fin 0)).
Proof.
  intros corr var resolution find_equiv_in_list gsl_fit_linear st st' list1
    list2 cell shells b noscale sym fctx n_out Ha Hinc H.
  pose proof (fom_calculate_rsplit_store _ _ _ _ _ _ _ _ _ _ _ _ _ H)
    as (st1 & Hst1 & P1).
  apply fom_calculate_rsplit in H. destruct H as (Hf & Hn & _ & Hsum0).
  set (n := Z.to_nat (nshells shells)) in *.
  set (pairs := fun k : nat =>
         bounded_shell_pairs resolution (st' list1) (st' list2) shells cell
           (Z.of_nat k)).
  assert (Hsum : forall k, (k < n)%nat ->
            dget (fc_num fctx) k = dsum (map pair_absdiff (pairs k)) /\
            dget (fc_den fctx) k = dsum (map pair_sum (pairs k))).
  { intros k Hk. unfold pairs.
    rewrite <- (shell_pairs_bounded resolution shells b cell _ _ _ Ha Hinc)
      by (unfold n in Hk; lia).
    apply Hsum0. exact Hk. }
  assert (Hshell : forall i, (0 <= i < nshells shells)%Z ->
            fom_shell corr var fctx i
            = ddiv (dmul (Fin 2)
                      (ddiv (dsum (map pair_absdiff (pairs (Z.to_nat i))))
                            (dsum (map pair_sum (pairs (Z.to_nat i))))))
                   (dsqrt (Fin 2))).
  { intros i Hi. unfold fom_shell. rewrite Hf.
    destruct (Hsum (Z.to_nat i) ltac:(unfold n; lia)) as [-> ->]. reflexivity. }
  assert (Htot : forall f arr,
            (forall k, (k < n)%nat -> dget arr k = dsum (map f (pairs k))) ->
            shell_total arr (nshells shells)
            = dsum (map (fun i => dsum (map f (pairs i))) (seq 0 n))).
  { intros f arr Harr. unfold shell_total. fold n. f_equal.
    apply map_ext_in. intros k Hk. apply in_seq in Hk. apply Harr. lia. }
  assert (Hoverall : fom_overall corr var fctx
            = ddiv (dmul (Fin 2)
                      (ddiv (dsum (map (fun i => dsum (map pair_absdiff (pairs i)))
                                       (seq 0 n)))
                            (dsum (map (fun i => dsum (map pair_sum (pairs i)))
                                       (seq 0 n)))))
                   (dsqrt (Fin 2))).
  { unfold fom_overall, shell_indices. rewrite Hf, accumulate_num_den_totals.
    simpl fst. simpl snd. rewrite Hn.
    rewrite (Htot pair_absdiff) by (intros k Hk; apply Hsum; assumption).
    rewrite (Htot pair_sum) by (intros k Hk; apply Hsum; assumption).
    reflexivity. }
  split; [| split].
  - intros i Hi. rewrite (Hshell i Hi), rsplit_value.
    unfold rsplit_formula, pairs. rewrite Z2Nat.id by lia. reflexivity.
  - rewrite Hoverall, rsplit_value. reflexivity.
  - intros Hsame Hnd Hscaled.
    assert (Hcopy : forall q, map payload (st' q) = map payload (st q)).
    { intros q. rewrite P1.
      destruct Hst1 as [[_ ->] | [Hns W]]; [reflexivity |].
      destruct (Hscaled Hns) as [Hfit Hres].
      apply wilson_scale_success in W.
      destruct W as (x & y & c0 & c1 & Wp & _ & Wf & ->).
      rewrite (wilson_points_usable resolution (st list2) cell (st list1)
                 [] [] (copies_have_partners _ _ Hsame)) in Wp.
      cbn [app] in Wp. injection Wp as <- <-.
      rewrite Hfit in Wf. injection Wf as <- <-.
      unfold st_set. destruct (Nat.eqb_spec q list2) as [-> |];
        [| reflexivity].
      rewrite map_map. apply map_ext_in. intros r Hr.
      destruct (Hres r Hr) as [res Er].
      apply (wilson_apply_unit resolution cell r res Er). }
    assert (Heq : forall k p, In p (pairs k) -> fst p = snd p).
    { intros k p Hp. unfold pairs, bounded_shell_pairs in Hp.
      apply in_map_iff in Hp. destruct Hp as (q & <- & Hq).
      apply filter_In in Hq. destruct Hq as [Hq _]. simpl.
      apply (copies_equal_intensities (st' list1) (st' list2)).
      - rewrite !Hcopy. assumption.
      - assert (K : forall rl, map get_indices rl = map fst (map payload rl))
          by (intros rl; rewrite map_map; reflexivity).
        rewrite K, Hcopy, <- K. assumption.
      - assumption. }
    split.
    + intros i den Hi Hden Hne. rewrite (Hshell i Hi).
      rewrite (proj2 (Hsum (Z.to_nat i) ltac:(unfold n; lia))) in Hden.
      apply (rsplit_zero _ _ den); try assumption.
      apply (zero_numerator _ 0 den); [apply Heq | exact Hden].
    + intros den Hden Hne. rewrite Hoverall.
      unfold shell_indices in Hden.
      rewrite accumulate_num_den_totals in Hden. cbn [snd] in Hden.
      rewrite Hn in Hden.
      rewrite (Htot pair_sum) in Hden
        by (intros k Hk; apply Hsum; assumption).
      apply (rsplit_zero _ _ den); try assumption.
      apply dsum_zeros. intros x Hx.
      apply in_map_iff in Hx. destruct Hx as (k & <- & Hk).
      destruct (fold_dadd_Fin _ 0 den Hden) as [rs Hrs].
      assert (Hin : In (dsum (map pair_sum (pairs k)))
                       (map (fun i => dsum (map pair_sum (pairs i))) (seq 0 n)))
        by (apply in_map_iff; exists k; auto).
      rewrite Hrs in Hin. apply in_map_iff in Hin. destruct Hin as (r & Er & _).
      apply (zero_numerator _ 0 r); [apply Heq | symmetry; exact Er].
Qed.

(** Two copies of a list with one reflection, accumulated over two shells
    of which [get_bin] gives the reflection the first. *)
Lemma single_pair_two_shells (s : fom_shells) :
  nshells s = 2%Z ->
  get_bin sample_resolution s (sample_refl 1 100 1 1 1 false false) sample_cell
  = Returns 0%Z ->
  exists st' fctx,
    fom_calculate sample_resolution sample_find_equiv sample_fit single_store
      0 1 sample_cell s FOM_RSPLIT true [] = Returns (st', Some fctx, 0%Z) /\
    fom_shell sample_correlation sample_variance fctx 0 = Fin 0 /\
    fom_shell sample_correlation sample_variance fctx 1 = NaN.
Proof.
  intros Hn E. unfold sample_refl in E.
  eexists. eexists. split.
  - unfold fom_calculate, accumulate_step, single_store, sample_refl.
    remember (get_bin sample_resolution s) as gb eqn:Hgb in *.
    rewrite Hn. cbn. unfold set_flag. cbn. rewrite E. deval_with idtac.
    reflexivity.
  - pose proof sqrt2_pos.
    unfold fom_shell. deval. split; [| reflexivity].
    f_equal. replace (100 + - (100)) with 0 by ring.
    rewrite Rabs_R0. field. lra.
Qed.

(** Two copies of a list that holds (1,0,0) twice, with the intensities
    100 and 50: [find_refl] gives the first entry both times, so the second
    reflection is compared with 100, and Rsplit of the one shell is not 0. *)
Lemma repeated_key_copies :
  exists st' fctx v,
    fom_calculate sample_resolution sample_find_equiv sample_fit
      repeated_key_store 0 1 sample_cell one_shell FOM_RSPLIT true []
    = Returns (st', Some fctx, 0%Z) /\
    fom_shell sample_correlation sample_variance fctx 0 = Fin v /\ 0 < v.
Proof.
  pose proof sqrt2_pos as Hs.
  eexists _, _, _. split; [| split].
  - unfold fom_calculate, repeated_key_store, repeated_key_list, one_shell,
      sample_refl, sample_resolution, sample_find_equiv.
    unfold get_bin, doubled_resolution, sample_resolution.
    deval. reflexivity.
  - unfold fom_shell. cbn.
    unfold ddiv, dmul, dsqrt.
    rewrite (Rltb_false 2 0) by lra.
    rewrite (Reqb_false (0 + (100 + 100) + (50 + 100)) 0) by lra.
    rewrite (Reqb_false (sqrt 2) 0) by lra. reflexivity.
  - assert (A1 : Rabs (100 + - (100)) = 0)
      by (replace (100 + - (100)) with 0 by ring; apply Rabs_R0).
    assert (A2 : Rabs (50 + - (100)) = 50)
      by (rewrite Rabs_left by lra; ring).
    rewrite A1, A2.
    apply Rmult_lt_0_compat; [| apply Rinv_0_lt_compat; exact Hs].
    apply Rmult_lt_0_compat; [lra |].
    apply Rmult_lt_0_compat; [lra | apply Rinv_0_lt_compat; lra].
Qed.

(** C6, as stated, on two copies of a list with the one reflection (1,0,0)
    and the two shells made for [0, 4].  Without scaling the reflection is in
    shell 0, shell 1 is empty, and its Rsplit is 0/0, not 0; with scaling the
    one pair is too few for the fit, and there is no figure of merit at all.
    And on two copies of a list that holds (1,0,0) twice, Rsplit of the one
    shell is a number above 0. *)
Lemma rsplit_empty_shell_is_nan :
  map payload (single_store 0%nat) = map payload (single_store 1%nat) /\
  (exists st' fctx,
     fom_calculate sample_resolution sample_find_equiv sample_fit single_store
       0 1 sample_cell (fom_make_resolution_shells (Fin 0) (Fin 4) 2)
       FOM_RSPLIT true []
     = Returns (st', Some fctx, 0%Z) /\
     fom_shell sample_correlation sample_variance fctx 0 = Fin 0 /\
     fom_shell sample_correlation sample_variance fctx 1 = NaN) /\
  fom_calculate sample_resolution sample_find_equiv sample_fit single_store
    0 1 sample_cell (fom_make_resolution_shells (Fin 0) (Fin 4) 2)
    FOM_RSPLIT false []
  = Returns (single_store, None, 0%Z) /\
  map payload (repeated_key_store 0%nat)
  = map payload (repeated_key_store 1%nat) /\
  (exists st' fctx v,
     fom_calculate sample_resolution sample_find_equiv sample_fit
       repeated_key_store 0 1 sample_cell one_shell FOM_RSPLIT true []
     = Returns (st', Some fctx, 0%Z) /\
     fom_shell sample_correlation sample_variance fctx 0 = Fin v /\ 0 < v).
Proof.
  split; [reflexivity |]. split; [| split; [| split]].
  - apply single_pair_two_shells; [reflexivity | exact get_bin_made_low].
  - unfold fom_calculate, wilson_scale, single_store, sample_refl. deval.
    reflexivity.
  - reflexivity.
  - exact repeated_key_copies.
Qed.

Lemma sample_bounds_increase :
  bounds_increase sample_bounds (Z.to_nat (nshells sample_shells)).
Proof. intros [| [| j]] Hj; simpl in *; try lra; lia. Qed.

Lemma rsplit_shell_formula_witness :
  shells_adjoin sample_shells sample_bounds /\
  bounds_increase sample_bounds (Z.to_nat (nshells sample_shells)) /\
  map payload (sample_store 0%nat) = map payload (sample_store 1%nat) /\
  NoDup (map get_indices (sample_store 0%nat)) /\
  exists st' fctx,
    fom_calculate sample_resolution sample_find_equiv sample_fit sample_store
      0 1 sample_cell sample_shells FOM_RSPLIT false []
    = Returns (st', Some fctx, 0%Z) /\
    fom_shell sample_correlation sample_variance fctx 1
    = rsplit_formula
        (bounded_shell_pairs sample_resolution (st' 0%nat) (st' 1%nat)
           sample_shells sample_cell 1) /\
    (forall i den, (0 <= i < nshells sample_shells)%Z ->
       dget (fc_den fctx) (Z.to_nat i) = Fin den ->
       den <> 0 ->
       fom_shell sample_correlation sample_variance fctx i = Fin 0).
Proof.
  assert (Ha : shells_adjoin sample_shells sample_bounds)
    by exact sample_shells_adjoin.
  assert (Hi : bounds_increase sample_bounds
                 (Z.to_nat (nshells sample_shells)))
    by exact sample_bounds_increase.
  assert (Hsame : map payload (sample_store 0%nat)
                  = map payload (sample_store 1%nat)) by reflexivity.
  assert (Hnd : NoDup (map get_indices (sample_store 0%nat))).
  { simpl. constructor; [| constructor; [| constructor]].
    - intros [H | []]. discriminate H.
    - intros []. }
  assert (Hfit : false = false ->
            sample_fit
              (fit_x sample_resolution sample_cell
                 (usable_pairs (sample_store 0%nat) (sample_store 1%nat)))
              (fit_y (usable_pairs (sample_store 0%nat) (sample_store 1%nat)))
            = (0%Z, Fin 0, Fin 0) /\
            forall refl2, In refl2 (sample_store 1%nat) ->
              exists res,
                sample_resolution sample_cell (get_h refl2) (get_k refl2)
                  (get_l refl2) = Fin res).
  { intros _. split; [reflexivity |]. intros refl2 _. eexists. reflexivity. }
  assert (E : exists st' fctx,
            fom_calculate sample_resolution sample_find_equiv sample_fit
              sample_store 0 1 sample_cell sample_shells FOM_RSPLIT false []
            = Returns (st', Some fctx, 0%Z)).
  { eexists. eexists.
    unfold fom_calculate, wilson_scale, sample_store, sample_pair_list,
      sample_shells, sample_refl, sample_resolution, sample_find_equiv,
      sample_fit.
    unfold get_bin, doubled_resolution, sample_resolution.
    deval. reflexivity. }
  split; [exact Ha |]. split; [exact Hi |]. split; [exact Hsame |].
  split; [exact Hnd |].
  destruct E as (st' & fctx & E). exists st', fctx. split; [exact E |].
  pose proof (rsplit_shell_formula sample_correlation sample_variance
                sample_resolution sample_find_equiv sample_fit sample_store
                st' 0 1 sample_cell sample_shells sample_bounds false []
                fctx 0%Z Ha Hi E) as (T1 & _ & T3).
  split; [apply T1; simpl; lia |].
  exact (proj1 (T3 Hsame Hnd Hfit)).
Defined.

(* ================================================================== *)
(** * partialator.c: further properties of the selection and of a cycle *)

Lemma scalable_decision_set_scalable (reference : option RefList)
    (refl : Reflection) (v : bool) :
  scalable_decision reference (set_scalable refl v)
  = scalable_decision reference refl.
Proof. destruct refl; reflexivity. Qed.

Lemma set_scalable_twice (refl : Reflection) (v : bool) :
  set_scalable (set_scalable refl v) v = set_scalable refl v.
Proof. destruct refl; reflexivity. Qed.

Lemma select_scalable_loop_twice (reference : option RefList) :
  forall (list : RefList) (n0 : Z),
    select_scalable_loop (fst (select_scalable_loop list reference n0))
      reference n0
    = select_scalable_loop list reference n0.
Proof.
  induction list as [| refl rest IH]; intros n0; [reflexivity |].
  simpl.
  specialize (IH (if scalable_decision reference refl
                  then int_incr n0 else n0)).
  destruct (select_scalable_loop rest reference _) as [rest' n] eqn:E.
  simpl in *. rewrite scalable_decision_set_scalable, IH, set_scalable_twice.
  reflexivity.
Qed.

(** X1.  [select_scalable_reflections] is idempotent: it reads the
    redundancy, the partiality and the indices, never the flag it writes, so
    a second run over its own result gives the same list and the same
    count. *)
Theorem select_scalable_reflections_idempotent :
  forall (list : RefList) (reference : option RefList),
    select_scalable_reflections
      (fst (select_scalable_reflections list reference)) reference
    = select_scalable_reflections list reference.
Proof.
  intros list reference. unfold select_scalable_reflections.
  apply select_scalable_loop_twice.
Qed.

Lemma refinement_decision_frame (full : RefList) (have_reference : bool)
    (refl refl' : Reflection) :
  refinement_decision full have_reference refl = Some refl' ->
  refl' = set_refinable refl (get_refinable refl').
Proof.
  unfold refinement_decision.
  destruct (dlt _ _); [intros [= <-]; destruct refl; reflexivity |].
  destruct (get_indices refl) as [[h k] l].
  destruct (negb _); [intros [= <-]; destruct refl; reflexivity |].
  destruct (find_refl full h k l); [| discriminate].
  destruct (_ || _); intros [= <-]; destruct refl; reflexivity.
Qed.

Lemma refinement_decision_refinable (full : RefList) (have_reference : bool)
    (refl refl' : Reflection) :
  refinement_decision full have_reference refl = Some refl' ->
  get_refinable refl' = true ->
  get_scalable refl' = true /\
  dlt (get_intensity refl') (dmul (Fin 3) (get_esd_intensity refl')) = false /\
  find_refl full (get_h refl') (get_k refl') (get_l refl') <> None.
Proof.
  unfold refinement_decision.
  destruct (dlt _ _) eqn:W;
    [intros [= <-]; destruct refl; discriminate |].
  unfold get_indices.
  destruct (get_scalable refl) eqn:S; simpl;
    [| intros [= <-]; destruct refl; discriminate].
  destruct (find_refl full _ _ _) eqn:F; [| discriminate].
  destruct (_ || _); intros [= <-] _.
  - destruct refl; simpl in *. rewrite F. repeat split; try assumption.
    discriminate.
  - rewrite F. repeat split; try assumption. discriminate.
Qed.

Lemma select_refinement_loop_In (full : RefList) (have_reference : bool) :
  forall (reflist reflist' : RefList),
    select_refinement_loop reflist full have_reference = Some reflist' ->
    forall refl', In refl' reflist' ->
      exists refl, In refl reflist /\
        refinement_decision full have_reference refl = Some refl'.
Proof.
  induction reflist as [| r rest IH]; intros reflist' H refl' Hin.
  - injection H as <-. destruct Hin.
  - simpl in H.
    destruct (refinement_decision full have_reference r) as [r' |] eqn:D;
      [| discriminate].
    destruct (select_refinement_loop rest full have_reference) as [rest' |]
      eqn:E; [| discriminate].
    injection H as <-. destruct Hin as [<- | Hin].
    + exists r. split; [left; reflexivity | exact D].
    + destruct (IH rest' eq_refl refl' Hin) as (r0 & Hr0 & D0).
      exists r0. split; [right; exact Hr0 | exact D0].
Qed.

Lemma select_reflections_for_refinement_In (full : RefList)
    (have_reference : bool) :
  forall (crystals crystals' : list Crystal),
    select_reflections_for_refinement crystals full have_reference
    = Some crystals' ->
    forall cr', In cr' crystals' ->
      exists cr reflist', In cr crystals /\
        select_refinement_loop (crystal_get_reflections cr) full
          have_reference = Some reflist' /\
        cr' = crystal_set_reflections cr reflist'.
Proof.
  induction crystals as [| c rest IH]; intros crystals' H cr' Hin.
  - injection H as <-. destruct Hin.
  - simpl in H.
    destruct (select_refinement_loop _ full have_reference) as [rl |] eqn:D;
      [| discriminate].
    destruct (select_reflections_for_refinement rest full have_reference)
      as [rest' |] eqn:E; [| discriminate].
    injection H as <-. destruct Hin as [<- | Hin].
    + exists c, rl. split; [left; reflexivity |]. split; [exact D | reflexivity].
    + destruct (IH rest' eq_refl cr' Hin) as (c0 & rl0 & Hc0 & D0 & E0).
      exists c0, rl0. split; [right; exact Hc0 |]. split; assumption.
Qed.

(** X2.  Whatever flags the reflections carry on entry, when
    [select_reflections_for_refinement] returns, every reflection flagged
    refinable is flagged scalable, is not weaker than three sigma, and has
    its (h,k,l) in [full]. *)
Theorem select_reflections_for_refinement_refinable_sound :
  forall (crystals crystals' : list Crystal) (full : RefList)
         (have_reference : bool),
    select_reflections_for_refinement crystals full have_reference
    = Some crystals' ->
    forall cr' refl',
      In cr' crystals' -> In refl' (crystal_get_reflections cr') ->
      get_refinable refl' = true ->
      get_scalable refl' = true /\
      dlt (get_intensity refl') (dmul (Fin 3) (get_esd_intensity refl'))
      = false /\
      find_refl full (get_h refl') (get_k refl') (get_l refl') <> None.
Proof.
  intros crystals crystals' full have_reference H cr' refl' Hc Hr Hf.
  destruct (select_reflections_for_refinement_In full have_reference
              crystals crystals' H cr' Hc) as (cr & rl & _ & L & ->).
  simpl in Hr.
  destruct (select_refinement_loop_In full have_reference _ _ L refl' Hr)
    as (refl & _ & D).
  exact (refinement_decision_refinable full have_reference refl refl' D Hf).
Qed.

Lemma select_reflections_for_refinement_refinable_sound_witness :
  select_reflections_for_refinement [sample_crystal [stale_refl]] stale_full
    false
  = Some [sample_crystal [stale_refl]] /\
  get_refinable stale_refl = true /\
  get_scalable stale_refl = true /\
  dlt (get_intensity stale_refl) (dmul (Fin 3) (get_esd_intensity stale_refl))
  = false /\
  find_refl stale_full (get_h stale_refl) (get_k stale_refl)
    (get_l stale_refl) <> None.
Proof.
  assert (E : select_reflections_for_refinement [sample_crystal [stale_refl]]
                stale_full false
              = Some [sample_crystal [stale_refl]]).
  { unfold stale_refl, stale_full, sample_refl, sample_crystal. cbn.
    unfold refinement_decision. deval. reflexivity. }
  split; [exact E |]. split; [reflexivity |].
  exact (select_reflections_for_refinement_refinable_sound
           [sample_crystal [stale_refl]] [sample_crystal [stale_refl]]
           stale_full false E (sample_crystal [stale_refl]) stale_refl
           (or_introl eq_refl) (or_introl eq_refl) eq_refl).
Defined.

Lemma select_refinement_loop_frame (full : RefList) (have_reference : bool) :
  forall (reflist reflist' : RefList),
    select_refinement_loop reflist full have_reference = Some reflist' ->
    map (fun r => set_refinable r false) reflist'
    = map (fun r => set_refinable r false) reflist.
Proof.
  induction reflist as [| r rest IH]; intros reflist' H.
  - injection H as <-. reflexivity.
  - simpl in H.
    destruct (refinement_decision full have_reference r) as [r' |] eqn:D;
      [| discriminate].
    destruct (select_refinement_loop rest full have_reference) as [rest' |]
      eqn:E; [| discriminate].
    injection H as <-. simpl. rewrite (IH rest' eq_refl). f_equal.
    rewrite (refinement_decision_frame full have_reference r r' D).
    destruct r; reflexivity.
Qed.

(** X3.  [select_reflections_for_refinement] writes the refinable flags
    and nothing else: the crystals it leaves are the crystals it was given,
    one for one and reflection for reflection, once the refinable flags are
    cleared on both sides. *)
Theorem select_reflections_for_refinement_frame :
  forall (crystals crystals' : list Crystal) (full : RefList)
         (have_reference : bool),
    select_reflections_for_refinement crystals full have_reference
    = Some crystals' ->
    map (fun cr => crystal_set_reflections cr
                     (map (fun r => set_refinable r false)
                        (crystal_get_reflections cr))) crystals'
    = map (fun cr => crystal_set_reflections cr
                       (map (fun r => set_refinable r false)
                          (crystal_get_reflections cr))) crystals.
Proof.
  induction crystals as [| c rest IH]; intros crystals' full have_reference H.
  - injection H as <-. reflexivity.
  - simpl in H.
    destruct (select_refinement_loop _ full have_reference) as [rl |] eqn:D;
      [| discriminate].
    destruct (select_reflections_for_refinement rest full have_reference)
      as [rest' |] eqn:E; [| discriminate].
    injection H as <-. simpl. rewrite (IH rest' full have_reference E).
    f_equal. unfold crystal_set_reflections. simpl.
    rewrite (select_refinement_loop_frame full have_reference _ _ D).
    reflexivity.
Qed.

Lemma select_reflections_for_refinement_frame_witness :
  select_reflections_for_refinement
    [sample_crystal sample_reference] sample_reference true
  = Some [sample_crystal (map (fun r => set_refinable r false)
                            sample_reference)] /\
  map (fun cr => crystal_set_reflections cr
                   (map (fun r => set_refinable r false)
                      (crystal_get_reflections cr)))
    [sample_crystal (map (fun r => set_refinable r false) sample_reference)]
  = map (fun cr => crystal_set_reflections cr
                     (map (fun r => set_refinable r false)
                        (crystal_get_reflections cr)))
      [sample_crystal sample_reference].
Proof.
  assert (E : select_reflections_for_refinement
                [sample_crystal sample_reference] sample_reference true
              = Some [sample_crystal (map (fun r => set_refinable r false)
                                        sample_reference)]).
  { unfold sample_reference, sample_refl, sample_crystal. cbn.
    unfold refinement_decision. deval. reflexivity. }
  split; [exact E |].
  exact (select_reflections_for_refinement_frame _ _ _ _ E).
Defined.

Lemma count_crystals_lists (reference : option RefList) :
  forall (crystals : list Crystal) (c : cycle_counts),
    fst (count_crystals crystals reference c)
    = map (fun cr => crystal_set_reflections cr
                       (fst (select_scalable_reflections
                               (crystal_get_reflections cr) reference)))
        crystals.
Proof.
  induction crystals as [| cr rest IH]; intros c; [reflexivity |].
  simpl.
  destruct (select_scalable_reflections (crystal_get_reflections cr)
              reference) as [rf' n] eqn:E.
  match goal with
  | |- context [count_crystals rest reference ?c1] =>
      specialize (IH c1); destruct (count_crystals rest reference c1)
  end.
  simpl in *. rewrite IH. reflexivity.
Qed.

Lemma select_scalable_reflections_list (reference : option RefList)
    (list : RefList) :
  fst (select_scalable_reflections list reference)
  = map (fun r => set_scalable r (scalable_decision reference r)) list.
Proof.
  unfold select_scalable_reflections.
  destruct (select_scalable_loop list reference 0) as [list' n] eqn:E.
  apply select_scalable_loop_spec in E. destruct E as [-> _]. reflexivity.
Qed.

Lemma set_scalable_same (refl : Reflection) :
  set_scalable refl (get_scalable refl) = refl.
Proof. destruct refl; reflexivity. Qed.

(** The reflection as [select_reflections_for_refinement] leaves it when a
    reference is used. *)
Lemma refinement_decision_reference (reference : RefList) (refl : Reflection) :
  get_scalable refl = scalable_decision (Some reference) refl ->
  refinement_decision reference true refl
  = Some (set_refinable refl
            (negb (dlt (get_intensity refl)
                     (dmul (Fin 3) (get_esd_intensity refl)))
             && get_scalable refl)).
Proof.
  intros P. unfold refinement_decision.
  destruct (dlt _ _); [reflexivity |].
  unfold get_indices. simpl.
  destruct (get_scalable refl) eqn:S; simpl; [| reflexivity].
  unfold scalable_decision, get_indices in P.
  destruct (find_refl reference _ _ _); [| discriminate].
  rewrite orb_true_r. reflexivity.
Qed.

Lemma select_refinement_loop_reference (reference : RefList) :
  forall reflist : RefList,
    Forall (fun r => get_scalable r = scalable_decision (Some reference) r)
      reflist ->
    select_refinement_loop reflist reference true
    = Some (map (fun refl =>
                   set_refinable refl
                     (negb (dlt (get_intensity refl)
                              (dmul (Fin 3) (get_esd_intensity refl)))
                      && get_scalable refl)) reflist).
Proof.
  induction reflist as [| r rest IH]; intros P; [reflexivity |].
  inversion P as [| ? ? Pr Prest]; subst. simpl.
  rewrite (refinement_decision_reference reference r Pr), (IH Prest).
  reflexivity.
Qed.

Lemma select_reflections_for_refinement_reference (reference : RefList) :
  forall crystals : list Crystal,
    prepared reference crystals ->
    select_reflections_for_refinement crystals reference true
    = Some (map (fun cr =>
                   crystal_set_reflections cr
                     (map (fun refl =>
                             set_refinable refl
                               (negb (dlt (get_intensity refl)
                                        (dmul (Fin 3)
                                           (get_esd_intensity refl)))
                                && get_scalable refl))
                        (crystal_get_reflections cr))) crystals).
Proof.
  induction crystals as [| cr rest IH]; intros P; [reflexivity |].
  inversion P as [| ? ? Pc Prest]; subst. simpl.
  rewrite (select_refinement_loop_reference reference _ Pc), (IH Prest).
  reflexivity.
Qed.

Lemma prepared_after_selection (reference : RefList) :
  forall crystals : list Crystal,
    prepared reference crystals ->
    prepared reference
      (map (fun cr =>
              crystal_set_reflections cr
                (map (fun refl =>
                        set_refinable refl
                          (negb (dlt (get_intensity refl)
                                   (dmul (Fin 3) (get_esd_intensity refl)))
                           && get_scalable refl))
                   (crystal_get_reflections cr))) crystals).
Proof.
  unfold prepared. intros crystals P. rewrite Forall_map.
  eapply Forall_impl; [| exact P]. intros cr Pc. simpl.
  rewrite Forall_map. eapply Forall_impl; [| exact Pc].
  intros r Pr. destruct r; exact Pr.
Qed.

Lemma prepared_list_reselect (reference : RefList) :
  forall reflist : RefList,
    Forall (fun r => get_scalable r = scalable_decision (Some reference) r)
      reflist ->
    map (fun r => set_scalable r (scalable_decision (Some reference) r))
      reflist
    = reflist.
Proof.
  induction reflist as [| r rl IH]; intros P; [reflexivity |].
  inversion P as [| ? ? Pr Prl]; subst. cbn [map].
  rewrite <- Pr, set_scalable_same, (IH Prl). reflexivity.
Qed.

Lemma prepared_reselect (reference : RefList) :
  forall crystals : list Crystal,
    prepared reference crystals ->
    map (fun cr => crystal_set_reflections cr
                     (fst (select_scalable_reflections
                             (crystal_get_reflections cr) (Some reference))))
      crystals
    = crystals.
Proof.
  induction crystals as [| cr rest IH]; intros P; [reflexivity |].
  inversion P as [| ? ? Pc Prest]; subst. simpl. rewrite (IH Prest).
  f_equal. rewrite select_scalable_reflections_list.
  rewrite (prepared_list_reselect reference _ Pc). destruct cr; reflexivity.
Qed.

(** X4.  With a reference list and the unity model, a cycle of [main]
    started on crystals whose scalable flags were set against the reference
    never reaches the [abort()] of the selection; it leaves the scalable
    flags as they were, so the next cycle starts in the same state; and it
    flags refinable exactly the scalable reflections that are not weaker
    than three sigma. *)
Theorem post_refinement_cycle_with_reference :
  forall (pr_refine : Crystal -> RefList -> PartialityModel -> Crystal * prdata)
         (crystals : list Crystal) (n_crystals : Z) (full reference : RefList)
         (nthreads : Z),
    prepared reference crystals ->
    exists crystals' c,
      post_refinement_cycle pr_refine crystals n_crystals full
        (Some reference) true nthreads PMODEL_UNITY
      = Some (crystals', mkSrdata 0, c) /\
      prepared reference crystals' /\
      forall cr' refl',
        In cr' crystals' -> In refl' (crystal_get_reflections cr') ->
        (get_refinable refl' = true <->
         get_scalable refl' = true /\
         dlt (get_intensity refl') (dmul (Fin 3) (get_esd_intensity refl'))
         = false).
Proof.
  intros pr_refine crystals n_crystals full reference nthreads P.
  unfold post_refinement_cycle.
  rewrite (select_reflections_for_refinement_reference reference crystals P).
  pose proof (prepared_after_selection reference crystals P) as P1.
  set (crystals1 := map _ crystals) in *.
  unfold refine_all. simpl.
  pose proof (count_crystals_lists (Some reference) crystals1
                (mkCycleCounts 0 0 0 0 0)) as L.
  rewrite (prepared_reselect reference crystals1 P1) in L.
  destruct (count_crystals crystals1 (Some reference) _) as [crystals3 c].
  simpl in L. subst crystals3.
  exists crystals1, c. split; [reflexivity |]. split; [exact P1 |].
  intros cr' refl' Hc Hr. unfold crystals1 in Hc.
  apply in_map_iff in Hc. destruct Hc as (cr & <- & _). simpl in Hr.
  apply in_map_iff in Hr. destruct Hr as (r & <- & _).
  destruct r; simpl.
  destruct (dlt _ _), get_scalable0; simpl; split;
    try discriminate; try tauto; intros [? ?]; discriminate.
Qed.

Lemma post_refinement_cycle_with_reference_witness :
  prepared sample_reference prepared_crystals /\
  exists crystals' c,
    post_refinement_cycle sample_pr_refine prepared_crystals 2 []
      (Some sample_reference) true 4 PMODEL_UNITY
    = Some (crystals', mkSrdata 0, c) /\
    prepared sample_reference crystals' /\
    forall cr' refl',
      In cr' crystals' -> In refl' (crystal_get_reflections cr') ->
      (get_refinable refl' = true <->
       get_scalable refl' = true /\
       dlt (get_intensity refl') (dmul (Fin 3) (get_esd_intensity refl'))
       = false).
Proof.
  assert (P : prepared sample_reference prepared_crystals).
  { unfold prepared, prepared_crystals, select_scalable_reflections,
      sample_list, sample_reference, sample_refl, sample_crystal.
    cbn. unfold scalable_decision. deval.
    repeat constructor; unfold set_scalable, same_indices; deval;
      reflexivity. }
  split; [exact P |].
  exact (post_refinement_cycle_with_reference sample_pr_refine
           prepared_crystals 2 [] sample_reference 4 P).
Defined.

(* ================================================================== *)
(** * partialator.c: the refinement stage with a model other than unity *)

Lemma aset_app_middle {A} (pre rest : list A) (x y : A) :
  aset (pre ++ x :: rest) (length pre) y = pre ++ y :: rest.
Proof.
  induction pre as [| p pre IH]; simpl; [reflexivity |].
  rewrite IH. reflexivity.
Qed.

Lemma nth_error_app_middle {A} (pre rest : list A) (x : A) :
  nth_error (pre ++ x :: rest) (length pre) = Some x.
Proof. induction pre as [| p pre IH]; simpl; [reflexivity | exact IH]. Qed.

Section RefineStage.

Variable pr_refine : Crystal -> RefList -> PartialityModel -> Crystal * prdata.
Variable full : RefList.
Variable pmodel : PartialityModel.
Variable nthreads : Z.

Lemma run_threads_refines :
  forall (todo pre post : list Crystal) (sr : srdata) (n_done n_crystals : Z)
         (pd0 : prdata),
    (Z.of_nat (length pre + length todo) <= INT_MAX)%Z ->
    let q := run_threads pr_refine nthreads (length todo)
               (mkQueueArgs (Z.of_nat (length pre)) n_done
                  (pre ++ todo ++ post) n_crystals sr
                  (mkRefineArgs full None pmodel pd0)) in
    qa_crystals q = pre ++ refined_crystals pr_refine full pmodel todo ++ post /\
    qa_srdata q
    = mkSrdata (filtered_total pr_refine full pmodel todo (sr_n_filtered sr)).
Proof.
  induction todo as [| cr todo IH]; intros pre post sr n_done n_crystals pd0 B.
  - simpl. destruct sr; split; reflexivity.
  - cbn [run_threads length]. unfold get_image. cbn [qa_task_defaults
      qa_n_started qa_crystals ra_full ra_pmodel ra_prdata].
    unfold refine_image. cbn [ra_crystal ra_full ra_pmodel].
    rewrite Nat2Z.id.
    change (pre ++ (cr :: todo) ++ post) with (pre ++ cr :: todo ++ post).
    rewrite nth_error_app_middle.
    destruct (pr_refine cr full pmodel) as [cr' pd] eqn:R.
    rewrite aset_app_middle.
    unfold done_image.
    cbn [qa_n_started qa_n_done qa_crystals qa_n_crystals qa_srdata
         qa_task_defaults ra_prdata sr_n_filtered].
    assert (E1 : int_incr (Z.of_nat (length pre))
                 = Z.of_nat (length (pre ++ [cr']))).
    { unfold int_incr. rewrite length_app. simpl length in *.
      rewrite int_wrap_small by (unfold INT_MAX in *; lia). lia. }
    assert (E2 : pre ++ cr' :: todo ++ post = (pre ++ [cr']) ++ todo ++ post).
    { rewrite <- app_assoc. reflexivity. }
    rewrite E1, E2.
    specialize (IH (pre ++ [cr']) post
                  (mkSrdata (int_wrap (sr_n_filtered sr + n_filtered pd)))
                  (int_incr n_done) n_crystals pd0).
    destruct IH as [IH1 IH2].
    { rewrite length_app. simpl length in *. lia. }
    cbv zeta in IH1, IH2. rewrite IH1, IH2. unfold refined_crystals,
      filtered_total. cbn [map fold_left sr_n_filtered]. rewrite R. simpl.
    rewrite <- app_assoc. split; reflexivity.
Qed.

End RefineStage.

(** X5.  With a partiality model other than unity, [refine_all] over an
    array of [n_crystals] crystals refines every crystal once, in place and
    against [full], whatever the number of threads, and adds the numbers of
    reflections that [pr_refine] reports as filtered to the report data. *)
Theorem refine_all_refines_each :
  forall (pr_refine : Crystal -> RefList -> PartialityModel -> Crystal * prdata)
         (crystals : list Crystal) (n_crystals : Z) (full : RefList)
         (nthreads : Z) (pmodel : PartialityModel) (sr : srdata),
    pmodel <> PMODEL_UNITY ->
    n_crystals = Z.of_nat (length crystals) ->
    (n_crystals <= INT_MAX)%Z ->
    refine_all pr_refine crystals n_crystals full nthreads pmodel sr
    = (refined_crystals pr_refine full pmodel crystals,
       mkSrdata (filtered_total pr_refine full pmodel crystals
                   (sr_n_filtered sr))).
Proof.
  intros pr_refine crystals n_crystals full nthreads pmodel sr Hm Hn Hmax.
  unfold refine_all.
  destruct pmodel; [| contradiction]. cbn [PartialityModel_eqb].
  subst n_crystals. rewrite Nat2Z.id.
  match goal with
  | |- context [run_threads _ ?nt _ _] =>
      pose proof (run_threads_refines pr_refine full PMODEL_SPHERE nt crystals
                    [] [] sr 0 (Z.of_nat (length crystals)) (mkPrdata 0)) as H
  end.
  simpl app in H. rewrite app_nil_r in H. cbv zeta in H.
  destruct H as [H1 H2]; [simpl; lia |].
  simpl Z.of_nat in H1, H2. rewrite H1, H2, app_nil_r. reflexivity.
Qed.

Lemma refine_all_refines_each_witness :
  PMODEL_SPHERE <> PMODEL_UNITY /\
  2%Z = Z.of_nat (length [sample_crystal []; sample_crystal sample_list]) /\
  (2 <= INT_MAX)%Z /\
  refine_all sample_pr_refine [sample_crystal []; sample_crystal sample_list]
    2 [] 4 PMODEL_SPHERE (mkSrdata 0)
  = (refined_crystals sample_pr_refine [] PMODEL_SPHERE
       [sample_crystal []; sample_crystal sample_list],
     mkSrdata (filtered_total sample_pr_refine [] PMODEL_SPHERE
                 [sample_crystal []; sample_crystal sample_list] 0)).
Proof.
  assert (H1 : PMODEL_SPHERE <> PMODEL_UNITY) by discriminate.
  assert (H2 : 2%Z = Z.of_nat (length [sample_crystal [];
                                       sample_crystal sample_list]))
    by reflexivity.
  assert (H3 : (2 <= INT_MAX)%Z) by (unfold INT_MAX; lia).
  split; [exact H1 |]. split; [exact H2 |]. split; [exact H3 |].
  exact (refine_all_refines_each sample_pr_refine
           [sample_crystal []; sample_crystal sample_list] 2 [] 4
           PMODEL_SPHERE (mkSrdata 0) H1 H2 H3).
Defined.

(* ================================================================== *)
(** * partialator.c: the counters of a cycle *)

Lemma count_crystals_counts (reference : option RefList) :
  forall (crystals : list Crystal) (c : cycle_counts),
    (0 <= cc_n_dud c)%Z -> (0 <= cc_n_noref c)%Z ->
    (0 <= cc_n_solve c)%Z -> (0 <= cc_n_lost c)%Z ->
    (cc_n_dud c + Z.of_nat (length crystals) <= INT_MAX)%Z ->
    (cc_n_noref c + cc_n_solve c + cc_n_lost c <= cc_n_dud c)%Z ->
    let c' := snd (count_crystals crystals reference c) in
    cc_n_dud c'
    = (cc_n_dud c
       + Z.of_nat (length (filter (fun cr => negb (crystal_get_user_flag cr
                                                   =? 0)%Z) crystals)))%Z /\
    (cc_n_noref c' + cc_n_solve c' + cc_n_lost c' <= cc_n_dud c')%Z /\
    (Forall (fun cr => (0 <= crystal_get_user_flag cr <= 3)%Z) crystals ->
     (cc_n_noref c' + cc_n_solve c' + cc_n_lost c'
      - (cc_n_noref c + cc_n_solve c + cc_n_lost c)
      = cc_n_dud c' - cc_n_dud c)%Z).
Proof.
  induction crystals as [| cr rest IH]; intros c D N Sv L B Hle.
  - simpl. repeat split; try lia.
  - cbn [count_crystals].
    destruct (select_scalable_reflections (crystal_get_reflections cr)
                reference) as [rf' n].
    match goal with
    | |- context [count_crystals rest reference ?c1] =>
        specialize (IH c1); destruct (count_crystals rest reference c1)
          as [rest' c2] eqn:E
    end.
    cbn [snd] in *. cbn [cc_n_dud cc_n_noref cc_n_solve cc_n_lost] in IH.
    cbn [length filter] in *. unfold int_incr in IH.
    assert (W : forall z, (0 <= z)%Z ->
                (z + Z.of_nat (S (length rest)) <= INT_MAX)%Z ->
                int_wrap (z + 1) = (z + 1)%Z).
    { intros z Hz Hb. apply int_wrap_small. unfold INT_MAX in *. lia. }
    rewrite !(W (cc_n_dud c) D B) in IH.
    rewrite !(W (cc_n_noref c)) in IH by lia.
    rewrite !(W (cc_n_solve c)) in IH by lia.
    rewrite !(W (cc_n_lost c)) in IH by lia.
    destruct (Z.eqb_spec (crystal_get_user_flag cr) 0) as [F0 | F0];
      destruct (Z.eqb_spec (crystal_get_user_flag cr) 1) as [F1 | F1];
      destruct (Z.eqb_spec (crystal_get_user_flag cr) 2) as [F2 | F2];
      destruct (Z.eqb_spec (crystal_get_user_flag cr) 3) as [F3 | F3];
      try lia; cbn [negb length] in *;
      (destruct IH as (I1 & I2 & I3); [lia | lia | lia | lia | lia | lia |]);
      (split; [lia |]); (split; [lia |]);
      intros Hall; inversion Hall as [| ? ? Hcr Hrest]; subst;
      specialize (I3 Hrest); lia.
Qed.

Lemma filter_flags_after_count (reference : option RefList) (p : Z -> bool) :
  forall (crystals : list Crystal) (c : cycle_counts),
    length (filter (fun cr => p (crystal_get_user_flag cr))
              (fst (count_crystals crystals reference c)))
    = length (filter (fun cr => p (crystal_get_user_flag cr)) crystals).
Proof.
  intros crystals c. rewrite count_crystals_lists.
  induction crystals as [| cr rest IH]; [reflexivity |].
  simpl. destruct (p (crystal_get_user_flag cr)); simpl; rewrite IH;
    reflexivity.
Qed.

(** X6.  After the loop over the crystals in a cycle of [main], the counter
    [n_dud] is the number of crystals that [str_flags] marks with N; the
    three counters of the reasons never add up to more than [n_dud], and
    they add up to it when every user flag is one of 0, 1, 2, 3. *)
Theorem count_crystals_flags :
  forall (crystals crystals' : list Crystal) (reference : option RefList)
         (c : cycle_counts),
    (Z.of_nat (length crystals) <= INT_MAX)%Z ->
    count_crystals crystals reference (mkCycleCounts 0 0 0 0 0)
    = (crystals', c) ->
    cc_n_dud c
    = Z.of_nat (length (filter (fun cr => String.eqb (str_flags cr) "N")
                          crystals')) /\
    (cc_n_noref c + cc_n_solve c + cc_n_lost c <= cc_n_dud c)%Z /\
    (Forall (fun cr => (0 <= crystal_get_user_flag cr <= 3)%Z) crystals ->
     (cc_n_noref c + cc_n_solve c + cc_n_lost c = cc_n_dud c)%Z).
Proof.
  intros crystals crystals' reference c B E.
  pose proof (count_crystals_counts reference crystals
                (mkCycleCounts 0 0 0 0 0)) as H.
  pose proof (filter_flags_after_count reference
                (fun f => negb (f =? 0)%Z) crystals
                (mkCycleCounts 0 0 0 0 0)) as Hf.
  rewrite E in H, Hf. cbn [fst snd cc_n_dud cc_n_noref cc_n_solve cc_n_lost]
    in H, Hf.
  destruct H as (H1 & H2 & H3); try lia.
  split; [| split; [exact H2 | intros Hall; specialize (H3 Hall); lia]].
  rewrite H1, <- Hf. simpl. f_equal. f_equal.
  clear. induction crystals' as [| cr rest IH]; [reflexivity |].
  simpl. unfold str_flags at 1.
  destruct (crystal_get_user_flag cr =? 0)%Z; simpl; rewrite IH; reflexivity.
Qed.

Lemma count_crystals_flags_witness :
  (Z.of_nat (length flagged_crystals) <= INT_MAX)%Z /\
  exists crystals' c,
    count_crystals flagged_crystals None (mkCycleCounts 0 0 0 0 0)
    = (crystals', c) /\
    cc_n_dud c = 5%Z /\
    cc_n_dud c
    = Z.of_nat (length (filter (fun cr => String.eqb (str_flags cr) "N")
                          crystals')) /\
    (cc_n_noref c + cc_n_solve c + cc_n_lost c <= cc_n_dud c)%Z.
Proof.
  assert (B : (Z.of_nat (length flagged_crystals) <= INT_MAX)%Z)
    by (unfold INT_MAX; simpl; lia).
  split; [exact B |].
  destruct (count_crystals flagged_crystals None (mkCycleCounts 0 0 0 0 0))
    as [crystals' c] eqn:E.
  exists crystals', c. split; [reflexivity |].
  pose proof (count_crystals_flags flagged_crystals crystals' None c B E)
    as (H1 & H2 & _).
  split; [| split; [exact H1 | exact H2]].
  pose proof (count_crystals_counts None flagged_crystals
                (mkCycleCounts 0 0 0 0 0)) as H.
  rewrite E in H. simpl in H. destruct H as (H & _); try lia.
  unfold INT_MAX; lia.
Defined.

(* ================================================================== *)
(** * fom.c: the selection of the reflections to compare *)

Lemma accept_refl_spec (st : store) (p : nat) (h k l : Z) (refl : Reflection)
    (val : double) (q : nat) :
  accept_refl st p h k l refl val q
  = if Nat.eqb q p
    then st p ++ [set_intensity (copy_data (new_refl h k l) refl) val]
    else st q.
Proof.
  unfold accept_refl, add_refl, st_upd.
  repeat (progress (rewrite ?st_set_same, ?nth_error_app_middle,
                      ?aset_app_middle)).
  unfold st_set. destruct (Nat.eqb q p); reflexivity.
Qed.

Lemma copy_new_refl (refl : Reflection) (val : double) :
  set_intensity
    (copy_data (new_refl (get_h refl) (get_k refl) (get_l refl)) refl) val
  = set_intensity refl val.
Proof. destruct refl; reflexivity. Qed.

Lemma find_refl_indices (list : RefList) (h k l : Z) (r : Reflection) :
  find_refl list h k l = Some r -> get_indices r = (h, k, l).
Proof.
  unfold find_refl. intros H. apply find_some in H.
  apply same_indices_spec, H.
Qed.

Lemma get_intensity_set_intensity (refl : Reflection) (val : double) :
  get_intensity (set_intensity refl val) = val.
Proof. reflexivity. Qed.

Lemma set_intensity_twice (refl : Reflection) (v w : double) :
  set_intensity (set_intensity refl v) w = set_intensity refl w.
Proof. reflexivity. Qed.

Section SelectLoop.

Variable resolution : UnitCell -> Z -> Z -> Z -> double.
Variables list1 list2 list1_acc list2_acc : nat.
Variable cell : UnitCell.
Variables rmin_fix rmax_fix sigma_cutoff : double.
Variables ignore_negs zero_negs : bool.
Variable mul_cutoff : Z.

Hypothesis acc_distinct : list1_acc <> list2_acc.

Local Abbreviation step :=
  (select_step resolution list1 list2 list1_acc list2_acc cell rmin_fix
     rmax_fix sigma_cutoff ignore_negs zero_negs mul_cutoff).

Local Abbreviation passed :=
  (passed_tests resolution cell rmin_fix rmax_fix sigma_cutoff ignore_negs
     zero_negs mul_cutoff).

Lemma accept_pair_spec (st : store) (refl1 refl2 : Reflection)
    (val1 val2 : double) :
  let st' := accept_pair st list1_acc list2_acc (get_h refl1) (get_k refl1)
               (get_l refl1) refl1 refl2 val1 val2 in
  get_indices refl2 = get_indices refl1 ->
  (forall p, p <> list1_acc -> p <> list2_acc -> st' p = st p) /\
  st' list1_acc = st list1_acc ++ [set_intensity refl1 val1] /\
  st' list2_acc = st list2_acc ++ [set_intensity refl2 val2].
Proof.
  intros st' Hi. unfold st', accept_pair. split; [| split].
  - intros p H1 H2. rewrite !accept_refl_spec.
    destruct (Nat.eqb_spec p list2_acc); [contradiction |].
    destruct (Nat.eqb_spec p list1_acc); [contradiction | reflexivity].
  - rewrite !accept_refl_spec.
    destruct (Nat.eqb_spec list1_acc list2_acc); [contradiction |].
    rewrite Nat.eqb_refl, copy_new_refl. reflexivity.
  - rewrite !accept_refl_spec. rewrite Nat.eqb_refl.
    destruct (Nat.eqb_spec list2_acc list1_acc);
      [exfalso; apply acc_distinct; congruence |].
    unfold get_indices in Hi. injection Hi as <- <- <-.
    rewrite copy_new_refl. reflexivity.
Qed.

(** One turn of the first loop: the pair has no partner, is rejected, or is
    accepted. *)
Lemma select_step_spec (st : store) (c : select_counts) (i : nat)
    (refl1 : Reflection) :
  nth_error (st list1) i = Some refl1 ->
  exists st' c',
    step (st, c) i = Returns (st', c') /\
    (forall p, p <> list1_acc -> p <> list2_acc -> st' p = st p) /\
    ((find_refl (st list2) (get_h refl1) (get_k refl1) (get_l refl1) = None /\
      c' = c /\
      st' list1_acc = st list1_acc /\ st' list2_acc = st list2_acc)
     \/
     (exists refl2,
        find_refl (st list2) (get_h refl1) (get_k refl1) (get_l refl1)
        = Some refl2 /\
        st' list1_acc = st list1_acc /\ st' list2_acc = st list2_acc /\
        (c' = incr_nrej c \/ (ignore_negs = true /\ c' = incr_nneg c) \/
         c' = incr_nmul c \/ c' = incr_nres c \/
         (ignore_negs = false /\ c' = incr_nres (incr_nneg c))))
     \/
     (exists refl2 a1 a2,
        find_refl (st list2) (get_h refl1) (get_k refl1) (get_l refl1)
        = Some refl2 /\
        st' list1_acc = st list1_acc ++ [a1] /\
        st' list2_acc = st list2_acc ++ [a2] /\
        (c' = incr_ncom c \/
         (ignore_negs = false /\ c' = incr_ncom (incr_nneg c))) /\
        passed refl1 refl2 a1 a2)).
Proof.
  intros Hn. unfold select_step. rewrite Hn. unfold get_indices.
  destruct (find_refl (st list2) (get_h refl1) (get_k refl1) (get_l refl1))
    as [refl2 |] eqn:F.
  2: { exists st, c. split; [reflexivity |]. split; [reflexivity |].
       left. repeat split; reflexivity. }
  pose proof (find_refl_indices _ _ _ _ _ F) as Hidx.
  cbv zeta.
  destruct (dlt (get_intensity refl1)
              (dmul sigma_cutoff (get_esd_intensity refl1))
            || dlt (get_intensity refl2)
                 (dmul sigma_cutoff (get_esd_intensity refl2))) eqn:T1.
  { exists st, (incr_nrej c). split; [reflexivity |]. split; [reflexivity |].
    right; left. exists refl2. repeat split. left; reflexivity. }
  apply orb_false_elim in T1. destruct T1 as [T1a T1b].
  destruct (ignore_negs
            && (dlt (get_intensity refl1) (Fin 0)
                || dlt (get_intensity refl2) (Fin 0))) eqn:T2.
  { exists st, (incr_nneg c). split; [reflexivity |]. split; [reflexivity |].
    right; left. exists refl2. repeat split. right; left.
    apply andb_prop in T2. split; [apply T2 | reflexivity]. }
  destruct ((get_redundancy refl1 <? mul_cutoff)%Z
            || (get_redundancy refl2 <? mul_cutoff)%Z) eqn:T3.
  { exists st, (incr_nmul c). split; [reflexivity |]. split; [reflexivity |].
    right; left. exists refl2. repeat split. right; right; left; reflexivity. }
  apply orb_false_elim in T3. destruct T3 as [T3a T3b].
  apply Z.ltb_ge in T3a, T3b.
  assert (Hd : zero_negs
               && (dlt (get_intensity refl1) (Fin 0)
                   || dlt (get_intensity refl2) (Fin 0)) = true ->
               ignore_negs = false).
  { intros Hd. apply andb_prop in Hd. destruct Hd as [_ Hd].
    rewrite Hd, andb_true_r in T2. exact T2. }
  destruct (dgt rmin_fix (Fin 0)
            && dlt (dmul (Fin 2)
                      (resolution cell (get_h refl1) (get_k refl1)
                         (get_l refl1))) rmin_fix) eqn:T4.
  { eexists st, _. split; [reflexivity |]. split; [reflexivity |].
    right; left. exists refl2. repeat split.
    destruct (zero_negs && _) eqn:Ed; [| tauto].
    right; right; right; right. split; [apply Hd; reflexivity | reflexivity]. }
  destruct (dgt rmax_fix (Fin 0)
            && dgt (dmul (Fin 2)
                      (resolution cell (get_h refl1) (get_k refl1)
                         (get_l refl1))) rmax_fix) eqn:T5.
  { eexists st, _. split; [reflexivity |]. split; [reflexivity |].
    right; left. exists refl2. repeat split.
    destruct (zero_negs && _) eqn:Ed; [| tauto].
    right; right; right; right. split; [apply Hd; reflexivity | reflexivity]. }
  eexists _, _. split; [reflexivity |].
  assert (Hidx' : get_indices refl2 = get_indices refl1) by exact Hidx.
  match goal with
  | |- context [accept_pair st list1_acc list2_acc _ _ _ refl1 refl2 ?v1 ?v2] =>
      pose proof (accept_pair_spec st refl1 refl2 v1 v2 Hidx')
        as (A0 & A1 & A2)
  end.
  split; [exact A0 |]. right; right.
  eexists refl2, _, _. split; [reflexivity |].
  split; [exact A1 |]. split; [exact A2 |].
  split.
  { destruct (zero_negs && (_ || _)) eqn:Ed; [| left; reflexivity].
    right. split; [apply Hd; reflexivity | reflexivity]. }
  unfold passed_tests. rewrite ?get_intensity_set_intensity,
    ?set_intensity_twice.
  split; [exact Hidx' |]. split; [reflexivity |]. split; [reflexivity |].
  split; [reflexivity |]. split; [reflexivity |].
  split; [exact T1a |]. split; [exact T1b |].
  split; [intros ->; simpl in T2; apply orb_false_elim in T2; exact T2 |].
  split; [exact T3a |]. split; [exact T3b |].
  split; [intros G; rewrite G in T4; exact T4
         | intros G; rewrite G in T5; exact T5].
Qed.

End SelectLoop.

Lemma rejected_counts (ignore_negs : bool) (c c1 : select_counts) (k : Z) :
  counts_within c 0 k -> (k + 1 <= INT_MAX)%Z ->
  (c1 = incr_nrej c \/ (ignore_negs = true /\ c1 = incr_nneg c) \/
   c1 = incr_nmul c \/ c1 = incr_nres c \/
   (ignore_negs = false /\ c1 = incr_nres (incr_nneg c))) ->
  counts_within c1 0 (k + 1) /\
  settled ignore_negs c1 = (settled ignore_negs c + 1)%Z /\
  ncom c1 = ncom c /\ nbij c1 = nbij c /\ ncen c1 = ncen c.
Proof.
  unfold counts_within, settled, INT_MAX. intros W B H.
  assert (I : forall z, (0 <= z <= k)%Z -> int_incr z = (z + 1)%Z).
  { intros z Hz. unfold int_incr. apply int_wrap_small.
    unfold INT_MAX. lia. }
  destruct W as (W1 & W2 & W3 & W4 & W5).
  destruct H as [-> | [[-> ->] | [-> | [-> | [-> ->]]]]]; simpl;
    rewrite ?(I _ W1), ?(I _ W2), ?(I _ W3), ?(I _ W4), ?(I _ W5);
    repeat split; lia.
Qed.

Lemma accepted_counts (ignore_negs : bool) (c c1 : select_counts) (k : Z) :
  counts_within c 0 k -> (k + 1 <= INT_MAX)%Z ->
  (c1 = incr_ncom c \/
   (ignore_negs = false /\ c1 = incr_ncom (incr_nneg c))) ->
  counts_within c1 0 (k + 1) /\
  settled ignore_negs c1 = (settled ignore_negs c + 1)%Z /\
  ncom c1 = (ncom c + 1)%Z /\ nbij c1 = nbij c /\ ncen c1 = ncen c.
Proof.
  unfold counts_within, settled, INT_MAX. intros W B H.
  assert (I : forall z, (0 <= z <= k)%Z -> int_incr z = (z + 1)%Z).
  { intros z Hz. unfold int_incr. apply int_wrap_small.
    unfold INT_MAX. lia. }
  destruct W as (W1 & W2 & W3 & W4 & W5).
  destruct H as [-> | [-> ->]]; simpl;
    rewrite ?(I _ W1), ?(I _ W2), ?(I _ W3), ?(I _ W4), ?(I _ W5);
    repeat split; lia.
Qed.

Lemma counts_within_weaken (c : select_counts) (lo hi hi' : Z) :
  counts_within c lo hi -> (hi <= hi')%Z -> counts_within c lo hi'.
Proof. unfold counts_within. intros H L. repeat split; lia. Qed.

Section SelectPass.

Variable resolution : UnitCell -> Z -> Z -> Z -> double.
Variables list1 list2 list1_acc list2_acc : nat.
Variable cell : UnitCell.
Variables rmin_fix rmax_fix sigma_cutoff : double.
Variables ignore_negs zero_negs : bool.
Variable mul_cutoff : Z.

Hypothesis acc_distinct : list1_acc <> list2_acc.
Hypothesis list1_not_acc1 : list1 <> list1_acc.
Hypothesis list1_not_acc2 : list1 <> list2_acc.
Hypothesis list2_not_acc1 : list2 <> list1_acc.
Hypothesis list2_not_acc2 : list2 <> list2_acc.

Local Abbreviation step :=
  (select_step resolution list1 list2 list1_acc list2_acc cell rmin_fix
     rmax_fix sigma_cutoff ignore_negs zero_negs mul_cutoff).

Local Abbreviation passed :=
  (passed_tests resolution cell rmin_fix rmax_fix sigma_cutoff ignore_negs
     zero_negs mul_cutoff).

(** The first loop: it always runs to its end, it appends the accepted
    copies pair by pair, and its counters add up. *)
Lemma select_loop_spec :
  forall (idx : list nat) (st : store) (c : select_counts),
    exists st' c' new1 new2,
      run_loop step idx (st, c) = Returns (st', c') /\
      (forall p, p <> list1_acc -> p <> list2_acc -> st' p = st p) /\
      st' list1_acc = st list1_acc ++ new1 /\
      st' list2_acc = st list2_acc ++ new2 /\
      Forall2 (fun a1 a2 =>
                 exists refl1 refl2,
                   In refl1 (visited (st list1) idx) /\
                   find_refl (st list2) (get_h refl1) (get_k refl1)
                     (get_l refl1) = Some refl2 /\
                   passed refl1 refl2 a1 a2) new1 new2 /\
      (forall k,
         counts_within c 0 k ->
         (k + Z.of_nat (length idx) <= INT_MAX)%Z ->
         counts_within c' 0 (k + Z.of_nat (length idx)) /\
         ncom c' = (ncom c + Z.of_nat (length new1))%Z /\
         settled ignore_negs c'
         = (settled ignore_negs c
            + Z.of_nat (length (with_partner (visited (st list1) idx)
                                  (st list2))))%Z /\
         nbij c' = nbij c /\ ncen c' = ncen c).
Proof.
  induction idx as [| i idx IH]; intros st c.
  - exists st, c, [], []. split; [reflexivity |]. split; [reflexivity |].
    rewrite !app_nil_r. split; [reflexivity |]. split; [reflexivity |].
    split; [constructor |]. intros k W B. simpl in *.
    rewrite !Z.add_0_r. repeat split; try apply W; reflexivity.
  - cbn [run_loop].
    destruct (nth_error (st list1) i) as [refl1 |] eqn:Hn.
    + destruct (select_step_spec resolution list1 list2 list1_acc list2_acc
                  cell rmin_fix rmax_fix sigma_cutoff ignore_negs zero_negs
                  mul_cutoff acc_distinct st c i refl1 Hn)
        as (st1 & c1 & E & Fr & Cases).
      rewrite E. cbn [bind].
      destruct (IH st1 c1) as (st' & c' & n1 & n2 & R & Fr' & A1 & A2 & P & Cn).
      assert (L1 : st1 list1 = st list1) by (apply Fr; assumption).
      assert (L2 : st1 list2 = st list2) by (apply Fr; assumption).
      rewrite L1, L2 in *.
      assert (V : visited (st list1) (i :: idx)
                  = refl1 :: visited (st list1) idx).
      { unfold visited. simpl. rewrite Hn. reflexivity. }
      assert (Pw : Forall2 (fun a1 a2 =>
                    exists refl1 refl2,
                      In refl1 (visited (st list1) (i :: idx)) /\
                      find_refl (st list2) (get_h refl1) (get_k refl1)
                        (get_l refl1) = Some refl2 /\
                      passed refl1 refl2 a1 a2) n1 n2).
      { eapply Forall2_impl; [| exact P].
        intros a b (r1 & r2 & Hin & Hf & Hp). exists r1, r2.
        rewrite V. split; [right; exact Hin | split; assumption]. }
      destruct Cases as [(Fn & -> & B1 & B2)
                        | [(refl2 & Fs & B1 & B2 & Hc)
                          | (refl2 & a1 & a2 & Fs & B1 & B2 & Hc & Hp)]].
      * exists st', c', n1, n2. split; [exact R |].
        split; [intros p H1 H2; rewrite Fr', Fr by assumption; reflexivity |].
        split; [congruence |]. split; [congruence |]. split; [exact Pw |].
        intros k W B. cbn [length] in B.
        destruct (Cn k W ltac:(lia)) as (W' & N' & S' & J1 & J2).
        split; [eapply counts_within_weaken; [exact W' |
                  cbn [length]; lia] |].
        split; [exact N' |]. split; [| split; assumption].
        rewrite S', V. unfold with_partner. cbn [filter]. rewrite Fn.
        reflexivity.
      * exists st', c', n1, n2. split; [exact R |].
        split; [intros p H1 H2; rewrite Fr', Fr by assumption; reflexivity |].
        split; [congruence |]. split; [congruence |]. split; [exact Pw |].
        intros k W B. cbn [length] in B.
        destruct (rejected_counts ignore_negs c c1 k W ltac:(lia) Hc)
          as (W1 & S1 & N1 & J1 & J2).
        destruct (Cn (k + 1)%Z W1 ltac:(lia)) as (W' & N' & S' & J1' & J2').
        split; [eapply counts_within_weaken; [exact W' |
                  cbn [length]; lia] |].
        split; [lia |]. split; [| split; congruence].
        rewrite S', S1, V. unfold with_partner. cbn [filter]. rewrite Fs.
        cbn [length]. lia.
      * exists st', c', (a1 :: n1), (a2 :: n2). split; [exact R |].
        split; [intros p H1 H2; rewrite Fr', Fr by assumption; reflexivity |].
        split; [rewrite A1, B1, <- app_assoc; reflexivity |].
        split; [rewrite A2, B2, <- app_assoc; reflexivity |].
        split.
        { constructor; [| exact Pw]. exists refl1, refl2.
          rewrite V. split; [left; reflexivity | split; assumption]. }
        intros k W B. cbn [length] in B.
        destruct (accepted_counts ignore_negs c c1 k W ltac:(lia) Hc)
          as (W1 & S1 & N1 & J1 & J2).
        destruct (Cn (k + 1)%Z W1 ltac:(lia)) as (W' & N' & S' & J1' & J2').
        split; [eapply counts_within_weaken; [exact W' |
                  cbn [length]; lia] |].
        split; [cbn [length]; lia |]. split; [| split; congruence].
        rewrite S', S1, V. unfold with_partner. cbn [filter]. rewrite Fs.
        cbn [length]. lia.
    + assert (E : step (st, c) i = Returns (st, c)).
      { unfold select_step. rewrite Hn. reflexivity. }
      rewrite E. cbn [bind].
      destruct (IH st c) as (st' & c' & n1 & n2 & R & Fr' & A1 & A2 & P & Cn).
      assert (V : visited (st list1) (i :: idx) = visited (st list1) idx).
      { unfold visited. simpl. rewrite Hn. reflexivity. }
      exists st', c', n1, n2. split; [exact R |]. split; [exact Fr' |].
      split; [exact A1 |]. split; [exact A2 |]. rewrite V.
      split; [exact P |].
      intros k W B. cbn [length] in B.
      destruct (Cn k W ltac:(lia)) as (W' & N' & S' & J1 & J2).
      split; [eapply counts_within_weaken; [exact W' | cbn [length]; lia] |].
      repeat split; assumption.
Qed.

End SelectPass.

Section BijvoetPass.

Variable is_centric : Z -> Z -> Z -> SymOpList -> bool.
Variable find_equiv_in_list :
  RefList -> Z -> Z -> Z -> SymOpList -> option (Z * Z * Z).
Variables list1 list2 list1_acc list2_acc : nat.
Variable sym : SymOpList.

Local Abbreviation step :=
  (bijvoet_step is_centric find_equiv_in_list list1 list2 list1_acc list2_acc
     sym).

(** The second loop writes to its two new lists only, and leaves the
    counters of the first loop alone, [ncom] apart. *)
Lemma bijvoet_step_frame (st st' : store) (c c' : select_counts) (i : nat) :
  step (st, c) i = Returns (st', c') ->
  (forall p, p <> list1_acc -> p <> list2_acc -> st' p = st p) /\
  nrej c' = nrej c /\ nmul c' = nmul c /\ nneg c' = nneg c /\
  nres c' = nres c.
Proof.
  unfold bijvoet_step.
  destruct (nth_error (st list1) i) as [refl1 |];
    [| intros [= <- <-]; repeat split; reflexivity].
  unfold get_indices.
  destruct (find_refl (st list2) _ _ _) as [refl2 |]; [| discriminate].
  destruct (is_centric _ _ _ sym);
    [intros [= <- <-]; repeat split; reflexivity |].
  destruct (bijvoet_refl find_equiv_in_list (st list1) _ _ _ sym);
    [| intros [= <- <-]; repeat split; reflexivity].
  destruct (bijvoet_refl find_equiv_in_list (st list2) _ _ _ sym);
    [| intros [= <- <-]; repeat split; reflexivity].
  intros [= <- <-]. repeat split.
  intros p H1 H2. unfold accept_pair. rewrite !accept_refl_spec.
  destruct (Nat.eqb_spec p list2_acc); [contradiction |].
  destruct (Nat.eqb_spec p list1_acc); [contradiction | reflexivity].
Qed.

Lemma bijvoet_loop_frame (idx : list nat) (st st' : store)
    (c c' : select_counts) :
  run_loop step idx (st, c) = Returns (st', c') ->
  (forall p, p <> list1_acc -> p <> list2_acc -> st' p = st p) /\
  nrej c' = nrej c /\ nmul c' = nmul c /\ nneg c' = nneg c /\
  nres c' = nres c.
Proof.
  intros H.
  refine (run_loop_invariant
            (fun s => (forall p, p <> list1_acc -> p <> list2_acc ->
                                 fst s p = st p) /\
                      nrej (snd s) = nrej c /\ nmul (snd s) = nmul c /\
                      nneg (snd s) = nneg c /\ nres (snd s) = nres c)
            step _ idx (st, c) (st', c') _ H).
  - intros [s1 c1] j [s2 c2] (I0 & I1 & I2 & I3 & I4) E.
    apply bijvoet_step_frame in E. destruct E as (F0 & F1 & F2 & F3 & F4).
    simpl in *. repeat split; try congruence.
    intros p H1 H2. rewrite F0, I0 by assumption. reflexivity.
  - simpl. repeat split; reflexivity.
Qed.

Hypothesis list1_not_acc1 : list1 <> list1_acc.
Hypothesis list1_not_acc2 : list1 <> list2_acc.
Hypothesis list2_not_acc1 : list2 <> list1_acc.
Hypothesis list2_not_acc2 : list2 <> list2_acc.

(** When every reflection of the first list has a partner in the second,
    the [assert] of the second loop holds at every turn. *)
Lemma bijvoet_loop_returns (l1 l2 : RefList) :
  (forall refl1, In refl1 l1 ->
     find_refl l2 (get_h refl1) (get_k refl1) (get_l refl1) <> None) ->
  forall (idx : list nat) (st : store) (c : select_counts),
    st list1 = l1 -> st list2 = l2 ->
    exists s', run_loop step idx (st, c) = Returns s'.
Proof.
  intros Hp. induction idx as [| i idx IH]; intros st c E1 E2.
  - eexists. reflexivity.
  - cbn [run_loop].
    destruct (step (st, c) i) as [[st1 c1] |] eqn:E.
    + cbn [bind]. apply bijvoet_step_frame in E. destruct E as (F & _).
      apply IH; rewrite F by assumption; assumption.
    + exfalso. unfold bijvoet_step in E.
      destruct (nth_error (st list1) i) as [refl1 |] eqn:Hn;
        [| discriminate].
      unfold get_indices in E.
      destruct (find_refl (st list2) _ _ _) as [refl2 |] eqn:Ff.
      * destruct (is_centric _ _ _ sym); [discriminate |].
        destruct (bijvoet_refl find_equiv_in_list (st list1) _ _ _ sym);
          [| discriminate].
        destruct (bijvoet_refl find_equiv_in_list (st list2) _ _ _ sym);
          discriminate.
      * apply (Hp refl1); [| congruence].
        rewrite <- E1. eapply nth_error_In; eassumption.
Qed.

End BijvoetPass.

Lemma keys_find (l1 l2 : RefList) :
  map get_indices l1 = map get_indices l2 ->
  forall refl1, In refl1 l1 ->
    find_refl l2 (get_h refl1) (get_k refl1) (get_l refl1) <> None.
Proof.
  intros K refl1 Hin F.
  assert (Hk : In (get_indices refl1) (map get_indices l2)).
  { rewrite <- K. apply in_map, Hin. }
  apply in_map_iff in Hk. destruct Hk as (refl2 & Hi & Hin2).
  unfold find_refl in F.
  pose proof (find_none _ _ F refl2 Hin2) as N.
  unfold get_indices in Hi. injection Hi as E1 E2 E3.
  unfold same_indices in N. rewrite E1, E2, E3, !Z.eqb_refl in N.
  discriminate.
Qed.

Lemma passed_pairs_keys
    (Q : Reflection -> Reflection -> Reflection -> Reflection -> Prop)
    (new1 new2 : RefList) :
  (forall refl1 refl2 a1 a2, Q refl1 refl2 a1 a2 ->
     get_indices a2 = get_indices a1) ->
  Forall2 (fun a1 a2 => exists refl1 refl2, Q refl1 refl2 a1 a2) new1 new2 ->
  map get_indices new1 = map get_indices new2.
Proof.
  intros HQ H. induction H as [| a1 a2 n1 n2 (r1 & r2 & Hq) _ IH];
    [reflexivity |].
  simpl. rewrite IH, (HQ r1 r2 a1 a2 Hq). reflexivity.
Qed.

Lemma passed_tests_keys (resolution : UnitCell -> Z -> Z -> Z -> double)
    (cell : UnitCell) (rmin_fix rmax_fix sigma_cutoff : double)
    (ignore_negs zero_negs : bool) (mul_cutoff : Z)
    (refl1 refl2 a1 a2 : Reflection) :
  passed_tests resolution cell rmin_fix rmax_fix sigma_cutoff ignore_negs
    zero_negs mul_cutoff refl1 refl2 a1 a2 ->
  get_indices a2 = get_indices a1.
Proof.
  intros (K & -> & -> & _). exact K.
Qed.

(** X7.  [fom_select_reflections] always returns when the four lists are
    different lists and the two lists for the accepted pairs hold the same
    keys on entry (two new lists do); it leaves the lists it compares as they
    were; and the accepted lists it hands back hold the same keys, entry for
    entry, so that every reflection of the first has a partner in the second:
    what [wilson_scale] and [fom_calculate] assert of their arguments. *)
Theorem fom_select_reflections_pairs :
  forall (resolution : UnitCell -> Z -> Z -> Z -> double)
         (is_centric : Z -> Z -> Z -> SymOpList -> bool)
         (find_equiv_in_list :
            RefList -> Z -> Z -> Z -> SymOpList -> option (Z * Z * Z))
         (hp : heap) (list1 list2 list1_acc list2_acc : nat)
         (cell : UnitCell) (sym : SymOpList) (anom : bool)
         (rmin_fix rmax_fix sigma_cutoff : double)
         (ignore_negs zero_negs : bool) (mul_cutoff : Z),
    list1_acc <> list2_acc ->
    list1 <> list1_acc -> list1 <> list2_acc ->
    list2 <> list1_acc -> list2 <> list2_acc ->
    (list1 < h_next hp)%nat -> (list2 < h_next hp)%nat ->
    (list1_acc < h_next hp)%nat -> (list2_acc < h_next hp)%nat ->
    map get_indices (h_lists hp list1_acc)
    = map get_indices (h_lists hp list2_acc) ->
    exists hp' c,
      fom_select_reflections resolution is_centric find_equiv_in_list hp
        list1 list2 list1_acc list2_acc cell sym anom rmin_fix rmax_fix
        sigma_cutoff ignore_negs zero_negs mul_cutoff
      = Returns (hp', c) /\
      h_lists hp' list1 = h_lists hp list1 /\
      h_lists hp' list2 = h_lists hp list2 /\
      map get_indices (h_lists hp' list1_acc)
      = map get_indices (h_lists hp' list2_acc) /\
      forall refl1, In refl1 (h_lists hp' list1_acc) ->
        find_refl (h_lists hp' list2_acc) (get_h refl1) (get_k refl1)
          (get_l refl1) <> None.
Proof.
  intros resolution is_centric find_equiv_in_list hp list1 list2 list1_acc
    list2_acc cell sym anom rmin_fix rmax_fix sigma_cutoff ignore_negs
    zero_negs mul_cutoff D0 D1 D2 D3 D4 V1 V2 V3 V4 K.
  unfold fom_select_reflections.
  destruct (select_loop_spec resolution list1 list2 list1_acc list2_acc cell
              rmin_fix rmax_fix sigma_cutoff ignore_negs zero_negs mul_cutoff
              D0 D1 D2 D3 D4
              (seq 0 (length (h_lists hp list1))) (h_lists hp)
              (mkSelectCounts 0 0 0 0 0 0 0))
    as (st1 & c1 & new1 & new2 & R & Fr & A1 & A2 & P & _).
  cbv zeta. rewrite R. cbn [bind].
  assert (K1 : map get_indices (st1 list1_acc)
               = map get_indices (st1 list2_acc)).
  { rewrite A1, A2, !map_app, K. f_equal.
    apply (passed_pairs_keys
             (fun r1 r2 a1 a2 =>
                In r1 (visited (h_lists hp list1)
                         (seq 0 (length (h_lists hp list1)))) /\
                find_refl (h_lists hp list2) (get_h r1) (get_k r1) (get_l r1)
                = Some r2 /\
                passed_tests resolution cell rmin_fix rmax_fix sigma_cutoff
                  ignore_negs zero_negs mul_cutoff r1 r2 a1 a2));
      [| exact P].
    intros r1 r2 a1 a2 (_ & _ & Hp).
    eapply passed_tests_keys; exact Hp. }
  destruct anom.
  - unfold reflist_new. cbn [h_lists h_next fst snd].
    set (n := h_next hp) in *.
    set (st2 := st_set (st_set st1 n []) (S n) []).
    assert (S2 : forall p, (p < n)%nat -> st2 p = st1 p).
    { intros p Hp. unfold st2. rewrite !st_set_other by lia. reflexivity. }
    destruct (bijvoet_loop_returns is_centric find_equiv_in_list
                list1_acc list2_acc n (S n) sym
                ltac:(lia) ltac:(lia) ltac:(lia) ltac:(lia)
                (st1 list1_acc) (st1 list2_acc) (keys_find _ _ K1)
                (seq 0 (length (st2 list1_acc))) st2 (reset_ncom c1)
                (S2 _ V3) (S2 _ V4)) as ([st3 c3] & R3).
    rewrite R3. cbn [bind].
    destruct (bijvoet_loop_frame is_centric find_equiv_in_list
                list1_acc list2_acc n (S n) sym _ _ _ _ _ R3) as (F3 & _).
    assert (S3 : forall p, (p < n)%nat -> st3 p = st1 p).
    { intros p Hp. rewrite F3, S2 by lia. reflexivity. }
    eexists _, _. split; [reflexivity |]. cbn [h_lists].
    rewrite !S3 by assumption.
    split; [apply Fr; assumption |]. split; [apply Fr; assumption |].
    split; [exact K1 | exact (keys_find _ _ K1)].
  - eexists _, _. split; [reflexivity |]. cbn [h_lists].
    split; [apply Fr; assumption |]. split; [apply Fr; assumption |].
    split; [exact K1 | exact (keys_find _ _ K1)].
Qed.

(** X8.  The second loop of [fom_select_reflections], which keeps the pairs
    with Bijvoet partners for the anomalous figures of merit, fills two lists
    of its own: every list that existed before the call, the two accepted
    lists of the caller among them, is the same after a call with [anom] as
    after a call without it, and so are the counters of the first loop other
    than [ncom]. *)
Theorem fom_select_reflections_anom_lists :
  forall (resolution : UnitCell -> Z -> Z -> Z -> double)
         (is_centric : Z -> Z -> Z -> SymOpList -> bool)
         (find_equiv_in_list :
            RefList -> Z -> Z -> Z -> SymOpList -> option (Z * Z * Z))
         (hp : heap) (list1 list2 list1_acc list2_acc : nat)
         (cell : UnitCell) (sym : SymOpList)
         (rmin_fix rmax_fix sigma_cutoff : double)
         (ignore_negs zero_negs : bool) (mul_cutoff : Z)
         (hp_t : heap) (c_t : select_counts),
    fom_select_reflections resolution is_centric find_equiv_in_list hp
      list1 list2 list1_acc list2_acc cell sym true rmin_fix rmax_fix
      sigma_cutoff ignore_negs zero_negs mul_cutoff
    = Returns (hp_t, c_t) ->
    exists hp_f c_f,
      fom_select_reflections resolution is_centric find_equiv_in_list hp
        list1 list2 list1_acc list2_acc cell sym false rmin_fix rmax_fix
        sigma_cutoff ignore_negs zero_negs mul_cutoff
      = Returns (hp_f, c_f) /\
      (forall p, (p < h_next hp)%nat -> h_lists hp_t p = h_lists hp_f p) /\
      nrej c_t = nrej c_f /\ nmul c_t = nmul c_f /\
      nneg c_t = nneg c_f /\ nres c_t = nres c_f.
Proof.
  intros resolution is_centric find_equiv_in_list hp list1 list2 list1_acc
    list2_acc cell sym rmin_fix rmax_fix sigma_cutoff ignore_negs zero_negs
    mul_cutoff hp_t c_t H.
  unfold fom_select_reflections in *. cbv zeta in *.
  destruct (run_loop _ (seq 0 (length (h_lists hp list1))) _)
    as [[st1 c1] |]; [| discriminate].
  cbn [bind] in *. unfold reflist_new in H. cbn [h_lists h_next] in H.
  match type of H with
  | bind (run_loop ?f ?idx ?s0) _ = _ =>
      destruct (run_loop f idx s0) as [[st3 c3] |] eqn:R3; [| discriminate]
  end.
  cbn [bind] in H. injection H as <- <-.
  apply bijvoet_loop_frame in R3. destruct R3 as (F & C1 & C2 & C3 & C4).
  eexists _, _. split; [reflexivity |]. cbn [h_lists].
  split; [| repeat split; assumption].
  intros p Hp. rewrite F by lia. rewrite !st_set_other by lia. reflexivity.
Qed.

Lemma passed_tests_not_negative
    (resolution : UnitCell -> Z -> Z -> Z -> double)
    (cell : UnitCell) (rmin_fix rmax_fix sigma_cutoff : double)
    (ignore_negs zero_negs : bool) (mul_cutoff : Z)
    (refl1 refl2 a1 a2 : Reflection) :
  ignore_negs || zero_negs = true ->
  passed_tests resolution cell rmin_fix rmax_fix sigma_cutoff ignore_negs
    zero_negs mul_cutoff refl1 refl2 a1 a2 ->
  dlt (get_intensity a1) (Fin 0) = false /\
  dlt (get_intensity a2) (Fin 0) = false.
Proof.
  intros Hz (_ & _ & _ & I1 & I2 & _ & _ & Hn & _).
  rewrite I1, I2.
  assert (Z0 : dlt (Fin 0) (Fin 0) = false).
  { unfold dlt, dcmp. rewrite Rltb_false by lra. reflexivity. }
  destruct ignore_negs.
  - destruct (Hn eq_refl) as [N1 N2]. rewrite N1, N2, !andb_false_r.
    split; assumption.
  - simpl in Hz. subst zero_negs. simpl.
    destruct (dlt (get_intensity refl1) (Fin 0)) eqn:E1;
      destruct (dlt (get_intensity refl2) (Fin 0)) eqn:E2;
      split; assumption.
Qed.

(** X9.  Without [anom], [fom_select_reflections] appends to the two
    accepted lists, pair by pair, copies of reflections of the first list and
    of their partners in the second that passed every test: neither is below
    the sigma cutoff, both have been measured [mul_cutoff] times or more, the
    doubled resolution is inside the fixed bounds that are positive, and with
    [ignore_negs] neither is negative; the copies differ from the originals
    in the intensity only, and only where [zero_negs] put a zero. *)
Theorem fom_select_reflections_accepted :
  forall (resolution : UnitCell -> Z -> Z -> Z -> double)
         (is_centric : Z -> Z -> Z -> SymOpList -> bool)
         (find_equiv_in_list :
            RefList -> Z -> Z -> Z -> SymOpList -> option (Z * Z * Z))
         (hp : heap) (list1 list2 list1_acc list2_acc : nat)
         (cell : UnitCell) (sym : SymOpList)
         (rmin_fix rmax_fix sigma_cutoff : double)
         (ignore_negs zero_negs : bool) (mul_cutoff : Z),
    list1_acc <> list2_acc ->
    list1 <> list1_acc -> list1 <> list2_acc ->
    list2 <> list1_acc -> list2 <> list2_acc ->
    exists hp' c new1 new2,
      fom_select_reflections resolution is_centric find_equiv_in_list hp
        list1 list2 list1_acc list2_acc cell sym false rmin_fix rmax_fix
        sigma_cutoff ignore_negs zero_negs mul_cutoff
      = Returns (hp', c) /\
      h_lists hp' list1_acc = h_lists hp list1_acc ++ new1 /\
      h_lists hp' list2_acc = h_lists hp list2_acc ++ new2 /\
      Forall2 (fun a1 a2 =>
                 exists refl1 refl2,
                   In refl1 (h_lists hp list1) /\
                   find_refl (h_lists hp list2) (get_h refl1) (get_k refl1)
                     (get_l refl1) = Some refl2 /\
                   passed_tests resolution cell rmin_fix rmax_fix
                     sigma_cutoff ignore_negs zero_negs mul_cutoff
                     refl1 refl2 a1 a2) new1 new2.
Proof.
  intros resolution is_centric find_equiv_in_list hp list1 list2 list1_acc
    list2_acc cell sym rmin_fix rmax_fix sigma_cutoff ignore_negs zero_negs
    mul_cutoff D0 D1 D2 D3 D4.
  unfold fom_select_reflections.
  destruct (select_loop_spec resolution list1 list2 list1_acc list2_acc cell
              rmin_fix rmax_fix sigma_cutoff ignore_negs zero_negs mul_cutoff
              D0 D1 D2 D3 D4
              (seq 0 (length (h_lists hp list1))) (h_lists hp)
              (mkSelectCounts 0 0 0 0 0 0 0))
    as (st1 & c1 & new1 & new2 & R & Fr & A1 & A2 & P & _).
  cbv zeta. rewrite R. cbn [bind]. rewrite visited_all in P.
  exists (mkHeap st1 (h_next hp)), c1, new1, new2.
  split; [reflexivity |]. split; [exact A1 |]. split; [exact A2 | exact P].
Qed.

(** X10.  With [ignore_negs] or [zero_negs], no intensity that
    [fom_select_reflections] puts into the accepted lists is negative. *)
Theorem fom_select_reflections_no_negatives :
  forall (resolution : UnitCell -> Z -> Z -> Z -> double)
         (is_centric : Z -> Z -> Z -> SymOpList -> bool)
         (find_equiv_in_list :
            RefList -> Z -> Z -> Z -> SymOpList -> option (Z * Z * Z))
         (hp : heap) (list1 list2 list1_acc list2_acc : nat)
         (cell : UnitCell) (sym : SymOpList)
         (rmin_fix rmax_fix sigma_cutoff : double)
         (ignore_negs zero_negs : bool) (mul_cutoff : Z),
    list1_acc <> list2_acc ->
    list1 <> list1_acc -> list1 <> list2_acc ->
    list2 <> list1_acc -> list2 <> list2_acc ->
    ignore_negs || zero_negs = true ->
    exists hp' c new1 new2,
      fom_select_reflections resolution is_centric find_equiv_in_list hp
        list1 list2 list1_acc list2_acc cell sym false rmin_fix rmax_fix
        sigma_cutoff ignore_negs zero_negs mul_cutoff
      = Returns (hp', c) /\
      h_lists hp' list1_acc = h_lists hp list1_acc ++ new1 /\
      h_lists hp' list2_acc = h_lists hp list2_acc ++ new2 /\
      Forall (fun a => dlt (get_intensity a) (Fin 0) = false) new1 /\
      Forall (fun a => dlt (get_intensity a) (Fin 0) = false) new2.
Proof.
  intros resolution is_centric find_equiv_in_list hp list1 list2 list1_acc
    list2_acc cell sym rmin_fix rmax_fix sigma_cutoff ignore_negs zero_negs
    mul_cutoff D0 D1 D2 D3 D4 Hz.
  unfold fom_select_reflections.
  destruct (select_loop_spec resolution list1 list2 list1_acc list2_acc cell
              rmin_fix rmax_fix sigma_cutoff ignore_negs zero_negs mul_cutoff
              D0 D1 D2 D3 D4
              (seq 0 (length (h_lists hp list1))) (h_lists hp)
              (mkSelectCounts 0 0 0 0 0 0 0))
    as (st1 & c1 & new1 & new2 & R & Fr & A1 & A2 & P & _).
  cbv zeta. rewrite R. cbn [bind].
  exists (mkHeap st1 (h_next hp)), c1, new1, new2.
  split; [reflexivity |]. split; [exact A1 |]. split; [exact A2 |].
  clear A1 A2 R. induction P as [| a1 a2 n1 n2 (r1 & r2 & _ & _ & Hp) _ IH].
  - split; constructor.
  - destruct IH as [IH1 IH2].
    destruct (passed_tests_not_negative _ _ _ _ _ _ _ _ _ _ _ _ Hz Hp)
      as [N1 N2].
    split; constructor; assumption.
Qed.

(** X11.  Without [anom] and with no more reflections than an [int]
    counts, the returned [ncom] is the number of pairs that
    [fom_select_reflections] appended, and every reflection of the first list
    with a partner in the second is counted once: as accepted, as below the
    sigma cutoff, as measured too few times, as outside the resolution range
    or, with [ignore_negs], as negative. *)
Theorem fom_select_reflections_counts :
  forall (resolution : UnitCell -> Z -> Z -> Z -> double)
         (is_centric : Z -> Z -> Z -> SymOpList -> bool)
         (find_equiv_in_list :
            RefList -> Z -> Z -> Z -> SymOpList -> option (Z * Z * Z))
         (hp : heap) (list1 list2 list1_acc list2_acc : nat)
         (cell : UnitCell) (sym : SymOpList)
         (rmin_fix rmax_fix sigma_cutoff : double)
         (ignore_negs zero_negs : bool) (mul_cutoff : Z),
    list1_acc <> list2_acc ->
    list1 <> list1_acc -> list1 <> list2_acc ->
    list2 <> list1_acc -> list2 <> list2_acc ->
    (Z.of_nat (length (h_lists hp list1)) <= INT_MAX)%Z ->
    exists hp' c,
      fom_select_reflections resolution is_centric find_equiv_in_list hp
        list1 list2 list1_acc list2_acc cell sym false rmin_fix rmax_fix
        sigma_cutoff ignore_negs zero_negs mul_cutoff
      = Returns (hp', c) /\
      Z.of_nat (length (h_lists hp' list1_acc))
      = (Z.of_nat (length (h_lists hp list1_acc)) + ncom c)%Z /\
      Z.of_nat (length (h_lists hp' list2_acc))
      = (Z.of_nat (length (h_lists hp list2_acc)) + ncom c)%Z /\
      settled ignore_negs c
      = Z.of_nat (length (with_partner (h_lists hp list1)
                            (h_lists hp list2))).
Proof.
  intros resolution is_centric find_equiv_in_list hp list1 list2 list1_acc
    list2_acc cell sym rmin_fix rmax_fix sigma_cutoff ignore_negs zero_negs
    mul_cutoff D0 D1 D2 D3 D4 B.
  unfold fom_select_reflections.
  destruct (select_loop_spec resolution list1 list2 list1_acc list2_acc cell
              rmin_fix rmax_fix sigma_cutoff ignore_negs zero_negs mul_cutoff
              D0 D1 D2 D3 D4
              (seq 0 (length (h_lists hp list1))) (h_lists hp)
              (mkSelectCounts 0 0 0 0 0 0 0))
    as (st1 & c1 & new1 & new2 & R & Fr & A1 & A2 & P & Cn).
  cbv zeta. rewrite R. cbn [bind].
  exists (mkHeap st1 (h_next hp)), c1. split; [reflexivity |].
  cbn [h_lists]. rewrite A1, A2, !length_app, !Nat2Z.inj_add.
  destruct (Cn 0%Z) as (_ & N & S & _).
  { unfold counts_within. simpl. lia. }
  { rewrite length_seq. lia. }
  rewrite visited_all in S. rewrite N, S.
  rewrite (Forall2_length P). unfold settled. simpl.
  destruct ignore_negs; repeat split; lia.
Qed.

Lemma fom_select_reflections_pairs_witness :
  (2 <> 3 /\ 0 <> 2 /\ 0 <> 3 /\ 1 <> 2 /\ 1 <> 3)%nat /\
  (0 < h_next select_heap /\ 1 < h_next select_heap /\
   2 < h_next select_heap /\ 3 < h_next select_heap)%nat /\
  map get_indices (h_lists select_heap 2%nat)
  = map get_indices (h_lists select_heap 3%nat) /\
  exists hp' c,
    fom_select_reflections sample_resolution sample_is_centric
      sample_find_equiv select_heap 0 1 2 3 sample_cell [] true (Fin 0)
      (Fin 0) (Fin 3) false true 2
    = Returns (hp', c) /\
    h_lists hp' 0%nat = h_lists select_heap 0%nat /\
    h_lists hp' 1%nat = h_lists select_heap 1%nat /\
    map get_indices (h_lists hp' 2%nat)
    = map get_indices (h_lists hp' 3%nat) /\
    forall refl1, In refl1 (h_lists hp' 2%nat) ->
      find_refl (h_lists hp' 3%nat) (get_h refl1) (get_k refl1)
        (get_l refl1) <> None.
Proof.
  assert (D0 : (2 <> 3)%nat) by discriminate.
  assert (D1 : (0 <> 2)%nat) by discriminate.
  assert (D2 : (0 <> 3)%nat) by discriminate.
  assert (D3 : (1 <> 2)%nat) by discriminate.
  assert (D4 : (1 <> 3)%nat) by discriminate.
  assert (V1 : (0 < h_next select_heap)%nat) by (simpl; lia).
  assert (V2 : (1 < h_next select_heap)%nat) by (simpl; lia).
  assert (V3 : (2 < h_next select_heap)%nat) by (simpl; lia).
  assert (V4 : (3 < h_next select_heap)%nat) by (simpl; lia).
  assert (K : map get_indices (h_lists select_heap 2%nat)
              = map get_indices (h_lists select_heap 3%nat)) by reflexivity.
  split; [repeat split; assumption |].
  split; [repeat split; assumption |]. split; [exact K |].
  exact (fom_select_reflections_pairs sample_resolution sample_is_centric
           sample_find_equiv select_heap 0 1 2 3 sample_cell [] true (Fin 0)
           (Fin 0) (Fin 3) false true 2 D0 D1 D2 D3 D4 V1 V2 V3 V4 K).
Defined.

Lemma fom_select_reflections_accepted_witness :
  (2 <> 3 /\ 0 <> 2 /\ 0 <> 3 /\ 1 <> 2 /\ 1 <> 3)%nat /\
  exists hp' c new1 new2,
    fom_select_reflections sample_resolution sample_is_centric
      sample_find_equiv select_heap 0 1 2 3 sample_cell [] false (Fin 0)
      (Fin 0) (Fin 3) false true 2
    = Returns (hp', c) /\
    h_lists hp' 2%nat = h_lists select_heap 2%nat ++ new1 /\
    h_lists hp' 3%nat = h_lists select_heap 3%nat ++ new2 /\
    Forall2 (fun a1 a2 =>
               exists refl1 refl2,
                 In refl1 (h_lists select_heap 0%nat) /\
                 find_refl (h_lists select_heap 1%nat) (get_h refl1)
                   (get_k refl1) (get_l refl1) = Some refl2 /\
                 passed_tests sample_resolution sample_cell (Fin 0) (Fin 0)
                   (Fin 3) false true 2 refl1 refl2 a1 a2) new1 new2.
Proof.
  assert (D0 : (2 <> 3)%nat) by discriminate.
  assert (D1 : (0 <> 2)%nat) by discriminate.
  assert (D2 : (0 <> 3)%nat) by discriminate.
  assert (D3 : (1 <> 2)%nat) by discriminate.
  assert (D4 : (1 <> 3)%nat) by discriminate.
  split; [repeat split; assumption |].
  exact (fom_select_reflections_accepted sample_resolution sample_is_centric
           sample_find_equiv select_heap 0 1 2 3 sample_cell [] (Fin 0)
           (Fin 0) (Fin 3) false true 2 D0 D1 D2 D3 D4).
Defined.

Lemma fom_select_reflections_no_negatives_witness :
  (2 <> 3 /\ 0 <> 2 /\ 0 <> 3 /\ 1 <> 2 /\ 1 <> 3)%nat /\
  false || true = true /\
  exists hp' c new1 new2,
    fom_select_reflections sample_resolution sample_is_centric
      sample_find_equiv select_heap 0 1 2 3 sample_cell [] false (Fin 0)
      (Fin 0) (Fin (-20)) false true 2
    = Returns (hp', c) /\
    h_lists hp' 2%nat = h_lists select_heap 2%nat ++ new1 /\
    h_lists hp' 3%nat = h_lists select_heap 3%nat ++ new2 /\
    Forall (fun a => dlt (get_intensity a) (Fin 0) = false) new1 /\
    Forall (fun a => dlt (get_intensity a) (Fin 0) = false) new2.
Proof.
  assert (D0 : (2 <> 3)%nat) by discriminate.
  assert (D1 : (0 <> 2)%nat) by discriminate.
  assert (D2 : (0 <> 3)%nat) by discriminate.
  assert (D3 : (1 <> 2)%nat) by discriminate.
  assert (D4 : (1 <> 3)%nat) by discriminate.
  split; [repeat split; assumption |]. split; [reflexivity |].
  exact (fom_select_reflections_no_negatives sample_resolution
           sample_is_centric sample_find_equiv select_heap 0 1 2 3
           sample_cell [] (Fin 0) (Fin 0) (Fin (-20)) false true 2
           D0 D1 D2 D3 D4 eq_refl).
Defined.

Lemma fom_select_reflections_counts_witness :
  (2 <> 3 /\ 0 <> 2 /\ 0 <> 3 /\ 1 <> 2 /\ 1 <> 3)%nat /\
  (Z.of_nat (length (h_lists select_heap 0%nat)) <= INT_MAX)%Z /\
  exists hp' c,
    fom_select_reflections sample_resolution sample_is_centric
      sample_find_equiv select_heap 0 1 2 3 sample_cell [] false (Fin 0)
      (Fin 0) (Fin 3) false true 2
    = Returns (hp', c) /\
    Z.of_nat (length (h_lists hp' 2%nat))
    = (Z.of_nat (length (h_lists select_heap 2%nat)) + ncom c)%Z /\
    Z.of_nat (length (h_lists hp' 3%nat))
    = (Z.of_nat (length (h_lists select_heap 3%nat)) + ncom c)%Z /\
    settled false c
    = Z.of_nat (length (with_partner (h_lists select_heap 0%nat)
                          (h_lists select_heap 1%nat))).
Proof.
  assert (D0 : (2 <> 3)%nat) by discriminate.
  assert (D1 : (0 <> 2)%nat) by discriminate.
  assert (D2 : (0 <> 3)%nat) by discriminate.
  assert (D3 : (1 <> 2)%nat) by discriminate.
  assert (D4 : (1 <> 3)%nat) by discriminate.
  assert (B : (Z.of_nat (length (h_lists select_heap 0%nat)) <= INT_MAX)%Z)
    by (unfold INT_MAX; simpl; lia).
  split; [repeat split; assumption |]. split; [exact B |].
  exact (fom_select_reflections_counts sample_resolution sample_is_centric
           sample_find_equiv select_heap 0 1 2 3 sample_cell [] (Fin 0)
           (Fin 0) (Fin 3) false true 2 D0 D1 D2 D3 D4 B).
Defined.

(** The sample lists: with the cutoff 3 and at least two measurements, one
    pair of four is accepted, two are below the cutoff and one has been
    measured once; with [anom] and no Bijvoet partners, the count drops to
    zero, and the caller's lists still hold the accepted pair. *)
Example fom_select_reflections_sample :
  exists hp_f c_f hp_t c_t,
    fom_select_reflections sample_resolution sample_is_centric
      sample_find_equiv select_heap 0 1 2 3 sample_cell [] false (Fin 0)
      (Fin 0) (Fin 3) false true 2
    = Returns (hp_f, c_f) /\
    fom_select_reflections sample_resolution sample_is_centric
      sample_find_equiv select_heap 0 1 2 3 sample_cell [] true (Fin 0)
      (Fin 0) (Fin 3) false true 2
    = Returns (hp_t, c_t) /\
    (ncom c_f, nrej c_f, nmul c_f, nneg c_f, nres c_f) = (1, 2, 1, 0, 0)%Z /\
    (ncom c_t, nbij c_t, ncen c_t) = (0, 1, 0)%Z /\
    h_lists hp_f 2%nat = [sample_refl 1 100 1 1 4 false false] /\
    h_lists hp_t 2%nat = [sample_refl 1 100 1 1 4 false false] /\
    h_lists hp_t 3%nat = [sample_refl 1 90 1 1 4 false false].
Proof.
  eexists _, _, _, _.
  unfold fom_select_reflections, select_heap, select_list1, select_list2,
    sample_refl, sample_resolution, sample_is_centric, sample_find_equiv.
  deval_with ltac:(try unfold select_step; try unfold bijvoet_step;
                   try unfold bijvoet_refl; try unfold accept_pair;
                   try unfold accept_refl; try unfold add_refl;
                   try unfold st_upd; try unfold st_set;
                   try unfold reflist_new).
  repeat split; reflexivity.
Qed.

Lemma fom_select_reflections_anom_lists_witness :
  exists hp_t c_t,
    fom_select_reflections sample_resolution sample_is_centric
      sample_find_equiv select_heap 0 1 2 3 sample_cell [] true (Fin 0)
      (Fin 0) (Fin 3) false true 2
    = Returns (hp_t, c_t) /\
    exists hp_f c_f,
      fom_select_reflections sample_resolution sample_is_centric
        sample_find_equiv select_heap 0 1 2 3 sample_cell [] false (Fin 0)
        (Fin 0) (Fin 3) false true 2
      = Returns (hp_f, c_f) /\
      (forall p, (p < h_next select_heap)%nat ->
                 h_lists hp_t p = h_lists hp_f p) /\
      nrej c_t = nrej c_f /\ nmul c_t = nmul c_f /\
      nneg c_t = nneg c_f /\ nres c_t = nres c_f.
Proof.
  assert (E : exists hp_t c_t,
            fom_select_reflections sample_resolution sample_is_centric
              sample_find_equiv select_heap 0 1 2 3 sample_cell [] true
              (Fin 0) (Fin 0) (Fin 3) false true 2
            = Returns (hp_t, c_t)).
  { eexists _, _.
    unfold fom_select_reflections, select_heap, select_list1, select_list2,
      sample_refl, sample_resolution, sample_is_centric, sample_find_equiv.
    deval_with ltac:(try unfold select_step; try unfold bijvoet_step;
                     try unfold bijvoet_refl; try unfold accept_pair;
                     try unfold accept_refl; try unfold add_refl;
                     try unfold st_upd; try unfold st_set;
                     try unfold reflist_new).
    reflexivity. }
  destruct E as (hp_t & c_t & E). exists hp_t, c_t. split; [exact E |].
  exact (fom_select_reflections_anom_lists sample_resolution
           sample_is_centric sample_find_equiv select_heap 0 1 2 3
           sample_cell [] (Fin 0) (Fin 0) (Fin 3) false true 2 hp_t c_t E).
Defined.

(* ================================================================== *)
(** * fom.c: what [fom_calculate] writes to the lists *)

Lemma st_upd_flag_only (st : store) (p i : nat) (v : bool) (q : nat) :
  map (fun r => set_flag r false) (st_upd st p i (fun r => set_flag r v) q)
  = map (fun r => set_flag r false) (st q).
Proof.
  unfold st_upd. destruct (nth_error (st p) i) as [r |] eqn:E; [| reflexivity].
  unfold st_set. destruct (Nat.eqb_spec q p) as [-> |]; [| reflexivity].
  apply (map_aset_same (fun r => set_flag r false) _ _ r);
    [assumption | reflexivity].
Qed.

Lemma clear_flags_step_flag_only (list1 list2 : nat) (st st' : store)
    (i : nat) :
  clear_flags_step list1 list2 st i = Returns st' ->
  forall q, map (fun r => set_flag r false) (st' q)
            = map (fun r => set_flag r false) (st q).
Proof.
  unfold clear_flags_step.
  destruct (nth_error (st list1) i) as [refl1 |]; [| intros [= <-]; reflexivity].
  destruct (get_indices refl1) as [[h k] l].
  destruct (find_refl_idx _ h k l) as [i2 |]; [| discriminate].
  intros [= <-] q. rewrite !st_upd_flag_only. reflexivity.
Qed.

Section FlagsOnly.

Variable resolution : UnitCell -> Z -> Z -> Z -> double.
Variable find_equiv_in_list :
  RefList -> Z -> Z -> Z -> SymOpList -> option (Z * Z * Z).
Variable gsl_fit_linear : list double -> list double -> Z * double * double.

Lemma accumulate_step_flag_only (list1 list2 : nat) (cell : UnitCell)
    (shells : fom_shells) (fom : fom_type) (sym : SymOpList)
    (st st' : store) (fctx fctx' : fom_context) (n_out n_out' : Z) (i : nat) :
  accumulate_step resolution find_equiv_in_list list1 list2 cell shells fom sym
    (st, fctx, n_out) i = Returns (st', fctx', n_out') ->
  forall q, map (fun r => set_flag r false) (st' q)
            = map (fun r => set_flag r false) (st q).
Proof.
  unfold accumulate_step.
  destruct (nth_error (st list1) i) as [refl1 |];
    [| intros [= <- _ _]; reflexivity].
  destruct (get_indices refl1) as [[h k] l].
  destruct (find_refl_idx (st list2) h k l) as [i2 |];
    [| intros [= <- _ _]; reflexivity].
  destruct (nth_error (st list2) i2) as [refl2 |];
    [| intros [= <- _ _]; reflexivity].
  destruct (get_bin resolution shells refl1 cell) as [bin |] eqn:B;
    simpl; [| discriminate].
  rewrite (get_bin_never_sentinel _ _ _ _ _ B).
  destruct (is_anomalous fom).
  - destruct (get_flag refl1); [intros [= <- _ _]; reflexivity |].
    destruct (get_flag refl2); simpl; [discriminate |].
    destruct (bijvoet_partner _ _ _ _ _ _ _) as [b1 |]; [| discriminate].
    destruct (bijvoet_partner _ _ _ _ _ _ _) as [b2 |]; [| discriminate].
    destruct (nth_error _ b1); [| discriminate].
    destruct (nth_error _ b2); [| discriminate].
    destruct (add_to_fom _ _ _ _ _ _ _ _); simpl; [| discriminate].
    intros [= <- _ _] q. rewrite !st_upd_flag_only. reflexivity.
  - destruct (add_to_fom _ _ _ _ _ _ _ _); simpl; [| discriminate].
    intros [= <- _ _]; reflexivity.
Qed.

(** X12.  Without scaling, [fom_calculate] writes nothing but the flags of
    the reflections, for every figure of merit: with the flags cleared on both
    sides, every list is after the call what it was before. *)
Theorem fom_calculate_noscale_flags_only :
  forall (st st' : store) (list1 list2 : nat) (cell : UnitCell)
         (shells : fom_shells) (fom : fom_type) (sym : SymOpList)
         (r : option fom_context) (n_out : Z),
    fom_calculate resolution find_equiv_in_list gsl_fit_linear st list1 list2
      cell shells fom true sym = Returns (st', r, n_out) ->
    forall q, map (fun refl => set_flag refl false) (st' q)
              = map (fun refl => set_flag refl false) (st q).
Proof.
  intros st st' list1 list2 cell shells fom sym r n_out.
  unfold fom_calculate. cbn [bind].
  destruct (run_loop (clear_flags_step list1 list2) _ st) as [st2 |] eqn:C;
    simpl; [| discriminate].
  match goal with
  | |- context [bind (run_loop ?f ?idx ?s0) _] =>
      destruct (run_loop f idx s0) as [[[st3 fctx3] n3] |] eqn:E
  end; simpl; [| discriminate].
  intros [= <- _ _] q.
  assert (P2 : forall q, map (fun refl => set_flag refl false) (st2 q)
                         = map (fun refl => set_flag refl false) (st q)).
  { refine (run_loop_invariant
              (fun s : store =>
                 forall q, map (fun refl => set_flag refl false) (s q)
                           = map (fun refl => set_flag refl false) (st q))
              _ _ _ st st2 _ C).
    - intros s i s' Hs Hstep q'.
      rewrite (clear_flags_step_flag_only _ _ _ _ _ Hstep q'). apply Hs.
    - reflexivity. }
  refine (run_loop_invariant
            (fun s : acc_state =>
               forall q, map (fun refl => set_flag refl false)
                           (fst (fst s) q)
                         = map (fun refl => set_flag refl false) (st q))
            _ _ _ (st2, _, 0%Z) (st3, fctx3, n3) _ E q).
  - intros [[s f] n] i [[s' f'] n'] Hs Hstep q'. simpl in *.
    rewrite (accumulate_step_flag_only _ _ _ _ _ _ _ _ _ _ _ _ _ Hstep q').
    apply Hs.
  - exact P2.
Qed.

End FlagsOnly.

Lemma fom_calculate_noscale_flags_only_witness :
  exists st' r n_out,
    fom_calculate sample_resolution sample_find_equiv sample_fit sample_store
      0 1 sample_cell sample_shells FOM_R1I true []
    = Returns (st', r, n_out) /\
    forall q, map (fun refl => set_flag refl false) (st' q)
              = map (fun refl => set_flag refl false) (sample_store q).
Proof.
  assert (E : exists st' r n_out,
            fom_calculate sample_resolution sample_find_equiv sample_fit
              sample_store 0 1 sample_cell sample_shells FOM_R1I true []
            = Returns (st', r, n_out)).
  { eexists _, _, _.
    unfold fom_calculate, sample_store, sample_pair_list, sample_shells,
      sample_refl, sample_resolution, sample_find_equiv.
    unfold get_bin, doubled_resolution, sample_resolution.
    deval. reflexivity. }
  destruct E as (st' & r & n_out & E). exists st', r, n_out.
  split; [exact E |].
  exact (fom_calculate_noscale_flags_only sample_resolution sample_find_equiv
           sample_fit sample_store st' 0 1 sample_cell sample_shells FOM_R1I
           [] r n_out E).
Defined.

(* ================================================================== *)
(** * fom.c: the counts of the shells *)

Lemma aset_beyond {A} (l : list A) (i : nat) (v : A) :
  (length l <= i)%nat -> aset l i v = l.
Proof.
  revert i; induction l as [| x l IH]; intros [| i] H; simpl in *;
    try reflexivity; try lia.
  rewrite IH by lia. reflexivity.
Qed.

Lemma iget_ibump (arr : list Z) (bin b : nat) :
  iget (ibump arr bin) b
  = if (b =? bin)%nat && (b <? length arr)%nat
    then int_incr (iget arr b) else iget arr b.
Proof.
  unfold ibump, iget.
  destruct (Nat.eqb_spec b bin) as [-> | Hne]; simpl.
  - destruct (Nat.ltb_spec bin (length arr)).
    + apply nth_aset_same. assumption.
    + rewrite aset_beyond by assumption. reflexivity.
  - apply nth_aset_other. congruence.
Qed.

Lemma ibump_length (arr : list Z) (bin : nat) :
  length (ibump arr bin) = length arr.
Proof. apply aset_length. Qed.

(** Whatever the kind, [add_to_fom] counts the pair in [cts[bin]], and
    touches [n_within] in the cell [bin] only. *)
Lemma add_to_fom_counts (fctx fctx' : fom_context)
    (i1 i2 i1bij i2bij sig1 sig2 : double) (bin : Z) :
  add_to_fom fctx i1 i2 i1bij i2bij sig1 sig2 bin = Returns fctx' ->
  fc_fom fctx' = fc_fom fctx /\ fc_nshells fctx' = fc_nshells fctx /\
  fc_cts fctx' = ibump (fc_cts fctx) (Z.to_nat bin) /\
  (fc_n_within fctx' = fc_n_within fctx \/
   fc_n_within fctx' = ibump (fc_n_within fctx) (Z.to_nat bin)).
Proof.
  unfold add_to_fom. cbn [fc_fom set_cts].
  destruct (fc_fom fctx) eqn:K; unfold push_pair; cbn [fc_n fc_nmax set_cts];
    try (destruct (_ <? _)%Z; cbn [assert bind]; [| discriminate]);
    try (destruct (dlt _ _));
    intros [= <-]; cbn; rewrite ?K; auto.
Qed.

Section ShellCounts.

Variable resolution : UnitCell -> Z -> Z -> Z -> double.
Variable find_equiv_in_list :
  RefList -> Z -> Z -> Z -> SymOpList -> option (Z * Z * Z).
Variables (list1 list2 : nat) (cell : UnitCell) (shells : fom_shells)
  (fom : fom_type) (sym : SymOpList).

Hypothesis not_anomalous : is_anomalous fom = false.

Local Abbreviation pairs_in st idx b :=
  (shell_pairs resolution (visited (st list1) idx) (st list2) shells cell
     (Z.of_nat b)).

Lemma accumulate_step_counts (st st' : store) (fctx fctx' : fom_context)
    (n_out n_out' : Z) (i : nat) :
  accumulate_step resolution find_equiv_in_list list1 list2 cell shells fom
    sym (st, fctx, n_out) i = Returns (st', fctx', n_out') ->
  st' = st /\ fc_fom fctx' = fc_fom fctx /\
  fc_nshells fctx' = fc_nshells fctx /\
  length (fc_cts fctx') = length (fc_cts fctx) /\
  forall b, (b < length (fc_cts fctx))%nat ->
    (length (pairs_in st [i] b) <= 1)%nat /\
    iget (fc_cts fctx') b
    = (if (length (pairs_in st [i] b) =? 0)%nat then iget (fc_cts fctx) b
       else int_incr (iget (fc_cts fctx) b)) /\
    (iget (fc_n_within fctx') b = iget (fc_n_within fctx) b \/
     (length (pairs_in st [i] b) = 1%nat /\
      iget (fc_n_within fctx') b = int_incr (iget (fc_n_within fctx) b))).
Proof.
  unfold accumulate_step, visited. simpl flat_map.
  destruct (nth_error (st list1) i) as [refl1 |];
    [| intros [= <- <- <-]; repeat split; auto].
  rewrite app_nil_r. unfold get_indices.
  assert (SP := fun b => shell_pairs_single resolution cell shells refl1
                           (st list2) (Z.of_nat b)).
  rewrite find_refl_idx_spec in SP.
  destruct (find_refl_idx (st list2) (get_h refl1) (get_k refl1) (get_l refl1))
    as [i2 |].
  2:{ intros [= <- <- <-]. repeat split; auto; rewrite SP; simpl; auto. }
  destruct (nth_error (st list2) i2) as [refl2 |].
  2:{ intros [= <- <- <-]. repeat split; auto; rewrite SP; simpl; auto. }
  destruct (get_bin resolution shells refl1 cell) as [bin |] eqn:B;
    cbn [bind]; [| discriminate].
  rewrite (get_bin_never_sentinel _ _ _ _ _ B).
  pose proof (get_bin_nonneg _ _ _ _ _ B) as Hbin.
  rewrite not_anomalous.
  destruct (add_to_fom _ _ _ _ _ _ _ _) as [fctx1 |] eqn:A; cbn [bind];
    [| discriminate].
  intros [= <- <- <-].
  apply add_to_fom_counts in A. destruct A as (A1 & A2 & A3 & A4).
  split; [reflexivity |]. split; [assumption |]. split; [assumption |].
  split; [rewrite A3; apply ibump_length |].
  intros b Hb. rewrite SP. unfold in_shell. rewrite B.
  rewrite A3, iget_ibump.
  destruct (Z.eqb_spec bin (Z.of_nat b)) as [-> | Hne]; cbn [length Nat.eqb].
  - rewrite Nat2Z.id, Nat.eqb_refl.
    destruct (Nat.ltb_spec b (length (fc_cts fctx))); [| lia]. cbn [andb].
    split; [lia |]. split; [reflexivity |].
    destruct A4 as [-> | ->]; [left; reflexivity |].
    rewrite iget_ibump, Nat2Z.id, Nat.eqb_refl.
    destruct (b <? _)%nat; cbn [andb]; [right; split; reflexivity |].
    left; reflexivity.
  - assert (Hb' : (b =? Z.to_nat bin)%nat = false)
      by (apply Nat.eqb_neq; lia).
    rewrite Hb'. cbn [andb]. split; [lia |]. split; [reflexivity |].
    left. destruct A4 as [-> | ->]; [reflexivity |].
    rewrite iget_ibump, Hb'. reflexivity.
Qed.

Lemma accumulate_loop_counts :
  forall (idx : list nat) (st st' : store) (fctx fctx' : fom_context)
         (n_out n_out' : Z),
    run_loop (accumulate_step resolution find_equiv_in_list list1 list2 cell
                shells fom sym) idx (st, fctx, n_out)
    = Returns (st', fctx', n_out') ->
    st' = st /\ fc_fom fctx' = fc_fom fctx /\
    fc_nshells fctx' = fc_nshells fctx /\
    length (fc_cts fctx') = length (fc_cts fctx) /\
    forall k,
      (forall b, (b < length (fc_cts fctx))%nat ->
         (0 <= iget (fc_n_within fctx) b <= iget (fc_cts fctx) b)%Z /\
         (iget (fc_cts fctx) b <= k)%Z) ->
      (k + Z.of_nat (length idx) <= INT_MAX)%Z ->
      forall b, (b < length (fc_cts fctx))%nat ->
        iget (fc_cts fctx') b
        = (iget (fc_cts fctx) b
           + Z.of_nat (length (pairs_in st idx b)))%Z /\
        (0 <= iget (fc_n_within fctx') b <= iget (fc_cts fctx') b)%Z /\
        (iget (fc_cts fctx') b <= k + Z.of_nat (length idx))%Z.
Proof.
  induction idx as [| i idx IH]; intros st st' fctx fctx' n_out n_out' H.
  - simpl in H. injection H as <- <- <-. repeat split; auto;
      try (destruct (H b H1) as [[? ?] ?]; simpl; lia).
  - cbn [run_loop] in H.
    destruct (accumulate_step _ _ _ _ _ _ _ _ (st, fctx, n_out) i)
      as [[[st1 fctx1] n1] |] eqn:E; cbn [bind] in H; [| discriminate].
    apply accumulate_step_counts in E.
    destruct E as (-> & Hf1 & Hn1 & L1 & Hstep).
    apply IH in H. destruct H as (-> & Hf' & Hn' & L' & Hrest).
    split; [reflexivity |]. split; [congruence |]. split; [congruence |].
    split; [congruence |].
    intros k Hk B b Hb. cbn [length] in B.
    assert (Hk1 : forall b, (b < length (fc_cts fctx1))%nat ->
              (0 <= iget (fc_n_within fctx1) b <= iget (fc_cts fctx1) b)%Z /\
              (iget (fc_cts fctx1) b <= k + 1)%Z).
    { intros b' Hb'. rewrite L1 in Hb'.
      destruct (Hstep b' Hb') as (M & C & W).
      destruct (Hk b' Hb') as [[K0 K1] K2].
      assert (I : int_incr (iget (fc_cts fctx) b')
                  = (iget (fc_cts fctx) b' + 1)%Z).
      { unfold int_incr. apply int_wrap_small. unfold INT_MAX in *. lia. }
      assert (J : int_incr (iget (fc_n_within fctx) b')
                  = (iget (fc_n_within fctx) b' + 1)%Z).
      { unfold int_incr. apply int_wrap_small. unfold INT_MAX in *. lia. }
      rewrite C.
      destruct (Nat.eqb_spec (length (pairs_in st [i] b')) 0) as [Z0 | Z0];
        destruct W as [-> | [W1 ->]]; rewrite ?I, ?J; lia. }
    destruct (Hrest (k + 1)%Z Hk1 ltac:(lia) b ltac:(lia)) as (R1 & R2 & R3).
    destruct (Hstep b Hb) as (M & C & _).
    destruct (Hk b Hb) as [[K0 K1] K2].
    assert (I : int_incr (iget (fc_cts fctx) b)
                = (iget (fc_cts fctx) b + 1)%Z).
    { unfold int_incr. apply int_wrap_small. unfold INT_MAX in *. lia. }
    change (i :: idx) with ([i] ++ idx).
    unfold visited in *. rewrite flat_map_app, shell_pairs_app, length_app.
    split; [| split; [exact R2 | cbn [length app]; lia]].
    rewrite R1, C.
    destruct (Nat.eqb_spec (length (shell_pairs resolution
                (flat_map (fun i0 => match nth_error (st list1) i0 with
                                     | Some r => [r] | None => [] end) [i])
                (st list2) shells cell (Z.of_nat b))) 0) as [Z0 | Z0];
      rewrite ?I; lia.
Qed.

End ShellCounts.

Lemma iget_izeros (n : Z) (b : nat) : iget (izeros n) b = 0%Z.
Proof.
  unfold iget, izeros.
  destruct (Nat.ltb_spec b (Z.to_nat n)).
  - apply nth_repeat_lt. assumption.
  - apply nth_overflow. rewrite repeat_length. assumption.
Qed.

Lemma init_fom_counts (fom : fom_type) (nmax nsh : Z) :
  fc_fom (init_fom fom nmax nsh) = fom /\
  fc_cts (init_fom fom nmax nsh) = izeros nsh /\
  forall b, iget (fc_n_within (init_fom fom nmax nsh)) b = 0%Z.
Proof.
  destruct fom; cbn; repeat split; intros b;
    try apply iget_izeros; destruct b; reflexivity.
Qed.

Section CalculateCounts.

Variable resolution : UnitCell -> Z -> Z -> Z -> double.
Variable find_equiv_in_list :
  RefList -> Z -> Z -> Z -> SymOpList -> option (Z * Z * Z).
Variable gsl_fit_linear : list double -> list double -> Z * double * double.

Lemma fom_calculate_counts (st st' : store) (list1 list2 : nat)
    (cell : UnitCell) (shells : fom_shells) (fom : fom_type) (noscale : bool)
    (sym : SymOpList) (fctx : fom_context) (n_out : Z) :
  is_anomalous fom = false ->
  (Z.of_nat (length (st' list1)) <= INT_MAX)%Z ->
  fom_calculate resolution find_equiv_in_list gsl_fit_linear st list1 list2
    cell shells fom noscale sym = Returns (st', Some fctx, n_out) ->
  fc_fom fctx = fom /\
  forall b, (b < Z.to_nat (nshells shells))%nat ->
    iget (fc_cts fctx) b
    = Z.of_nat (length (shell_pairs resolution (st' list1) (st' list2) shells
                          cell (Z.of_nat b))) /\
    (0 <= iget (fc_n_within fctx) b <= iget (fc_cts fctx) b)%Z.
Proof.
  intros Ha Hmax. unfold fom_calculate.
  match goal with |- context [bind ?m _] => destruct m as [[failed st1] |] eqn:W end;
    cbn [bind]; [| discriminate].
  destruct failed; [discriminate |].
  destruct (run_loop (clear_flags_step list1 list2) _ st1) as [st2 |] eqn:C;
    cbn [bind]; [| discriminate].
  match goal with
  | |- context [bind (run_loop ?f ?idx ?s0) _] =>
      destruct (run_loop f idx s0) as [[[st3 fctx3] n3] |] eqn:E
  end; cbn [bind]; [| discriminate].
  intros [= <- <- <-].
  pose proof (clear_flags_loop_payload _ _ _ _ _ C) as P.
  apply (accumulate_loop_counts resolution find_equiv_in_list list1 list2
           cell shells fom sym Ha) in E.
  destruct E as (-> & Hf & _ & _ & Hcount).
  destruct (init_fom_counts fom (num_reflections (st list1))
              (nshells shells)) as (I1 & I2 & I3).
  split; [congruence |].
  intros b Hb.
  assert (L : length (st1 list1) = length (st2 list1)).
  { rewrite <- (length_map payload (st2 list1)), P, length_map. reflexivity. }
  destruct (Hcount 0%Z) with (b := b) as (R1 & R2 & _).
  - intros b' _. rewrite I2, I3, iget_izeros. lia.
  - rewrite length_seq, L. lia.
  - rewrite I2. unfold izeros. rewrite repeat_length. exact Hb.
  - rewrite L, visited_all in R1. rewrite I2, iget_izeros in R1.
    split; [rewrite R1; lia | exact R2].
Qed.

End CalculateCounts.

(** X13.  For every figure of merit that is not anomalous, when
    [fom_calculate] returns a context, the count [cts] of each shell is the
    number of reflections of the first list that have a partner in the second
    and that [get_bin] puts into that shell (the list is no longer than an
    [int] counts). *)
Theorem fom_calculate_shell_counts :
  forall (resolution : UnitCell -> Z -> Z -> Z -> double)
         (find_equiv_in_list :
            RefList -> Z -> Z -> Z -> SymOpList -> option (Z * Z * Z))
         (gsl_fit_linear : list double -> list double -> Z * double * double)
         (st st' : store) (list1 list2 : nat) (cell : UnitCell)
         (shells : fom_shells) (fom : fom_type) (noscale : bool)
         (sym : SymOpList) (fctx : fom_context) (n_out : Z) (b : nat),
    is_anomalous fom = false ->
    (Z.of_nat (length (st' list1)) <= INT_MAX)%Z ->
    fom_calculate resolution find_equiv_in_list gsl_fit_linear st list1 list2
      cell shells fom noscale sym = Returns (st', Some fctx, n_out) ->
    (b < Z.to_nat (nshells shells))%nat ->
    iget (fc_cts fctx) b
    = Z.of_nat (length (shell_pairs resolution (st' list1) (st' list2) shells
                          cell (Z.of_nat b))).
Proof.
  intros resolution find_equiv_in_list gsl_fit_linear st st' list1 list2 cell
    shells fom noscale sym fctx n_out b Ha Hmax H Hb.
  destruct (fom_calculate_counts resolution find_equiv_in_list gsl_fit_linear
              st st' list1 list2 cell shells fom noscale sym fctx n_out
              Ha Hmax H) as (_ & Hc).
  apply (Hc b Hb).
Qed.

(** X14.  The fraction of pairs that agree within one (two) sigma: after
    [fom_calculate] for D1SIG or D2SIG, the value of a shell that holds no
    pair is not a number, and the value of any other shell is a number between
    0 and 1. *)
Theorem dsig_shell_is_a_fraction :
  forall (gsl_stats_correlation : list double -> list double -> double)
         (gsl_stats_variance_m : list double -> double -> double)
         (resolution : UnitCell -> Z -> Z -> Z -> double)
         (find_equiv_in_list :
            RefList -> Z -> Z -> Z -> SymOpList -> option (Z * Z * Z))
         (gsl_fit_linear : list double -> list double -> Z * double * double)
         (st st' : store) (list1 list2 : nat) (cell : UnitCell)
         (shells : fom_shells) (fom : fom_type) (noscale : bool)
         (sym : SymOpList) (fctx : fom_context) (n_out : Z) (b : nat),
    fom = FOM_D1SIG \/ fom = FOM_D2SIG ->
    (Z.of_nat (length (st' list1)) <= INT_MAX)%Z ->
    fom_calculate resolution find_equiv_in_list gsl_fit_linear st list1 list2
      cell shells fom noscale sym = Returns (st', Some fctx, n_out) ->
    (b < Z.to_nat (nshells shells))%nat ->
    (shell_pairs resolution (st' list1) (st' list2) shells cell (Z.of_nat b)
     = [] ->
     fom_shell gsl_stats_correlation gsl_stats_variance_m fctx (Z.of_nat b)
     = NaN) /\
    (shell_pairs resolution (st' list1) (st' list2) shells cell (Z.of_nat b)
     <> [] ->
     exists v,
       fom_shell gsl_stats_correlation gsl_stats_variance_m fctx (Z.of_nat b)
       = Fin v /\ 0 <= v <= 1).
Proof.
  intros corr var resolution find_equiv_in_list gsl_fit_linear st st' list1
    list2 cell shells fom noscale sym fctx n_out b Hk Hmax H Hb.
  assert (Ha : is_anomalous fom = false) by (destruct Hk; subst; reflexivity).
  destruct (fom_calculate_counts resolution find_equiv_in_list gsl_fit_linear
              st st' list1 list2 cell shells fom noscale sym fctx n_out
              Ha Hmax H) as (Hf & Hc).
  destruct (Hc b Hb) as (C & W).
  assert (V : fom_shell corr var fctx (Z.of_nat b)
              = ddiv (d_of_int (iget (fc_n_within fctx) b))
                     (d_of_int (iget (fc_cts fctx) b))).
  { unfold fom_shell. rewrite Hf, Nat2Z.id. destruct Hk; subst; reflexivity. }
  rewrite V. unfold d_of_int, ddiv. split.
  - intros E. rewrite E in C. simpl in C.
    assert (N : iget (fc_n_within fctx) b = 0%Z) by lia.
    rewrite C, N. rewrite !Reqb_true by reflexivity. reflexivity.
  - intros E.
    assert (Hpos : (0 < iget (fc_cts fctx) b)%Z).
    { rewrite C. destruct (shell_pairs _ _ _ _ _ _); [contradiction |].
      simpl length. lia. }
    assert (Rpos : 0 < IZR (iget (fc_cts fctx) b)) by (apply IZR_lt; lia).
    rewrite Reqb_false by lra.
    eexists. split; [reflexivity |].
    assert (R0 : 0 <= IZR (iget (fc_n_within fctx) b))
      by (apply IZR_le; lia).
    assert (R1 : IZR (iget (fc_n_within fctx) b)
                 <= IZR (iget (fc_cts fctx) b)) by (apply IZR_le; lia).
    split.
    + apply Rmult_le_pos; [exact R0 |].
      left. apply Rinv_0_lt_compat. exact Rpos.
    + apply (Rmult_le_reg_r (IZR (iget (fc_cts fctx) b))); [exact Rpos |].
      unfold Rdiv. rewrite Rmult_assoc, Rinv_l by lra. lra.
Qed.

Lemma fom_calculate_shell_counts_witness :
  exists st' fctx n_out,
    is_anomalous FOM_R1I = false /\
    (Z.of_nat (length (st' 0%nat)) <= INT_MAX)%Z /\
    fom_calculate sample_resolution sample_find_equiv sample_fit sample_store
      0 1 sample_cell sample_shells FOM_R1I true []
    = Returns (st', Some fctx, n_out) /\
    (1 < Z.to_nat (nshells sample_shells))%nat /\
    iget (fc_cts fctx) 1
    = Z.of_nat (length (shell_pairs sample_resolution (st' 0%nat) (st' 1%nat)
                          sample_shells sample_cell (Z.of_nat 1))).
Proof.
  assert (E : exists st' fctx n_out,
            fom_calculate sample_resolution sample_find_equiv sample_fit
              sample_store 0 1 sample_cell sample_shells FOM_R1I true []
            = Returns (st', Some fctx, n_out) /\
            (Z.of_nat (length (st' 0%nat)) <= INT_MAX)%Z).
  { eexists _, _, _.
    unfold fom_calculate, sample_store, sample_pair_list, sample_shells,
      sample_refl, sample_resolution, sample_find_equiv.
    unfold get_bin, doubled_resolution, sample_resolution.
    deval. split; [reflexivity |].
    unfold st_upd, st_set, INT_MAX. cbn. lia. }
  destruct E as (st' & fctx & n_out & E & B). exists st', fctx, n_out.
  assert (Hb : (1 < Z.to_nat (nshells sample_shells))%nat) by (simpl; lia).
  split; [reflexivity |]. split; [exact B |]. split; [exact E |].
  split; [exact Hb |].
  exact (fom_calculate_shell_counts sample_resolution sample_find_equiv
           sample_fit sample_store st' 0 1 sample_cell sample_shells FOM_R1I
           true [] fctx n_out 1 eq_refl B E Hb).
Defined.

Lemma dsig_shell_is_a_fraction_witness :
  exists st' fctx n_out,
    (FOM_D1SIG = FOM_D1SIG \/ FOM_D1SIG = FOM_D2SIG) /\
    (Z.of_nat (length (st' 0%nat)) <= INT_MAX)%Z /\
    fom_calculate sample_resolution sample_find_equiv sample_fit single_store
      0 1 sample_cell sample_shells FOM_D1SIG true []
    = Returns (st', Some fctx, n_out) /\
    (1 < Z.to_nat (nshells sample_shells))%nat /\
    (shell_pairs sample_resolution (st' 0%nat) (st' 1%nat) sample_shells
       sample_cell (Z.of_nat 1) = [] ->
     fom_shell sample_correlation sample_variance fctx (Z.of_nat 1) = NaN) /\
    (shell_pairs sample_resolution (st' 0%nat) (st' 1%nat) sample_shells
       sample_cell (Z.of_nat 1) <> [] ->
     exists v,
       fom_shell sample_correlation sample_variance fctx (Z.of_nat 1)
       = Fin v /\ 0 <= v <= 1).
Proof.
  assert (E : exists st' fctx n_out,
            fom_calculate sample_resolution sample_find_equiv sample_fit
              single_store 0 1 sample_cell sample_shells FOM_D1SIG true []
            = Returns (st', Some fctx, n_out) /\
            (Z.of_nat (length (st' 0%nat)) <= INT_MAX)%Z).
  { eexists _, _, _.
    unfold fom_calculate, single_store, sample_shells,
      sample_refl, sample_resolution, sample_find_equiv.
    unfold get_bin, doubled_resolution, sample_resolution.
    deval. split; [reflexivity |].
    unfold st_upd, st_set, INT_MAX. cbn. lia. }
  destruct E as (st' & fctx & n_out & E & B). exists st', fctx, n_out.
  assert (Hb : (1 < Z.to_nat (nshells sample_shells))%nat) by (simpl; lia).
  split; [left; reflexivity |]. split; [exact B |]. split; [exact E |].
  split; [exact Hb |].
  exact (dsig_shell_is_a_fraction sample_correlation sample_variance
           sample_resolution sample_find_equiv sample_fit single_store st' 0
           1 sample_cell sample_shells FOM_D1SIG true [] fctx n_out 1
           (or_introl eq_refl) B E Hb).
Defined.

(* ================================================================== *)
(** * fom.c: the range of Rsplit *)




(* ================================================================== *)
(** * fom.c: one shell, and the value of CC* *)

Lemma dadd_0_l (x : double) : dadd (Fin 0) x = x.
Proof. destruct x; simpl; rewrite ?Rplus_0_l; reflexivity. Qed.

Lemma init_fom_nshells (fom : fom_type) (nmax nsh : Z) :
  fc_nshells (init_fom fom nmax nsh) = nsh.
Proof. destruct fom; reflexivity. Qed.

(** The context that [fom_calculate] returns has the kind and the number of
    shells it was asked for. *)
Lemma fom_calculate_context_kind
    (resolution : UnitCell -> Z -> Z -> Z -> double)
    (find_equiv_in_list : RefList -> Z -> Z -> Z -> SymOpList
                          -> option (Z * Z * Z))
    (gsl_fit_linear : list double -> list double -> Z * double * double)
    (st st' : store) (list1 list2 : nat) (cell : UnitCell)
    (shells : fom_shells) (fom : fom_type) (noscale : bool) (sym : SymOpList)
    (fctx : fom_context) (n_out : Z) :
  is_anomalous fom = false ->
  fom_calculate resolution find_equiv_in_list gsl_fit_linear st list1 list2
    cell shells fom noscale sym = Returns (st', Some fctx, n_out) ->
  fc_fom fctx = fom /\ fc_nshells fctx = nshells shells.
Proof.
  intros Ha. unfold fom_calculate.
  match goal with |- context [bind ?m _] => destruct m as [[failed st1] |] eqn:W end;
    cbn [bind]; [| discriminate].
  destruct failed; [discriminate |].
  destruct (run_loop (clear_flags_step list1 list2) _ st1) as [st2 |] eqn:C;
    cbn [bind]; [| discriminate].
  match goal with
  | |- context [bind (run_loop ?f ?idx ?s0) _] =>
      destruct (run_loop f idx s0) as [[[st3 fctx3] n3] |] eqn:E
  end; cbn [bind]; [| discriminate].
  intros [= <- <- <-].
  apply (accumulate_loop_counts resolution find_equiv_in_list list1 list2
           cell shells fom sym Ha) in E.
  destruct E as (_ & Hf & Hn & _).
  destruct (init_fom_counts fom (num_reflections (st list1))
              (nshells shells)) as (I1 & _).
  rewrite Hf, Hn, I1, init_fom_nshells. split; reflexivity.
Qed.

(** With one shell the sums over the shells are the sums of the shell. *)
Lemma one_shell_ratio
    (gsl_stats_correlation : list double -> list double -> double)
    (gsl_stats_variance_m : list double -> double -> double)
    (fctx : fom_context) :
  fc_nshells fctx = 1%Z ->
  fc_fom fctx = FOM_R1I \/ fc_fom fctx = FOM_R1F \/ fc_fom fctx = FOM_R2 \/
  fc_fom fctx = FOM_RSPLIT ->
  fom_overall gsl_stats_correlation gsl_stats_variance_m fctx
  = fom_shell gsl_stats_correlation gsl_stats_variance_m fctx 0.
Proof.
  intros Hn Hk.
  unfold fom_overall, fom_shell, shell_indices, accumulate_num_den.
  rewrite Hn. change (Z.to_nat 1) with 1%nat. change (Z.to_nat 0) with 0%nat.
  cbn [seq fold_left fst snd]. rewrite !dadd_0_l.
  destruct Hk as [K | [K | [K | K]]]; rewrite K; reflexivity.
Qed.

(** X16.  When [fom_calculate] is run with one shell for R1(I), R1(F), R2 or
    Rsplit, the overall value of the context it returns is the value of that
    shell: [fom_overall] adds the one numerator and the one denominator to
    zero and then forms the expression that [fom_shell] forms. *)
Theorem fom_overall_one_shell :
  forall (gsl_stats_correlation : list double -> list double -> double)
         (gsl_stats_variance_m : list double -> double -> double)
         (resolution : UnitCell -> Z -> Z -> Z -> double)
         (find_equiv_in_list : RefList -> Z -> Z -> Z -> SymOpList
                               -> option (Z * Z * Z))
         (gsl_fit_linear : list double -> list double -> Z * double * double)
         (st st' : store) (list1 list2 : nat) (cell : UnitCell)
         (shells : fom_shells) (fom : fom_type) (noscale : bool)
         (sym : SymOpList) (fctx : fom_context) (n_out : Z),
    nshells shells = 1%Z ->
    fom = FOM_R1I \/ fom = FOM_R1F \/ fom = FOM_R2 \/ fom = FOM_RSPLIT ->
    fom_calculate resolution find_equiv_in_list gsl_fit_linear st list1 list2
      cell shells fom noscale sym = Returns (st', Some fctx, n_out) ->
    fom_overall gsl_stats_correlation gsl_stats_variance_m fctx
    = fom_shell gsl_stats_correlation gsl_stats_variance_m fctx 0.
Proof.
  intros corr var resolution find_equiv_in_list gsl_fit_linear st st' list1
    list2 cell shells fom noscale sym fctx n_out Hn Hk H.
  assert (Ha : is_anomalous fom = false)
    by (destruct Hk as [-> | [-> | [-> | ->]]]; reflexivity).
  destruct (fom_calculate_context_kind resolution find_equiv_in_list
              gsl_fit_linear st st' list1 list2 cell shells fom noscale sym
              fctx n_out Ha H) as [Kf Kn].
  apply one_shell_ratio.
  - rewrite Kn. exact Hn.
  - rewrite Kf. exact Hk.
Qed.

Lemma fom_overall_one_shell_witness :
  nshells one_shell = 1%Z /\
  exists st' fctx n_out,
    fom_calculate sample_resolution sample_find_equiv sample_fit sample_store
      0 1 sample_cell one_shell FOM_R1I true []
    = Returns (st', Some fctx, n_out) /\
    fom_overall sample_correlation sample_variance fctx
    = fom_shell sample_correlation sample_variance fctx 0.
Proof.
  assert (E : exists st' fctx n_out,
            fom_calculate sample_resolution sample_find_equiv sample_fit
              sample_store 0 1 sample_cell one_shell FOM_R1I true []
            = Returns (st', Some fctx, n_out)).
  { eexists _, _, _.
    unfold fom_calculate, sample_store, sample_pair_list, one_shell,
      sample_refl, sample_resolution, sample_find_equiv.
    unfold get_bin, doubled_resolution, sample_resolution.
    deval. reflexivity. }
  split; [reflexivity |].
  destruct E as (st' & fctx & n_out & E). exists st', fctx, n_out.
  split; [exact E |].
  apply (fom_overall_one_shell sample_correlation sample_variance
           sample_resolution sample_find_equiv sample_fit sample_store st' 0
           1 sample_cell one_shell FOM_R1I true [] fctx n_out eq_refl
           (or_introl eq_refl) E).
Defined.

(** X17.  CC* of a shell, the square root of 2 CC / (1 + CC): for a
    correlation CC from 0 to 1 it is a number from CC to 1; for a negative
    correlation, down to -1, it is not a number. *)
Theorem ccstar_shell_value :
  forall (gsl_stats_correlation : list double -> list double -> double)
         (gsl_stats_variance_m : list double -> double -> double)
         (fctx : fom_context) (i : Z) (cc : R),
    fc_fom fctx = FOM_CCSTAR ->
    gsl_stats_correlation
      (firstn (Z.to_nat (iget (fc_n fctx) (Z.to_nat i)))
         (vget (fc_vec1 fctx) (Z.to_nat i)))
      (firstn (Z.to_nat (iget (fc_n fctx) (Z.to_nat i)))
         (vget (fc_vec2 fctx) (Z.to_nat i)))
    = Fin cc ->
    (0 <= cc <= 1 ->
     exists v,
       fom_shell gsl_stats_correlation gsl_stats_variance_m fctx i = Fin v /\
       cc <= v <= 1) /\
    (-1 <= cc < 0 ->
     fom_shell gsl_stats_correlation gsl_stats_variance_m fctx i = NaN).
Proof.
  intros corr var fctx i cc K C. unfold fom_shell. rewrite K. cbv zeta.
  rewrite C. unfold dmul, dadd, ddiv, dsqrt. split.
  - intros [H0 H1].
    rewrite (Reqb_false (1 + cc) 0) by lra.
    assert (Hq : 0 <= 2 * cc / (1 + cc) <= 1).
    { split.
      - apply Rmult_le_pos; [lra |]. left. apply Rinv_0_lt_compat. lra.
      - apply (Rmult_le_reg_r (1 + cc)); [lra |].
        unfold Rdiv. rewrite Rmult_assoc, Rinv_l by lra. lra. }
    rewrite (Rltb_false (2 * cc / (1 + cc)) 0) by lra.
    eexists. split; [reflexivity |]. split.
    + rewrite <- (sqrt_square cc) at 1 by lra.
      apply sqrt_le_1_alt.
      apply (Rmult_le_reg_r (1 + cc)); [lra |].
      unfold Rdiv. rewrite (Rmult_assoc (2 * cc)), Rinv_l by lra. nra.
    + apply Rle_trans with (sqrt 1);
        [apply sqrt_le_1_alt; lra | rewrite sqrt_1; lra].
  - intros [H0 H1].
    destruct (Req_dec_T (1 + cc) 0) as [E | E].
    + rewrite (Reqb_true (1 + cc) 0 E), (Reqb_false (2 * cc) 0) by lra.
      rewrite (Rltb_true (2 * cc) 0) by lra. reflexivity.
    + rewrite (Reqb_false (1 + cc) 0 E).
      assert (Hneg : 2 * cc / (1 + cc) < 0).
      { assert (Hp : 0 < / (1 + cc)) by (apply Rinv_0_lt_compat; lra).
        unfold Rdiv. nra. }
      rewrite (Rltb_true _ 0 Hneg). reflexivity.
Qed.

Lemma ccstar_shell_value_witness :
  fc_fom sample_ccstar_context = FOM_CCSTAR /\
  half_correlation
    (firstn (Z.to_nat (iget (fc_n sample_ccstar_context) (Z.to_nat 0)))
       (vget (fc_vec1 sample_ccstar_context) (Z.to_nat 0)))
    (firstn (Z.to_nat (iget (fc_n sample_ccstar_context) (Z.to_nat 0)))
       (vget (fc_vec2 sample_ccstar_context) (Z.to_nat 0)))
  = Fin (1 / 2) /\
  0 <= 1 / 2 <= 1 /\
  exists v,
    fom_shell half_correlation sample_variance sample_ccstar_context 0
    = Fin v /\ 1 / 2 <= v <= 1.
Proof.
  split; [reflexivity |]. split; [reflexivity |].
  assert (H : 0 <= 1 / 2 <= 1) by lra.
  split; [exact H |].
  exact (proj1 (ccstar_shell_value half_correlation sample_variance
                  sample_ccstar_context 0 (1 / 2) eq_refl eq_refl) H).
Defined.

(* ================================================================== *)
(** * fom.c: the sign of the scaled intensities *)

(** [exp] has no negative value. *)
Lemma dexp_not_negative (x : double) : dlt (dexp x) (Fin 0) = false.
Proof.
  destruct x as [a | [|] |]; simpl; try reflexivity.
  - pose proof (exp_pos a). unfold dlt, dcmp.
    rewrite (Rltb_false (exp a) 0), (Rltb_true 0 (exp a)) by lra. reflexivity.
  - unfold dlt, dcmp. rewrite (Rltb_false 0 0) by lra. reflexivity.
Qed.

(** A product of two numbers of which none is negative is not negative. *)
Lemma dmul_not_negative (x y : double) :
  dlt x (Fin 0) = false -> dlt y (Fin 0) = false ->
  dlt (dmul x y) (Fin 0) = false.
Proof.
  destruct x as [a | [|] |], y as [b | [|] |]; unfold dlt, dcmp, dmul;
    try reflexivity; try discriminate.
  - destruct (Rlt_dec a 0) as [Ha | Ha];
      [rewrite (Rltb_true a 0 Ha); discriminate |].
    destruct (Rlt_dec b 0) as [Hb | Hb];
      [rewrite (Rltb_true b 0 Hb); discriminate |].
    intros _ _. rewrite (Rltb_false (a * b) 0) by nra.
    destruct (Rltb 0 (a * b)); reflexivity.
  - destruct (Rlt_dec a 0) as [Ha | Ha];
      [rewrite (Rltb_true a 0 Ha); discriminate |].
    intros _ _. rewrite (Rltb_false a 0 Ha).
    destruct (Reqb a 0); reflexivity.
  - destruct (Rlt_dec b 0) as [Hb | Hb];
      [rewrite (Rltb_true b 0 Hb); discriminate |].
    intros _ _. rewrite (Rltb_false b 0 Hb).
    destruct (Reqb b 0); reflexivity.
Qed.

(** A number that is not positive, times one that is not negative, is not
    positive. *)
Lemma dmul_not_positive (x y : double) :
  dgt x (Fin 0) = false -> dlt y (Fin 0) = false ->
  dgt (dmul x y) (Fin 0) = false.
Proof.
  destruct x as [a | [|] |], y as [b | [|] |]; unfold dgt, dlt, dcmp, dmul;
    try reflexivity; try discriminate.
  - destruct (Rlt_dec 0 a) as [Ha | Ha].
    { rewrite (Rltb_true 0 a Ha). discriminate. }
    destruct (Rlt_dec b 0) as [Hb | Hb];
      [rewrite (Rltb_true b 0 Hb); discriminate |].
    intros _ _. rewrite (Rltb_false 0 (a * b)) by nra.
    destruct (Rltb (a * b) 0); reflexivity.
  - destruct (Rlt_dec 0 a) as [Ha | Ha].
    { rewrite (Rltb_true 0 a Ha). discriminate. }
    intros _ _.
    destruct (Req_dec_T a 0) as [Hz | Hz].
    + rewrite (Reqb_true a 0 Hz). reflexivity.
    + rewrite (Reqb_false a 0 Hz), (Rltb_true a 0) by lra. reflexivity.
  - destruct (Rlt_dec b 0) as [Hb | Hb];
      [rewrite (Rltb_true b 0 Hb); discriminate |].
    intros _ _. rewrite (Rltb_false b 0 Hb).
    destruct (Reqb b 0); reflexivity.
Qed.

(** X18.  [wilson_scale] never turns the sign of a value of the second list:
    when it succeeds, whatever the coefficients of the fit and the
    resolutions are, an intensity that was not below zero is not below zero
    afterwards, one that was not above zero is not above zero afterwards, and
    the same holds of the sigmas.  The correction is a product of two
    exponentials, which has no negative value. *)
Theorem wilson_scale_keeps_sign :
  forall (resolution : UnitCell -> Z -> Z -> Z -> double)
         (gsl_fit_linear : list double -> list double -> Z * double * double)
         (st st' : store) (list1 list2 : nat) (cell : UnitCell),
    wilson_scale resolution gsl_fit_linear st list1 list2 cell
    = Returns (0%Z, st') ->
    length (st' list2) = length (st list2) /\
    forall i refl2 refl2',
      nth_error (st list2) i = Some refl2 ->
      nth_error (st' list2) i = Some refl2' ->
      (dlt (get_intensity refl2) (Fin 0) = false ->
       dlt (get_intensity refl2') (Fin 0) = false) /\
      (dgt (get_intensity refl2) (Fin 0) = false ->
       dgt (get_intensity refl2') (Fin 0) = false) /\
      (dlt (get_esd_intensity refl2) (Fin 0) = false ->
       dlt (get_esd_intensity refl2') (Fin 0) = false) /\
      (dgt (get_esd_intensity refl2) (Fin 0) = false ->
       dgt (get_esd_intensity refl2') (Fin 0) = false).
Proof.
  intros resolution gsl_fit_linear st st' list1 list2 cell H.
  destruct (wilson_scale_success resolution gsl_fit_linear st st' list1 list2
              cell H) as (x & y & c0 & c1 & _ & _ & _ & ->).
  rewrite st_set_same. split; [apply length_map |].
  intros i refl2 refl2' Hn Hn'.
  rewrite nth_error_map, Hn in Hn'. simpl in Hn'. injection Hn' as <-.
  unfold wilson_apply, get_indices.
  set (corr := dmul (dexp c0) _).
  assert (Hc : dlt corr (Fin 0) = false)
    by (apply dmul_not_negative; apply dexp_not_negative).
  cbn [get_intensity get_esd_intensity set_intensity set_esd_intensity].
  split; [| split; [| split]]; intros Hs.
  - apply dmul_not_negative; assumption.
  - apply dmul_not_positive; assumption.
  - apply dmul_not_negative; assumption.
  - apply dmul_not_positive; assumption.
Qed.

Lemma wilson_scale_keeps_sign_witness :
  exists st',
    wilson_scale sample_resolution sample_steep_fit sample_store 0 1
      sample_cell = Returns (0%Z, st') /\
    nth_error (st' 1%nat) 0 = Some steep_scaled_refl /\
    dlt (get_intensity (sample_refl 1 100 1 1 1 false false)) (Fin 0) = false /\
    dlt (get_intensity steep_scaled_refl) (Fin 0) = false.
Proof.
  assert (E : exists st',
            wilson_scale sample_resolution sample_steep_fit sample_store 0 1
              sample_cell = Returns (0%Z, st') /\
            nth_error (st' 1%nat) 0 = Some steep_scaled_refl).
  { eexists. split.
    - unfold wilson_scale, sample_store, sample_pair_list, sample_refl,
        sample_resolution, sample_steep_fit. deval. reflexivity.
    - reflexivity. }
  assert (P : dlt (get_intensity (sample_refl 1 100 1 1 1 false false))
                (Fin 0) = false).
  { unfold sample_refl. cbn [get_intensity]. unfold dlt, dcmp.
    rewrite (Rltb_false 100 0), (Rltb_true 0 100) by lra. reflexivity. }
  destruct E as (st' & E & N). exists st'.
  split; [exact E |]. split; [exact N |]. split; [exact P |].
  assert (N0 : nth_error (sample_store 1%nat) 0
               = Some (sample_refl 1 100 1 1 1 false false)) by reflexivity.
  exact (proj1 (proj2 (wilson_scale_keeps_sign sample_resolution
                         sample_steep_fit sample_store st' 0 1 sample_cell E)
                  0%nat _ _ N0 N) P).
Defined.

(* ================================================================== *)
(** * fom.c: the order of the shells *)

(** X19.  [get_bin] keeps the order of the resolutions: with shells that
    adjoin and grow, of two reflections whose doubled resolutions lie above
    the lowest boundary and not above the highest, the one with the higher
    resolution is in the same shell as the other or in a higher one. *)
Theorem get_bin_monotone :
  forall (resolution : UnitCell -> Z -> Z -> Z -> double)
         (s : fom_shells) (b : nat -> R) (cell : UnitCell)
         (refl1 refl2 : Reflection) (d1 d2 : R) (bin1 bin2 : Z),
    shells_adjoin s b ->
    bounds_increase b (Z.to_nat (nshells s)) ->
    doubled_resolution resolution refl1 cell = Fin d1 ->
    doubled_resolution resolution refl2 cell = Fin d2 ->
    b 0%nat < d1 -> d1 <= d2 -> d2 <= b (Z.to_nat (nshells s)) ->
    get_bin resolution s refl1 cell = Returns bin1 ->
    get_bin resolution s refl2 cell = Returns bin2 ->
    (bin1 <= bin2)%Z.
Proof.
  intros resolution s b cell refl1 refl2 d1 d2 bin1 bin2 Ha Hi D1 D2 L1 L12 L2
    G1 G2.
  assert (Range : forall refl d bin,
            doubled_resolution resolution refl cell = Fin d ->
            b 0%nat < d -> d <= b (Z.to_nat (nshells s)) ->
            get_bin resolution s refl cell = Returns bin ->
            exists j, bin = Z.of_nat j /\ (j < Z.to_nat (nshells s))%nat /\
                      b j < d <= b (S j)).
  { intros refl d bin D Hlo Hhi G.
    destruct (get_bin_cases resolution s b refl cell Ha) as (j & Hj & E & C).
    { rewrite D. reflexivity. }
    rewrite E in G. injection G as <-.
    exists j. split; [reflexivity |]. split; [exact Hj |].
    rewrite D in C.
    destruct C as [(_ & C & _) | [(_ & C) | (C1 & C2 & _)]].
    - apply dle_Fin in C. lra.
    - unfold dgt in C. apply dlt_Fin in C. lra.
    - unfold dgt in C1. apply dlt_Fin in C1. apply dle_Fin in C2. lra. }
  destruct (Range refl1 d1 bin1 D1 L1 ltac:(lra) G1) as (j1 & -> & J1 & B1).
  destruct (Range refl2 d2 bin2 D2 ltac:(lra) L2 G2) as (j2 & -> & J2 & B2).
  destruct (Nat.le_gt_cases j1 j2) as [Hle | Hgt]; [lia |].
  exfalso.
  pose proof (bounds_monotone b (Z.to_nat (nshells s)) Hi (S j2) j1
                ltac:(lia)) as M.
  lra.
Qed.

Lemma get_bin_monotone_witness :
  shells_adjoin sample_shells sample_bounds /\
  bounds_increase sample_bounds (Z.to_nat (nshells sample_shells)) /\
  doubled_resolution sample_resolution (sample_refl 1 100 1 1 1 false false)
    sample_cell = Fin (2 * 1) /\
  doubled_resolution sample_resolution (sample_refl 2 50 1 1 1 false false)
    sample_cell = Fin (2 * 2) /\
  sample_bounds 0 < 2 * 1 /\ 2 * 1 <= 2 * 2 /\
  2 * 2 <= sample_bounds (Z.to_nat (nshells sample_shells)) /\
  get_bin sample_resolution sample_shells
    (sample_refl 1 100 1 1 1 false false) sample_cell = Returns 0%Z /\
  get_bin sample_resolution sample_shells
    (sample_refl 2 50 1 1 1 false false) sample_cell = Returns 1%Z /\
  (0 <= 1)%Z.
Proof.
  assert (Ha : shells_adjoin sample_shells sample_bounds)
    by exact sample_shells_adjoin.
  assert (Hi : bounds_increase sample_bounds
                 (Z.to_nat (nshells sample_shells))).
  { intros [| [| j]] Hj; simpl in *; try lra; lia. }
  assert (D1 : doubled_resolution sample_resolution
                 (sample_refl 1 100 1 1 1 false false) sample_cell
               = Fin (2 * 1)) by reflexivity.
  assert (D2 : doubled_resolution sample_resolution
                 (sample_refl 2 50 1 1 1 false false) sample_cell
               = Fin (2 * 2)) by reflexivity.
  assert (L1 : sample_bounds 0 < 2 * 1) by (simpl; lra).
  assert (L12 : 2 * 1 <= 2 * 2) by lra.
  assert (L2 : 2 * 2 <= sample_bounds (Z.to_nat (nshells sample_shells)))
    by (simpl; lra).
  assert (G1 : get_bin sample_resolution sample_shells
                 (sample_refl 1 100 1 1 1 false false) sample_cell
               = Returns 0%Z).
  { unfold sample_shells, sample_refl, sample_resolution. deval.
    reflexivity. }
  assert (G2 : get_bin sample_resolution sample_shells
                 (sample_refl 2 50 1 1 1 false false) sample_cell
               = Returns 1%Z).
  { unfold sample_shells, sample_refl, sample_resolution. deval.
    reflexivity. }
  repeat (split; [assumption |]).
  exact (get_bin_monotone sample_resolution sample_shells sample_bounds
           sample_cell _ _ _ _ 0 1 Ha Hi D1 D2 L1 L12 L2 G1 G2).
Defined.

(** X20.  The label of a shell lies between its two boundaries, ends
    included: where the lower boundary is a number that is not negative and
    the upper one is a number not below it, [fom_shell_label] is a number not
    below the lower and not above the upper boundary. *)
Theorem fom_shell_label_inside :
  forall (s : fom_shells) (i : Z) (a c : R),
    dget (rmins s) (Z.to_nat i) = Fin a ->
    dget (rmaxs s) (Z.to_nat i) = Fin c ->
    0 <= a <= c ->
    exists m, fom_shell_label s i = Fin m /\
              dle (Fin a) (fom_shell_label s i) = true /\
              dle (fom_shell_label s i) (Fin c) = true /\
              a <= m <= c.
Proof.
  intros s i a c Ha Hc Hr.
  exists (a + (c + - a) / 2).
  assert (L : fom_shell_label s i = Fin (a + (c + - a) / 2)).
  { unfold fom_shell_label. rewrite Ha, Hc.
    unfold dsub, dneg, dadd, ddiv.
    rewrite (Reqb_false 2 0) by lra. reflexivity. }
  rewrite L. split; [reflexivity |].
  split; [| split; [| lra]].
  - unfold dle, dcmp.
    destruct (Rlt_dec a (a + (c + - a) / 2)) as [Hl | Hl].
    + rewrite (Rltb_true _ _ Hl). reflexivity.
    + rewrite (Rltb_false _ _ Hl), (Rltb_false (a + (c + - a) / 2) a) by lra.
      reflexivity.
  - unfold dle, dcmp.
    destruct (Rlt_dec (a + (c + - a) / 2) c) as [Hl | Hl].
    + rewrite (Rltb_true _ _ Hl). reflexivity.
    + rewrite (Rltb_false _ _ Hl), (Rltb_false c (a + (c + - a) / 2)) by lra.
      reflexivity.
Qed.

Lemma fom_shell_label_inside_witness :
  dget (rmins sample_shells) (Z.to_nat 1) = Fin (sample_bounds 1) /\
  dget (rmaxs sample_shells) (Z.to_nat 1) = Fin (sample_bounds 2) /\
  0 <= sample_bounds 1 <= sample_bounds 2 /\
  exists m, fom_shell_label sample_shells 1 = Fin m /\
            dle (Fin (sample_bounds 1)) (fom_shell_label sample_shells 1)
            = true /\
            dle (fom_shell_label sample_shells 1) (Fin (sample_bounds 2))
            = true /\
            sample_bounds 1 <= m <= sample_bounds 2.
Proof.
  assert (Ha : dget (rmins sample_shells) (Z.to_nat 1)
               = Fin (sample_bounds 1)) by reflexivity.
  assert (Hc : dget (rmaxs sample_shells) (Z.to_nat 1)
               = Fin (sample_bounds 2)) by reflexivity.
  assert (Hr : 0 <= sample_bounds 1 <= sample_bounds 2) by (simpl; lra).
  split; [exact Ha |]. split; [exact Hc |]. split; [exact Hr |].
  exact (fom_shell_label_inside sample_shells 1 (sample_bounds 1)
           (sample_bounds 2) Ha Hc Hr).
Defined.

(* ================================================================== *)
(** * fom.c: the names of the figures of merit *)

Lemma strcasecmp_eq_both (s a b : string) :
  strcasecmp_eq s a = true -> strcasecmp_eq s b = true ->
  strcasecmp_eq a b = true.
Proof.
  revert a b; induction s as [| c s IH]; intros [| x a] [| y b];
    simpl; try discriminate; try reflexivity.
  intros H1 H2.
  apply andb_prop in H1. destruct H1 as [C1 R1].
  apply andb_prop in H2. destruct H2 as [C2 R2].
  apply Ascii.eqb_eq in C1, C2. rewrite <- C1, <- C2, Ascii.eqb_refl.
  simpl. apply (IH a b R1 R2).
Qed.

(** X21.  [fom_type_from_string] gives a figure of merit exactly for the
    strings that are its name in the table up to the case of the letters: no
    string matches two names, so the order of the tests does not matter, and
    every other string ends the program. *)
Theorem fom_type_from_string_name :
  forall (s : string) (fom : fom_type),
    fom_type_from_string s = Some fom <->
    strcasecmp_eq s (fom_type_name fom) = true.
Proof.
  intros s fom. unfold fom_type_from_string. split.
  - repeat match goal with
           | |- context [if strcasecmp_eq s ?n then _ else _] =>
               destruct (strcasecmp_eq s n) eqn:?;
               [intros [= <-]; assumption |]
           end.
    discriminate.
  - intros H.
    repeat match goal with
           | |- context [if strcasecmp_eq s ?n then _ else _] =>
               let E := fresh "E" in
               destruct (strcasecmp_eq s n) eqn:E;
               [pose proof (strcasecmp_eq_both s _ _ E H) as X;
                destruct fom; first [reflexivity | discriminate X] |]
           end.
    destruct fom; simpl in H; congruence.
Qed.

(** Upper case, mixed case, a name that is the beginning of another, and
    strings that are no name. *)
Example fom_type_from_string_samples :
  fom_type_from_string "RSPLIT" = Some FOM_RSPLIT /\
  fom_type_from_string "Rano/Rsplit" = Some FOM_RANORSPLIT /\
  fom_type_from_string "cc" = Some FOM_CC /\
  fom_type_from_string "ccs" = None /\
  fom_type_from_string "" = None.
Proof. repeat split; reflexivity. Qed.

(* ================================================================== *)
(** * fom.c: the anomalous figures of merit need the Bijvoet partners *)




Lemma find_refl_idx_keys (l l' : RefList) (h k m : Z) :
  map payload l = map payload l' ->
  find_refl_idx l h k m = find_refl_idx l' h k m.
Proof.
  revert l'; induction l as [| r l IH]; intros [| r' l'] E; simpl in *;
    try discriminate; [reflexivity |].
  injection E as E1 E2 E3 _ El. unfold same_indices.
  rewrite E1, E2, E3, (IH l' El). reflexivity.
Qed.


Section BijvoetPartners.

Variable resolution : UnitCell -> Z -> Z -> Z -> double.
Variable find_equiv_in_list :
  RefList -> Z -> Z -> Z -> SymOpList -> option (Z * Z * Z).
Variable gsl_fit_linear : list double -> list double -> Z * double * double.
Variables (list1 list2 : nat) (cell : UnitCell) (shells : fom_shells)
  (fom : fom_type) (sym : SymOpList).

Hypothesis anomalous : is_anomalous fom = true.
Hypothesis no_partner :
  forall rl h k l, find_equiv_in_list rl h k l sym = None.

Local Abbreviation clear_at s p i :=
  (exists r, nth_error (s p) i = Some r /\ get_flag r = false).


End BijvoetPartners.




(* ================================================================== *)
(** * fom.c: when [fom_calculate] returns a context *)

Lemma find_refl_found_idx (list : RefList) (h k l : Z) :
  find_refl list h k l <> None -> find_refl_idx list h k l <> None.
Proof.
  rewrite find_refl_idx_spec. destruct (find_refl_idx list h k l);
    [discriminate | intros H; exfalso; apply H; reflexivity].
Qed.

Lemma payload_nth_exists (l l' : RefList) (i : nat) (r' : Reflection) :
  map payload l = map payload l' ->
  nth_error l' i = Some r' ->
  exists r, nth_error l i = Some r /\ get_indices r = get_indices r'.
Proof.
  intros E Hn'.
  assert (H : nth_error (map payload l) i = nth_error (map payload l') i)
    by (rewrite E; reflexivity).
  rewrite !nth_error_map, Hn' in H. cbn [option_map] in H.
  destruct (nth_error l i) as [r |]; [| discriminate].
  exists r. split; [reflexivity |].
  assert (Hp : payload r = payload r') by (cbn [option_map] in H; congruence).
  exact (f_equal fst Hp).
Qed.

(** The first loop of [fom_calculate] runs to its end when every reflection
    of the first list has a partner in the second. *)
Lemma clear_flags_loop_returns (list1 list2 : nat) (st : store) :
  (forall refl1, In refl1 (st list1) ->
     find_refl (st list2) (get_h refl1) (get_k refl1) (get_l refl1) <> None) ->
  forall (idx : list nat) (s : store),
    (forall q, map payload (s q) = map payload (st q)) ->
    exists s', run_loop (clear_flags_step list1 list2) idx s = Returns s'.
Proof.
  intros Hp. induction idx as [| i idx IH]; intros s P.
  - eexists. reflexivity.
  - cbn [run_loop].
    destruct (clear_flags_step list1 list2 s i) as [s1 |] eqn:E.
    + cbn [bind]. apply IH. intros q.
      rewrite (clear_flags_step_payload _ _ _ _ _ E q). apply P.
    + exfalso. unfold clear_flags_step in E.
      destruct (nth_error (s list1) i) as [x |] eqn:Hn; [| discriminate].
      destruct (payload_nth_exists (st list1) (s list1) i x
                  (eq_sym (P list1)) Hn) as (r & Hr & Hk).
      unfold get_indices in E, Hk. injection Hk as K1 K2 K3.
      match type of E with
      | match find_refl_idx ?l _ _ _ with _ => _ end = _ =>
          rewrite (find_refl_idx_keys l (st list2)) in E
            by (rewrite st_upd_payload; apply P)
      end.
      rewrite <- K1, <- K2, <- K3 in E.
      pose proof (find_refl_found_idx _ _ _ _
                    (Hp r (nth_error_In _ _ Hr))) as Hf.
      destruct (find_refl_idx (st list2) (get_h r) (get_k r) (get_l r));
        [discriminate | contradiction].
Qed.

(** [add_to_fom] returns when the vectors of the correlation figures of
    merit have room left. *)
Lemma add_to_fom_returns (fctx : fom_context)
    (i1 i2 i1bij i2bij sig1 sig2 : double) (bin m : Z) :
  (forall b, (0 <= iget (fc_n fctx) b <= m)%Z) ->
  (m < fc_nmax fctx)%Z \/
  (fc_fom fctx <> FOM_CC /\ fc_fom fctx <> FOM_CCSTAR /\
   fc_fom fctx <> FOM_CCANO /\ fc_fom fctx <> FOM_CRDANO) ->
  (m < INT_MAX)%Z ->
  exists fctx',
    add_to_fom fctx i1 i2 i1bij i2bij sig1 sig2 bin = Returns fctx' /\
    fc_fom fctx' = fc_fom fctx /\ fc_nmax fctx' = fc_nmax fctx /\
    forall b, (0 <= iget (fc_n fctx') b <= m + 1)%Z.
Proof.
  intros Hn Hroom Hm.
  assert (Hn' : forall b, (0 <= iget (fc_n fctx) b <= m + 1)%Z)
    by (intros b; specialize (Hn b); lia).
  assert (Push : forall a c,
            (m < fc_nmax fctx)%Z ->
            exists fctx',
              push_pair (set_cts fctx (ibump (fc_cts fctx) (Z.to_nat bin)))
                (Z.to_nat bin) a c = Returns fctx' /\
              fc_fom fctx' = fc_fom fctx /\ fc_nmax fctx' = fc_nmax fctx /\
              forall b, (0 <= iget (fc_n fctx') b <= m + 1)%Z).
  { intros a c Hr. unfold push_pair. cbn [fc_n fc_nmax set_cts].
    assert (T : (iget (fc_n fctx) (Z.to_nat bin) <? fc_nmax fctx)%Z = true).
    { apply Z.ltb_lt. specialize (Hn (Z.to_nat bin)). lia. }
    rewrite T. cbn [assert bind].
    eexists. split; [reflexivity |].
    cbn [fc_fom fc_nmax fc_n set_vecs set_cts].
    split; [reflexivity |]. split; [reflexivity |].
    intros b. rewrite iget_ibump.
    specialize (Hn b).
    destruct ((b =? Z.to_nat bin)%nat && _); [| lia].
    unfold int_incr. rewrite int_wrap_small by (unfold INT_MAX in *; lia).
    lia. }
  unfold add_to_fom. cbn [fc_fom set_cts].
  destruct (fc_fom fctx) eqn:K;
    try (eexists; split; [reflexivity |]; cbn; rewrite ?K;
         repeat split; try apply Hn'; fail);
    try (apply Push; destruct Hroom as [Hr | (N1 & N2 & N3 & N4)];
         [exact Hr | congruence]);
    (destruct (dlt _ _); eexists; (split; [reflexivity |]); cbn; rewrite ?K;
     repeat split; apply Hn').
Qed.

Lemma get_bin_keys (resolution : UnitCell -> Z -> Z -> Z -> double)
    (s : fom_shells) (cell : UnitCell) (r r' : Reflection) :
  get_indices r = get_indices r' ->
  get_bin resolution s r cell = get_bin resolution s r' cell.
Proof.
  intros K. unfold get_bin, doubled_resolution. rewrite K. reflexivity.
Qed.

Section CalculateReturns.

Variable resolution : UnitCell -> Z -> Z -> Z -> double.
Variable find_equiv_in_list :
  RefList -> Z -> Z -> Z -> SymOpList -> option (Z * Z * Z).
Variable gsl_fit_linear : list double -> list double -> Z * double * double.
Variables (list1 list2 : nat) (cell : UnitCell) (shells : fom_shells)
  (fom : fom_type) (sym : SymOpList).

Hypothesis not_anomalous : is_anomalous fom = false.

(** The second loop runs to its end when [get_bin] finds a shell for every
    reflection: it visits each reflection once, so the vectors that hold one
    entry for each reflection of the first list have room. *)
Lemma accumulate_loop_returns (st : store) :
  (forall i refl1, nth_error (st list1) i = Some refl1 ->
     exists bin, get_bin resolution shells refl1 cell = Returns bin) ->
  forall (idx : list nat) (fctx : fom_context) (n_out m : Z),
    (forall b, (0 <= iget (fc_n fctx) b <= m)%Z) ->
    (m + Z.of_nat (length idx) <= fc_nmax fctx)%Z \/
    (fc_fom fctx <> FOM_CC /\ fc_fom fctx <> FOM_CCSTAR /\
     fc_fom fctx <> FOM_CCANO /\ fc_fom fctx <> FOM_CRDANO) ->
    (m + Z.of_nat (length idx) <= INT_MAX)%Z ->
    exists fctx' n_out',
      run_loop (accumulate_step resolution find_equiv_in_list list1 list2 cell
                  shells fom sym) idx (st, fctx, n_out)
      = Returns (st, fctx', n_out').
Proof.
  intros Hbin. induction idx as [| i idx IH]; intros fctx n_out m Hn Hroom Hm.
  - eexists _, _. reflexivity.
  - cbn [run_loop length] in *.
    assert (Step : exists fctx1 n1,
              accumulate_step resolution find_equiv_in_list list1 list2 cell
                shells fom sym (st, fctx, n_out) i = Returns (st, fctx1, n1) /\
              fc_fom fctx1 = fc_fom fctx /\ fc_nmax fctx1 = fc_nmax fctx /\
              forall b, (0 <= iget (fc_n fctx1) b <= m + 1)%Z).
    { assert (Same : exists fctx1 n1,
                Returns (st, fctx, n_out)
                = Returns (st, fctx1, n1) :> outcome acc_state /\
                fc_fom fctx1 = fc_fom fctx /\ fc_nmax fctx1 = fc_nmax fctx /\
                forall b, (0 <= iget (fc_n fctx1) b <= m + 1)%Z).
      { exists fctx, n_out. repeat split; try reflexivity;
          specialize (Hn b); lia. }
      unfold accumulate_step.
      destruct (nth_error (st list1) i) as [refl1 |] eqn:Hn1; [| exact Same].
      destruct (get_indices refl1) as [[h k] l].
      destruct (find_refl_idx (st list2) h k l) as [i2 |]; [| exact Same].
      destruct (nth_error (st list2) i2) as [refl2 |]; [| exact Same].
      destruct (Hbin i refl1 Hn1) as [bin B]. rewrite B. cbn [bind].
      rewrite (get_bin_never_sentinel _ _ _ _ _ B), not_anomalous.
      destruct (add_to_fom_returns fctx (get_intensity refl1)
                  (get_intensity refl2) (Inf false) (Inf false)
                  (get_esd_intensity refl1) (get_esd_intensity refl2) bin m
                  Hn) as (fctx1 & A & A1 & A2 & A3).
      { destruct Hroom as [Hr | Hk]; [left; lia | right; exact Hk]. }
      { lia. }
      rewrite A. cbn [bind]. exists fctx1, n_out.
      split; [reflexivity |]. split; [exact A1 |]. split; assumption. }
    destruct Step as (fctx1 & n1 & E & F1 & F2 & F3). rewrite E. cbn [bind].
    apply (IH fctx1 n1 (m + 1)%Z F3).
    + rewrite F1, F2. destruct Hroom as [Hr | Hk]; [left; lia | right; exact Hk].
    + lia.
Qed.

End CalculateReturns.

(** X23.  Without scaling and for a figure of merit that is not anomalous,
    [fom_calculate] returns a context, with no pair counted as out of range,
    whenever every reflection of the first list has a partner in the second
    and [get_bin] finds a shell for it: none of its [assert]s fails, and the
    vectors of CC and CC* never overflow (the list is no longer than an [int]
    counts). *)
Theorem fom_calculate_returns :
  forall (resolution : UnitCell -> Z -> Z -> Z -> double)
         (find_equiv_in_list :
            RefList -> Z -> Z -> Z -> SymOpList -> option (Z * Z * Z))
         (gsl_fit_linear : list double -> list double -> Z * double * double)
         (st : store) (list1 list2 : nat) (cell : UnitCell)
         (shells : fom_shells) (fom : fom_type) (sym : SymOpList),
    is_anomalous fom = false ->
    (forall refl1, In refl1 (st list1) ->
       find_refl (st list2) (get_h refl1) (get_k refl1) (get_l refl1)
       <> None) ->
    (forall refl1, In refl1 (st list1) ->
       exists bin, get_bin resolution shells refl1 cell = Returns bin) ->
    (Z.of_nat (length (st list1)) <= INT_MAX)%Z ->
    exists st' fctx,
      fom_calculate resolution find_equiv_in_list gsl_fit_linear st list1
        list2 cell shells fom true sym = Returns (st', Some fctx, 0%Z).
Proof.
  intros resolution find_equiv_in_list gsl_fit_linear st list1 list2 cell
    shells fom sym Ha Hp Hbin Hmax.
  destruct (fom_calculate resolution find_equiv_in_list gsl_fit_linear st
              list1 list2 cell shells fom true sym) as [[[st' r] n] |] eqn:E.
  - pose proof E as E0. apply fom_calculate_n_out in E0. subst n.
    revert E. unfold fom_calculate. cbn [bind].
    destruct (run_loop (clear_flags_step list1 list2) _ st) as [st2 |];
      cbn [bind]; [| discriminate].
    match goal with
    | |- context [bind (run_loop ?f ?idx ?s0) _] =>
        destruct (run_loop f idx s0) as [[[st3 fctx3] n3] |]
    end; cbn [bind]; [| discriminate].
    intros [= <- <- _]. eexists _, _. reflexivity.
  - exfalso. revert E. unfold fom_calculate. cbn [bind].
    destruct (clear_flags_loop_returns list1 list2 st Hp
                (seq 0 (length (st list1))) st (fun q => eq_refl))
      as [st2 C].
    rewrite C. cbn [bind].
    pose proof (clear_flags_loop_payload _ _ _ _ _ C) as P.
    assert (L : length (st2 list1) = length (st list1)).
    { rewrite <- (length_map payload (st2 list1)), P, length_map.
      reflexivity. }
    destruct (init_fom_counts fom (num_reflections (st list1))
                (nshells shells)) as (I1 & _ & _).
    destruct (accumulate_loop_returns resolution find_equiv_in_list list1
                list2 cell shells fom sym Ha st2) with
        (idx := seq 0 (length (st list1)))
        (fctx := init_fom fom (num_reflections (st list1)) (nshells shells))
        (n_out := 0%Z) (m := 0%Z) as (fctx' & n' & R).
    + intros i x Hx.
      destruct (payload_nth_exists (st list1) (st2 list1) i x
                  (eq_sym (P list1)) Hx) as (r & Hr & Hk).
      rewrite <- (get_bin_keys resolution shells cell r x Hk).
      apply Hbin. eapply nth_error_In; exact Hr.
    + intros b. pose proof (iget_izeros (nshells shells) b) as Z0.
      unfold iget in Z0.
      destruct fom; cbn; rewrite ?Z0; try lia; destruct b; cbn; lia.
    + rewrite I1, length_seq.
      destruct fom; try discriminate Ha;
        try (right; repeat split; discriminate);
        left; cbn; unfold num_reflections; lia.
    + rewrite length_seq. lia.
    + rewrite R. cbn [bind]. discriminate.
Qed.

Lemma fom_calculate_returns_witness :
  is_anomalous FOM_CC = false /\
  (forall refl1, In refl1 (sample_store 0%nat) ->
     find_refl (sample_store 1%nat) (get_h refl1) (get_k refl1) (get_l refl1)
     <> None) /\
  (forall refl1, In refl1 (sample_store 0%nat) ->
     exists bin,
       get_bin sample_resolution sample_shells refl1 sample_cell
       = Returns bin) /\
  (Z.of_nat (length (sample_store 0%nat)) <= INT_MAX)%Z /\
  exists st' fctx,
    fom_calculate sample_resolution sample_find_equiv sample_fit sample_store
      0 1 sample_cell sample_shells FOM_CC true []
    = Returns (st', Some fctx, 0%Z).
Proof.
  assert (Hp : forall refl1, In refl1 (sample_store 0%nat) ->
            find_refl (sample_store 1%nat) (get_h refl1) (get_k refl1)
              (get_l refl1) <> None).
  { intros r [<- | [<- | []]]; discriminate. }
  assert (Hb : forall refl1, In refl1 (sample_store 0%nat) ->
            exists bin,
              get_bin sample_resolution sample_shells refl1 sample_cell
              = Returns bin).
  { intros r [<- | [<- | []]]; eexists;
      unfold sample_shells, sample_refl, sample_resolution; deval;
      reflexivity. }
  assert (Hm : (Z.of_nat (length (sample_store 0%nat)) <= INT_MAX)%Z)
    by (unfold INT_MAX; simpl; lia).
  split; [reflexivity |]. split; [exact Hp |]. split; [exact Hb |].
  split; [exact Hm |].
  exact (fom_calculate_returns sample_resolution sample_find_equiv sample_fit
           sample_store 0 1 sample_cell sample_shells FOM_CC [] eq_refl
           Hp Hb Hm).
Defined.

(* ================================================================== *)
(** * fom.c: an empty first list *)

Lemma shell_total_zeros (nsh : Z) : shell_total (zeros nsh) nsh = Fin 0.
Proof.
  unfold shell_total. apply dsum_zeros. intros x Hx.
  apply in_map_iff in Hx. destruct Hx as (b & <- & Hb).
  apply in_seq in Hb. apply dget_zeros. lia.
Qed.

Lemma zeros_of_izeros (nsh : Z) : map d_of_int (izeros nsh) = zeros nsh.
Proof. unfold izeros, zeros. apply map_repeat. Qed.

(** X24.  With an empty first list, [fom_calculate] with scaling returns
    NULL (the fit has no points); without scaling it returns the context
    that [init_fom] made, and the overall value of every figure of merit that
    is not a correlation is then not a number (0/0). *)
Theorem fom_calculate_empty_list :
  forall (gsl_stats_correlation : list double -> list double -> double)
         (gsl_stats_variance_m : list double -> double -> double)
         (resolution : UnitCell -> Z -> Z -> Z -> double)
         (find_equiv_in_list :
            RefList -> Z -> Z -> Z -> SymOpList -> option (Z * Z * Z))
         (gsl_fit_linear : list double -> list double -> Z * double * double)
         (st : store) (list1 list2 : nat) (cell : UnitCell)
         (shells : fom_shells) (fom : fom_type) (sym : SymOpList),
    st list1 = [] ->
    fom_calculate resolution find_equiv_in_list gsl_fit_linear st list1 list2
      cell shells fom false sym = Returns (st, None, 0%Z) /\
    fom_calculate resolution find_equiv_in_list gsl_fit_linear st list1 list2
      cell shells fom true sym
    = Returns (st, Some (init_fom fom 0 (nshells shells)), 0%Z) /\
    (fom <> FOM_CC -> fom <> FOM_CCSTAR -> fom <> FOM_CCANO ->
     fom <> FOM_CRDANO ->
     fom_overall gsl_stats_correlation gsl_stats_variance_m
       (init_fom fom 0 (nshells shells)) = NaN).
Proof.
  intros corr var resolution find_equiv_in_list gsl_fit_linear st list1 list2
    cell shells fom sym He.
  split; [| split].
  - unfold fom_calculate, wilson_scale. rewrite He. reflexivity.
  - unfold fom_calculate. cbn [bind]. rewrite He. reflexivity.
  - intros N1 N2 N3 N4.
    pose proof (shell_total_zeros (nshells shells)) as T.
    assert (Q : ddiv (Fin 0) (Fin 0) = NaN).
    { unfold ddiv. rewrite !Reqb_true by reflexivity. reflexivity. }
    unfold fom_overall, shell_indices.
    destruct fom; try contradiction; cbn [init_fom fc_fom fc_nshells fc_num
      fc_den fc_num2 fc_den2 fc_n_within fc_cts];
      rewrite ?zeros_of_izeros, !accumulate_num_den_totals, T;
      cbn [fst snd]; rewrite Q; reflexivity.
Qed.

Lemma fom_calculate_empty_list_witness :
  sample_store 2%nat = [] /\
  fom_calculate sample_resolution sample_find_equiv sample_fit sample_store
    2 1 sample_cell sample_shells FOM_R2 false []
  = Returns (sample_store, None, 0%Z) /\
  fom_calculate sample_resolution sample_find_equiv sample_fit sample_store
    2 1 sample_cell sample_shells FOM_R2 true []
  = Returns (sample_store, Some (init_fom FOM_R2 0 (nshells sample_shells)),
             0%Z).
Proof.
  assert (He : sample_store 2%nat = []) by reflexivity.
  split; [exact He |].
  pose proof (fom_calculate_empty_list sample_correlation sample_variance
                sample_resolution sample_find_equiv sample_fit sample_store
                2 1 sample_cell sample_shells FOM_R2 [] He) as (H1 & H2 & _).
  split; [exact H1 | exact H2].
Defined.
